(** * Visit tracker: the check-in / check-out service of [backend/src/server.js]

    A shallow embedding of the Express handlers of [server.js], of the table
    that [db.js] declares and of [mailer.js], followed by the properties of
    the visit lifecycle, the co-activity query and the notification
    protocol.

    Conventions of the embedding.
    - A JavaScript string is a [string]: one [ascii] per UTF-16 code unit,
      for the code units below 256.
    - A request body is a [jsval], the result of [express.json()].  A
      number is held by the text that [Number.prototype.toString] gives
      for it.
    - A [timestamptz] is a [Z], microseconds since the epoch; [now()] reads
      the clock of the [world].
    - Handlers run in the monad [M]: they thread the [world] (table, clock,
      console) and may throw, as an [await] on a rejected promise does. *)

From stdpp Require Import base gmap strings.
From Stdlib Require Import ZArith List String Ascii Bool Lia Permutation DecimalString DecimalPos.
Import ListNotations.

Open Scope string_scope.
Open Scope list_scope.
Open Scope Z_scope.

(* ================================================================= *)
(** ** JavaScript strings *)

Module JsString.

(** [WhiteSpace] and [LineTerminator] code units below 256: TAB, LF, VT,
    FF, CR, SP and NBSP.  These are what [String.prototype.trim] strips. *)
Definition is_ws (c : ascii) : bool :=
  let n := nat_of_ascii c in
  ((9 <=? n) && (n <=? 13) || (n =? 32) || (n =? 160))%nat.

(** [s.trimStart()] *)
Fixpoint trimStart (s : string) : string :=
  match s with
  | String c r => if is_ws c then trimStart r else s
  | EmptyString => EmptyString
  end.

(** [s.trimEnd()]: a white-space unit goes when all that follows it goes. *)
Fixpoint trimEnd (s : string) : string :=
  match s with
  | String c r =>
      match trimEnd r with
      | EmptyString => if is_ws c then EmptyString else String c EmptyString
      | r' => String c r'
      end
  | EmptyString => EmptyString
  end.

(** [s.trim()] *)
Definition trim (s : string) : string := trimEnd (trimStart s).

(** A string is truthy when it is not empty: [Boolean(s)], [!s], [s || d]. *)
Definition nonempty (s : string) : bool :=
  match s with EmptyString => false | String _ _ => true end.

(** [s.split(sep)] for a one-unit separator.  The result is never empty:
    [''.split(',')] is [['']]. *)
Fixpoint split (sep : ascii) (s : string) : list string :=
  match s with
  | EmptyString => [EmptyString]
  | String c r =>
      if Ascii.eqb c sep then EmptyString :: split sep r
      else match split sep r with
           | piece :: rest => String c piece :: rest
           | [] => [String c EmptyString]
           end
  end.

(** [l.join(sep)] on an array of strings. *)
Fixpoint join (sep : string) (l : list string) : string :=
  match l with
  | [] => EmptyString
  | [x] => x
  | x :: rest => x +:+ sep +:+ join sep rest
  end.

(** ASCII upper-casing: [a]..[z] to [A]..[Z], every other unit unchanged.
    This is SQL [UPPER] under the [C] collation. *)
Definition upper_ascii (c : ascii) : ascii :=
  let n := nat_of_ascii c in
  if ((97 <=? n) && (n <=? 122))%nat then ascii_of_nat (n - 32) else c.

Fixpoint upper (s : string) : string :=
  match s with
  | EmptyString => EmptyString
  | String c r => String (upper_ascii c) (upper r)
  end.

End JsString.
Import JsString.

(* ================================================================= *)
(** ** JavaScript values *)

(** A JavaScript number, held by the text that
    [Number.prototype.toString] gives for it, which is never empty; both
    zeros print as [0].  The handlers only test a number for truth and
    print it, and the driver prints it. *)
Record number : Type := mk_number { first_unit : ascii; other_units : string }.

(** What [express.json()] leaves in [req.body], and what the query-string
    parser leaves in [req.query]; [JUndefined] is what reading a missing
    property gives. *)
#[warnings="-register-all"] Inductive jsval : Type :=
| JUndefined
| JNull
| JBool (b : bool)
| JNum (n : number)
| JStr (s : string)
| JArr (items : list jsval)
| JObj (fields : list (string * jsval)).

(** What a [throw] or a rejected promise carries: [err.code] and
    [err.message]. *)
Record js_error : Type := mk_error { code : option string; message : string }.

Inductive outcome (A : Type) : Type :=
| Returned (a : A)
| Thrown (e : js_error).
Arguments Returned {A} a.
Arguments Thrown {A} e.

Module Js.

(** [n.toString()] *)
Definition number_toString (n : number) : string := String (first_unit n) (other_units n).

(** The number whose text is [text]. *)
Definition number_of (text : string) : number :=
  match text with
  | String c r => mk_number c r
  | EmptyString => mk_number "0" EmptyString
  end.

(** [Boolean(v)]: the test of [if (v)], [!v], [v || d] and [v ? a : b].
    The numbers that are not truthy are the zeros and [NaN]. *)
Definition truthy (v : jsval) : bool :=
  match v with
  | JUndefined | JNull => false
  | JBool b => b
  | JNum n => negb (String.eqb (number_toString n) "0" || String.eqb (number_toString n) "NaN")
  | JStr s => nonempty s
  | JArr _ | JObj _ => true
  end.

(** [k in o] for the members that a parsed object lists. *)
Definition has_member (k : string) (fields : list (string * jsval)) : bool :=
  existsb (fun kv => String.eqb (fst kv) k) fields.

(** Whether [String(v)] returns.  A parsed object prints through
    [Object.prototype.toString] unless it has a member [toString] of its
    own: no value that JSON can hold is callable, and the inherited
    [valueOf] gives the object back, so the conversion ends in a
    [TypeError].  An array prints its elements, [null] and [undefined]
    apart. *)
Fixpoint prints (v : jsval) : bool :=
  match v with
  | JObj fields => negb (has_member "toString" fields)
  | JArr items =>
      forallb (fun e => match e with
                        | JUndefined | JNull => true
                        | _ => prints e
                        end) items
  | _ => true
  end.

(** The text that [String(v)] gives when it returns; a template literal
    and [' - ' + v] give the same text and fail alike.  An array prints
    its elements joined by commas, with [null] and [undefined] elements
    printed as nothing. *)
Fixpoint String_ (v : jsval) : string :=
  match v with
  | JUndefined => "undefined"
  | JNull => "null"
  | JBool true => "true"
  | JBool false => "false"
  | JNum n => number_toString n
  | JStr s => s
  | JArr items =>
      join ","
        (map (fun e => match e with
                       | JUndefined | JNull => EmptyString
                       | _ => String_ e
                       end) items)
  | JObj _ => "[object Object]"
  end.

(** The [TypeError] of a conversion that finds no primitive value. *)
Definition type_error : js_error :=
  mk_error None "Cannot convert object to primitive value".

(** [String(v)], [`${v}`] *)
Definition ToString (v : jsval) : outcome string :=
  if prints v then Returned (String_ v) else Thrown type_error.

(** [typeof v === 'string'] *)
Definition is_string (v : jsval) : bool :=
  match v with JStr _ => true | _ => false end.

(** Property read [o[k]] on a parsed body; anything that is not an object
    has none of the properties the handlers read. *)
Fixpoint assoc (k : string) (fields : list (string * jsval)) : jsval :=
  match fields with
  | [] => JUndefined
  | (k', v) :: rest => if String.eqb k k' then v else assoc k rest
  end.

Definition get (o : jsval) (k : string) : jsval :=
  match o with
  | JObj fields => assoc k fields
  | _ => JUndefined
  end.

(** [v || d] *)
Definition or_else (v d : jsval) : jsval := if truthy v then v else d.

Definition dquote : ascii := ascii_of_nat 34.
Definition backslash : ascii := ascii_of_nat 92.

Definition hex_digit (n : nat) : ascii :=
  nth n (list_ascii_of_string "0123456789abcdef") "0"%char.

(** [JSON.stringify] on a string: the quoted form. *)
Definition json_escape (c : ascii) : string :=
  let n := nat_of_ascii c in
  if (n =? 34)%nat then String backslash (String dquote EmptyString)
  else if (n =? 92)%nat then String backslash (String backslash EmptyString)
  else if (n =? 8)%nat then String backslash "b"
  else if (n =? 9)%nat then String backslash "t"
  else if (n =? 10)%nat then String backslash "n"
  else if (n =? 12)%nat then String backslash "f"
  else if (n =? 13)%nat then String backslash "r"
  else if (n <? 32)%nat then
    String backslash ("u00" +:+ String (hex_digit (n / 16)) (String (hex_digit (n mod 16)) EmptyString))
  else String c EmptyString.

Fixpoint json_escape_all (s : string) : string :=
  match s with
  | EmptyString => EmptyString
  | String c r => json_escape c +:+ json_escape_all r
  end.

Definition json_quote (s : string) : string :=
  String dquote (json_escape_all s +:+ String dquote EmptyString).

(** [JSON.stringify(v)] of a value held in an object or array. *)
Fixpoint JSON_stringify (v : jsval) : string :=
  match v with
  | JUndefined | JNull => "null"
  | JBool true => "true"
  | JBool false => "false"
  | JNum n => number_toString n
  | JStr s => json_quote s
  | JArr items => "[" +:+ join "," (map JSON_stringify items) +:+ "]"
  | JObj fields =>
      "{" +:+ join ","
                ((fix members (l : list (string * jsval)) : list string :=
                    match l with
                    | [] => []
                    | (_, JUndefined) :: rest => members rest
                    | (k, x) :: rest =>
                        (json_quote k +:+ ":" +:+ JSON_stringify x) :: members rest
                    end) fields)
          +:+ "}"
  end.

End Js.

(* ================================================================= *)
(** ** The [pg] driver: query parameters *)

Module Pg.

(** [escapeElement]: an array element is quoted, with backslashes and
    double quotes escaped. *)
Fixpoint escape_units (s : string) : string :=
  match s with
  | EmptyString => EmptyString
  | String c r =>
      if Ascii.eqb c Js.backslash || Ascii.eqb c Js.dquote
      then String Js.backslash (String c (escape_units r))
      else String c (escape_units r)
  end.

Definition escapeElement (s : string) : string :=
  String Js.dquote (escape_units s +:+ String Js.dquote EmptyString).

(** The text [prepareValue] sends for a value that is neither [null] nor
    [undefined]: strings as they are, numbers and booleans through
    [toString], arrays as an array literal ([arrayString]), other objects
    through [JSON.stringify]. *)
Fixpoint text_of (v : jsval) : string :=
  match v with
  | JUndefined | JNull => "NULL"
  | JBool true => "true"
  | JBool false => "false"
  | JNum n => Js.number_toString n
  | JStr s => s
  | JArr items =>
      "{" +:+ join ","
                (map (fun e => match e with
                               | JUndefined | JNull => "NULL"
                               | JArr _ => text_of e
                               | _ => escapeElement (text_of e)
                               end) items)
          +:+ "}"
  | JObj _ => Js.JSON_stringify v
  end.

(** [prepareValue]: [None] is SQL [NULL]. *)
Definition prepareValue (v : jsval) : option string :=
  match v with
  | JUndefined | JNull => None
  | _ => Some (text_of v)
  end.

End Pg.

(* ================================================================= *)
(** ** The [visits] table of [db.js] *)

(** A value of column type [uuid], held by the text the store prints for
    it: 32 lower-case hexadecimal digits in groups of 8-4-4-4-12. *)
Definition uuid := string.

Module Uuid.

Definition is_hex (c : ascii) : bool :=
  let n := nat_of_ascii c in
  ((48 <=? n) && (n <=? 57) || (65 <=? n) && (n <=? 70) || (97 <=? n) && (n <=? 102))%nat.

Definition lower_hex (c : ascii) : ascii :=
  let n := nat_of_ascii c in
  if ((65 <=? n) && (n <=? 70))%nat then ascii_of_nat (n + 32) else c.

(** Reads [todo] bytes, two hexadecimal digits each, the next one being
    byte [i]; a hyphen may follow a byte of odd index other than the last. *)
Fixpoint read_bytes (todo i : nat) (s : string) : option (list ascii * string) :=
  match todo with
  | O => Some ([], s)
  | S todo' =>
      match s with
      | String a (String b r) =>
          if is_hex a && is_hex b then
            let r' :=
              match r with
              | String c r'' =>
                  if Ascii.eqb c "-" && Nat.odd i && (i <? 15)%nat then r'' else r
              | EmptyString => r
              end in
            match read_bytes todo' (S i) r' with
            | Some (ds, rest) => Some (lower_hex a :: lower_hex b :: ds, rest)
            | None => None
            end
          else None
      | _ => None
      end
  end.

Definition print (ds : list ascii) : uuid :=
  let group (from len : nat) := string_of_list_ascii (firstn len (skipn from ds)) in
  group 0%nat 8%nat +:+ "-" +:+ group 8%nat 4%nat +:+ "-" +:+ group 12%nat 4%nat
    +:+ "-" +:+ group 16%nat 4%nat +:+ "-" +:+ group 20%nat 12%nat.

(** The input conversion the store applies to a text parameter compared
    with, or stored into, the [id uuid] column: optional braces, sixteen
    bytes, nothing after.  [None] is the error "invalid input syntax for
    type uuid". *)
Definition parse (s : string) : option uuid :=
  let '(braces, body) :=
    match s with
    | String "{" r => (true, r)
    | _ => (false, s)
    end in
  match read_bytes 16 0 body with
  | Some (ds, rest) =>
      if String.eqb rest (if braces : bool then "}" else EmptyString) then Some (print ds) else None
  | None => None
  end.

End Uuid.

(** A row of [visits]: the columns of [CREATE TABLE] and of the five
    [ALTER TABLE ... ADD COLUMN] of [initDb].  [None] is SQL [NULL]. *)
Module Visit.

Record t : Type := mk {
  id : uuid;
  turbine_id : string;
  technicians : list string;
  reason : option string;
  comment : option string;
  check_in : Z;
  check_out : option Z;
  power_plant : option string;
  equipment_name : option string;
  maintenance_company : option string;
  status : option string;
  malfunction_type : option string
}.

Definition with_check_out (ts : option Z) (v : t) : t :=
  mk (id v) (turbine_id v) (technicians v) (reason v) (comment v) (check_in v) ts
     (power_plant v) (equipment_name v) (maintenance_company v) (status v)
     (malfunction_type v).

(** The nine columns that the site listing selects. *)
Record listed : Type := mk_listed {
  l_id : uuid;
  l_turbine_id : string;
  l_technicians : list string;
  l_reason : option string;
  l_comment : option string;
  l_check_in : Z;
  l_check_out : option Z;
  l_power_plant : option string;
  l_equipment_name : option string
}.

Definition select_listed (v : t) : listed :=
  mk_listed (id v) (turbine_id v) (technicians v) (reason v) (comment v) (check_in v)
            (check_out v) (power_plant v) (equipment_name v).

End Visit.

(** The statements of [server.js], as functions on the table.  [now] is
    the value of [now()] in the statement. *)
Module Sql.

Definition table := list Visit.t.

Definition microseconds_per_day : Z := 86400000000.

(** [DATE(ts AT TIME ZONE 'UTC')], as a day number. *)
Definition utc_date (ts : Z) : Z := ts / microseconds_per_day.

Definition is_null {A : Type} (col : option A) : bool :=
  match col with None => true | Some _ => false end.

(** [col = $n] on a text column: never true when either side is [NULL]. *)
Definition text_eq (col param : option string) : bool :=
  match col, param with
  | Some s, Some p => String.eqb s p
  | _, _ => false
  end.

(** [UPPER(COALESCE(status, 'IN')) = 'IN'] *)
Definition status_in (v : Visit.t) : bool :=
  String.eqb (upper (match Visit.status v with Some s => s | None => "IN" end)) "IN".

(** [check_out IS NULL AND UPPER(COALESCE(status,'IN')) = 'IN'
     AND DATE(check_in AT TIME ZONE 'UTC') = DATE(now() AT TIME ZONE 'UTC')] *)
Definition active_today (now : Z) (v : Visit.t) : bool :=
  is_null (Visit.check_out v) && status_in v
  && (utc_date (Visit.check_in v) =? utc_date now).

(** A text parameter is refused when it holds code unit 0. *)
Fixpoint nul_free (s : string) : bool :=
  match s with
  | EmptyString => true
  | String c r => negb (Ascii.eqb c Ascii.zero) && nul_free r
  end.

Definition invalid_byte_sequence : js_error :=
  mk_error (Some "22021")
    ("invalid byte sequence for encoding " +:+ String Js.dquote "UTF8"
     +:+ String Js.dquote ": 0x00").

(** Binding the text parameters of a statement, [NULL] apart: the
    statement does not run when one of them is refused. *)
Definition bound {A : Type} (params : list (option string)) (statement : outcome A)
    : outcome A :=
  if forallb (fun p => match p with Some s => nul_free s | None => true end) params
  then statement else Thrown invalid_byte_sequence.

Definition invalid_uuid (s : string) : js_error :=
  mk_error (Some "22P02") ("invalid input syntax for type uuid: " +:+ Js.json_quote s).

Definition duplicate_key : js_error :=
  mk_error (Some "23505") "duplicate key value violates unique constraint".

(** Binding a parameter that is compared with, or stored into, the
    [id uuid] column. *)
Definition uuid_param (s : string) : outcome uuid :=
  if nul_free s then
    match Uuid.parse s with
    | Some u => Returned u
    | None => Thrown (invalid_uuid s)
    end
  else Thrown invalid_byte_sequence.

Definition has_id (u : uuid) (tbl : table) : bool :=
  existsb (fun v => String.eqb (Visit.id v) u) tbl.

(** What the btree indexes of [initDb] say of the entries of a new row,
    which hold its [turbine_id], [power_plant] and [equipment_name]: an
    entry that does not fit a third of a page once compressed is refused
    (error 54000).  [None] when the four entries fit. *)
Definition index_check : Type := string -> option string -> option string -> option js_error.

(** [INSERT INTO visits (id, turbine_id, technicians, reason, comment,
    power_plant, equipment_name, maintenance_company, status,
    malfunction_type) VALUES ($1..$10) RETURNING ...]: [check_in] takes its
    default [now()], [check_out] is left [NULL].  The parameters are bound
    in order; [id uuid PRIMARY KEY] refuses a uuid already in the table;
    then come the entries of the other indexes. *)
Definition insert_visit (indexes : index_check) (now : Z) (p_id p_turbine : string)
    (p_techs : list string)
    (p_reason p_comment p_plant p_equipment p_company p_status p_malfunction : option string)
    (tbl : table) : outcome (list Visit.t) * table :=
  match uuid_param p_id with
  | Thrown err => (Thrown err, tbl)
  | Returned u =>
      match bound (Some p_turbine :: map Some p_techs
                   ++ [p_reason; p_comment; p_plant; p_equipment; p_company; p_status;
                       p_malfunction]) (Returned tt) with
      | Thrown err => (Thrown err, tbl)
      | Returned _ =>
          if has_id u tbl then (Thrown duplicate_key, tbl)
          else
            match indexes p_turbine p_plant p_equipment with
            | Some err => (Thrown err, tbl)
            | None =>
                let row := Visit.mk u p_turbine p_techs p_reason p_comment now None
                                    p_plant p_equipment p_company p_status p_malfunction in
                (Returned [row], tbl ++ [row])
            end
      end
  end.

(** [UPDATE visits SET check_out = now() WHERE id = $1 AND check_out IS
    NULL RETURNING id, check_out] *)
Definition closes (u : uuid) (v : Visit.t) : bool :=
  String.eqb (Visit.id v) u && is_null (Visit.check_out v).

Definition update_check_out (now : Z) (p_id : string) (tbl : table)
    : outcome (list Visit.t) * table :=
  match uuid_param p_id with
  | Thrown err => (Thrown err, tbl)
  | Returned u =>
      (Returned (map (Visit.with_check_out (Some now)) (List.filter (closes u) tbl)),
       map (fun v => if closes u v then Visit.with_check_out (Some now) v else v) tbl)
  end.

(** [SELECT COUNT( * )::int AS cnt FROM visits WHERE power_plant = $1 AND
    check_out IS NULL AND id <> $2 AND UPPER(COALESCE(status,'IN')) = 'IN'
    AND DATE(check_in ...) = DATE(now() ...)] *)
Definition other_active_today (now : Z) (plant : option string) (u : uuid) (v : Visit.t)
    : bool :=
  text_eq (Visit.power_plant v) plant && is_null (Visit.check_out v)
  && negb (String.eqb (Visit.id v) u) && status_in v
  && (utc_date (Visit.check_in v) =? utc_date now).

Definition count_others (now : Z) (p_plant : option string) (p_id : string) (tbl : table)
    : outcome nat :=
  bound [p_plant]
    match uuid_param p_id with
    | Thrown err => Thrown err
    | Returned u =>
        Returned (List.length (List.filter (other_active_today now p_plant u) tbl))
    end.

(** [ORDER BY check_in DESC]; rows of equal [check_in] keep table order. *)
Fixpoint insert_desc (v : Visit.t) (sorted : list Visit.t) : list Visit.t :=
  match sorted with
  | [] => [v]
  | x :: rest =>
      if Visit.check_in x <? Visit.check_in v then v :: sorted
      else x :: insert_desc v rest
  end.

Definition order_by_check_in_desc (rows : list Visit.t) : list Visit.t :=
  fold_right insert_desc [] rows.

(** [SELECT id, turbine_id, technicians, reason, comment, check_in,
    check_out, power_plant, equipment_name FROM visits WHERE power_plant =
    $1 AND check_out IS NULL AND UPPER(COALESCE(status,'IN')) = 'IN' AND
    DATE(check_in ...) = DATE(now() ...) ORDER BY check_in DESC] *)
Definition listed_on_site (now : Z) (plant : option string) (v : Visit.t) : bool :=
  text_eq (Visit.power_plant v) plant && active_today now v.

Definition active_site_rows (now : Z) (p_plant : option string) (tbl : table)
    : list Visit.listed :=
  map Visit.select_listed
      (order_by_check_in_desc (List.filter (listed_on_site now p_plant) tbl)).

Definition select_active_site (now : Z) (p_plant : option string) (tbl : table)
    : outcome (list Visit.listed) :=
  bound [p_plant] (Returned (active_site_rows now p_plant tbl)).

(** [SELECT power_plant, equipment_name, turbine_id, technicians FROM
    visits WHERE id = $1] *)
Definition select_by_id (p_id : string) (tbl : table) : outcome (list Visit.t) :=
  match uuid_param p_id with
  | Thrown err => Thrown err
  | Returned u => Returned (List.filter (fun v => String.eqb (Visit.id v) u) tbl)
  end.

End Sql.

(* ================================================================= *)
(** ** The world of a request and the handler monad *)

Inductive log_level : Type := LOG | WARN | ERROR.

(** What is outside a handler: the table, the clock, the time that each
    [await] to come will take, and the console. *)
Record world : Type := mk_world {
  visits : Sql.table;
  clock : Z;
  latency : list N;
  console : list (log_level * string)
}.

Definition M (A : Type) : Type := world -> outcome A * world.

Definition ret {A : Type} (a : A) : M A := fun w => (Returned a, w).

Definition throw {A : Type} (e : js_error) : M A := fun w => (Thrown e, w).

(** An expression that returns or throws, evaluated in a handler. *)
Definition lift {A : Type} (o : outcome A) : M A := fun w => (o, w).

Definition bind {A B : Type} (m : M A) (k : A -> M B) : M B :=
  fun w =>
    match m w with
    | (Returned a, w') => k a w'
    | (Thrown e, w') => (Thrown e, w')
    end.

(** [try { m } catch (e) { handler }] *)
Definition try_catch {A : Type} (m : M A) (handler : js_error -> M A) : M A :=
  fun w =>
    match m w with
    | (Returned a, w') => (Returned a, w')
    | (Thrown e, w') => handler e w'
    end.

Notation "'let*' x ':=' m 'in' k" := (bind m (fun x => k))
  (at level 10, x name, m at level 200, k at level 200, only parsing).

Definition write_console (lvl : log_level) (line : string) : M unit :=
  fun w => (Returned tt, mk_world (visits w) (clock w) (latency w) (console w ++ [(lvl, line)])).

(** Time passes while a promise is pending. *)
Definition elapse (w : world) : world :=
  match latency w with
  | [] => w
  | d :: later => mk_world (visits w) (clock w + Z.of_N d) later (console w)
  end.

(** [await pool.query(...)]: the statement runs at some later time, on the
    table as it then is; its result, or its error, arrives later still. *)
Definition pool_query {A : Type} (stmt : Z -> Sql.table -> outcome A * Sql.table) : M A :=
  fun w =>
    let w1 := elapse w in
    let '(r, tbl) := stmt (clock w1) (visits w1) in
    (r, elapse (mk_world tbl (clock w1) (latency w1) (console w1))).

Definition read_only {A : Type} (q : Z -> Sql.table -> outcome A)
    : Z -> Sql.table -> outcome A * Sql.table :=
  fun now tbl => (q now tbl, tbl).

(* ================================================================= *)
(** ** [mailer.js] *)

Module Mailer.

Record mail : Type := mk_mail { from : string; to : string; subject : string; text : string }.

(** The process environment that the mailer reads, the SMTP transport,
    and the engine under it.  [NOTIFY_MATRIX] is held parsed: [None] when
    [JSON.parse] throws.  [sendMail] answers [Some e] when the transport
    rejects.  [unlisted] is what a member read finds for a key that a
    parsed value does not list: an inherited member such as
    [constructor], an index or the length of an array or of a string, or
    [undefined]; a function is given as a string, its source text, which
    is as true and prints the same. *)
Record config : Type := mk_config {
  NOTIFY_MATRIX : option jsval;
  SMTP_HOST : option string;
  SMTP_FROM : option string;
  sendMail : mail -> option js_error;
  unlisted : jsval -> string -> jsval
}.

(** [JSON.parse] on a text that is not JSON. *)
Definition syntax_error : js_error := mk_error None "Unexpected token in JSON".

(** [matrix[key]] *)
Definition member (cfg : config) (matrix : jsval) (key : string) : jsval :=
  match matrix with
  | JObj fields =>
      if Js.has_member key fields then Js.assoc key fields else unlisted cfg matrix key
  | _ => unlisted cfg matrix key
  end.

Definition addresses (text : string) : list string :=
  List.filter nonempty (map trim (split "," text)).

(** [recipientsForSite]: the member of the matrix that the site names,
    else the member [OTHER]; every failure is caught inside and gives no
    recipient. *)
Definition recipientsForSite (cfg : config) (powerPlant : jsval) : M (list string) :=
  try_catch
    (match NOTIFY_MATRIX cfg with
     | None => throw syntax_error
     | Some JNull | Some JUndefined => throw Js.type_error
     | Some matrix =>
         let* key := lift (Js.ToString powerPlant) in
         let raw := Js.or_else (member cfg matrix key) (member cfg matrix "OTHER") in
         if Js.truthy raw then
           let* text := lift (Js.ToString raw) in
           ret (addresses text)
         else ret []
     end)
    (fun _ => let* _ := write_console WARN "[mail] invalid NOTIFY_MATRIX" in ret []).

(** [sendNotification]: nothing is sent without [SMTP_HOST]; otherwise the
    promise of [transporter.sendMail] is awaited, and may reject. *)
Definition sendNotification (cfg : config) (subject text : string) (toList : list string)
    : M unit :=
  match SMTP_HOST cfg with
  | None | Some EmptyString =>
      write_console LOG "[mail] SMTP not configured, skipping email"
  | Some _ =>
      let from :=
        match SMTP_FROM cfg with
        | None | Some EmptyString => "Wind Tracker <noreply@example.com>"
        | Some f => f
        end in
      fun w =>
        match sendMail cfg (mk_mail from (join ", " toList) subject text) with
        | None => (Returned tt, elapse w)
        | Some e => (Thrown e, elapse w)
        end
  end.

End Mailer.

(* ================================================================= *)
(** ** The handlers of [server.js] *)

Module Server.

(** The JSON documents that the handlers answer with. *)
Inductive reply : Type :=
| error_reply (error : string)
| checkin_reply (visit : option Visit.t) (coActivity : bool)
| checkout_reply (visitId : uuid) (checkOut : option Z)
| active_site_reply (count : nat) (visits : list Visit.listed).

Record response : Type := mk_response { status : nat; body : reply }.

(** [res.status(n).json(b)] *)
Definition json (n : nat) (b : reply) : M response := ret (mk_response n b).

(** What a request draws from outside: the value of [randomUUID()], the
    mailer's configuration and transport, and what the indexes of the
    store say of a new row. *)
Record env : Type := mk_env {
  randomUUID : string;
  mailer : Mailer.config;
  indexes : Sql.index_check
}.

Definition nl : string := String (ascii_of_nat 10) EmptyString.

(** [x || '-'] inside a template literal *)
Definition or_dash (v : jsval) : string := Js.String_ (Js.or_else v (JStr "-")).

(** [const turbine = (typeof turbineId === 'string' && turbineId.trim())
      ? turbineId.trim() : (powerPlant ? `SITE-${powerPlant}` : 'N/A')] *)
Definition turbine (turbineId powerPlant : jsval) : outcome string :=
  let fallback :=
    if Js.truthy powerPlant then
      match Js.ToString powerPlant with
      | Returned site => Returned ("SITE-" +:+ site)
      | Thrown err => Thrown err
      end
    else Returned "N/A" in
  match turbineId with
  | JStr s => if nonempty (trim s) then Returned (trim s) else fallback
  | _ => fallback
  end.

(** [items.map((t) => String(t).trim())] *)
Fixpoint trimmed_texts (items : list jsval) : outcome (list string) :=
  match items with
  | [] => Returned []
  | t :: rest =>
      match Js.ToString t with
      | Thrown err => Thrown err
      | Returned text =>
          match trimmed_texts rest with
          | Thrown err => Thrown err
          | Returned texts => Returned (trim text :: texts)
          end
      end
  end.

(** [techs], before the emptiness test. *)
Definition techs (technicians : jsval) : outcome (list string) :=
  match technicians with
  | JArr items =>
      match trimmed_texts items with
      | Returned texts => Returned (List.filter nonempty texts)
      | Thrown err => Thrown err
      end
  | JStr s => Returned (List.filter nonempty (map trim (split "," s)))
  | _ => Returned []
  end.

(** [new Set(techs)] adds the names one by one, a name already in the set
    being left where it is; [Array.from] lists the set in insertion order. *)
Definition Set_add (set : list string) (x : string) : list string :=
  if existsb (String.eqb x) set then set else set ++ [x].

Definition dedupe (techs : list string) : list string := fold_left Set_add techs [].

(** [v || null], as the driver sends it. *)
Definition or_null (v : jsval) : option string := Pg.prepareValue (Js.or_else v JNull).

(** The mail of a check-in.  Its subject and text are template literals
    over the fields of the body: they throw when one of the values they
    print does not print. *)
Definition checkin_mail (e : env) (powerPlant equipmentName maintenanceCompany reason
    malfunctionType : jsval) (techs : list string) : M unit :=
  if Js.truthy powerPlant then
    let* recipients := Mailer.recipientsForSite (mailer e) powerPlant in
    match recipients with
    | [] => ret tt
    | _ :: _ =>
        let* _ :=
          lift (trimmed_texts [powerPlant; equipmentName; maintenanceCompany; reason;
                               malfunctionType]) in
        let subject :=
          "[IN] " +:+ Js.String_ powerPlant
          +:+ (if Js.truthy equipmentName then " - " +:+ Js.String_ equipmentName else EmptyString) in
        let text :=
          "Check-IN" +:+ nl +:+ "Site: " +:+ Js.String_ powerPlant +:+ nl
          +:+ "Equipment: " +:+ or_dash equipmentName +:+ nl
          +:+ "Techs: " +:+ join ", " techs +:+ nl
          +:+ "Company: " +:+ or_dash maintenanceCompany +:+ nl
          +:+ "Reason: " +:+ or_dash reason +:+ nl
          +:+ "Malfunction: " +:+ or_dash malfunctionType +:+ nl in
        Mailer.sendNotification (mailer e) subject text recipients
    end
  else ret tt.

(** [app.post('/api/visits/checkin', ...)] *)
Definition checkin (e : env) (req_body : jsval) : M response :=
  try_catch
    (let b := Js.or_else req_body (JObj []) in
     let turbineId := Js.get b "turbineId" in
     let technicians := Js.get b "technicians" in
     let reason := Js.get b "reason" in
     let comment := Js.get b "comment" in
     let powerPlant := Js.get b "powerPlant" in
     let equipmentName := Js.get b "equipmentName" in
     let maintenanceCompany := Js.get b "maintenanceCompany" in
     let status := Js.get b "status" in
     let malfunctionType := Js.get b "malfunctionType" in
     let* turbine := lift (turbine turbineId powerPlant) in
     let* techs := lift (techs technicians) in
     match techs with
     | [] => json 400 (error_reply "At least one technician name is required")
     | _ :: _ =>
         let techs := dedupe techs in
         let id := randomUUID e in
         let* rows :=
           pool_query (fun now =>
             Sql.insert_visit (indexes e) now id turbine techs (or_null reason) (or_null comment)
               (or_null powerPlant) (or_null equipmentName) (or_null maintenanceCompany)
               (or_null status) (or_null malfunctionType)) in
         let* coActivity :=
           (if Js.truthy powerPlant then
              let* cnt :=
                pool_query (read_only (fun now =>
                  Sql.count_others now (Pg.prepareValue powerPlant) id)) in
              ret (0 <? cnt)%nat
            else ret false) in
         let* _ :=
           try_catch
             (checkin_mail e powerPlant equipmentName maintenanceCompany reason
                malfunctionType techs)
             (fun err => write_console WARN ("[mail] send failed " +:+ message err)) in
         json 201 (checkin_reply (hd_error rows) coActivity)
     end)
    (fun err =>
       let* _ := write_console ERROR ("[checkin] error " +:+ message err) in
       json 500 (error_reply "Internal server error")).

Definition checkout_mail (e : env) (visitId : string) : M unit :=
  let* ctx := pool_query (read_only (fun _ => Sql.select_by_id visitId)) in
  match ctx with
  | v :: _ =>
      match Visit.power_plant v with
      | Some (String _ _ as plant) =>
          let* recipients := Mailer.recipientsForSite (mailer e) (JStr plant) in
          match recipients with
          | [] => ret tt
          | _ :: _ =>
              let equipment := match Visit.equipment_name v with Some s => s | None => EmptyString end in
              let subject :=
                "[OUT] " +:+ plant
                +:+ (if nonempty equipment then " - " +:+ equipment else EmptyString) in
              let text :=
                "Check-OUT" +:+ nl +:+ "Site: " +:+ plant +:+ nl
                +:+ "Equipment: " +:+ (if nonempty equipment then equipment else "-") +:+ nl
                +:+ "TurbineId: " +:+ Visit.turbine_id v +:+ nl
                +:+ "Techs: " +:+ join ", " (Visit.technicians v) +:+ nl in
              Mailer.sendNotification (mailer e) subject text recipients
          end
      | _ => ret tt
      end
  | [] => ret tt
  end.

(** [app.post('/api/visits/checkout', ...)] *)
Definition checkout (e : env) (req_body : jsval) : M response :=
  try_catch
    (let b := Js.or_else req_body (JObj []) in
     match Js.get b "visitId" with
     | JStr (String _ _ as visitId) =>
         let* rows := pool_query (fun now => Sql.update_check_out now visitId) in
         match rows with
         | [] => json 404 (error_reply "Active visit not found or already checked out")
         | row :: _ =>
             let* _ :=
               try_catch (checkout_mail e visitId)
                 (fun err => write_console WARN ("[mail] send failed " +:+ message err)) in
             json 200 (checkout_reply (Visit.id row) (Visit.check_out row))
         end
     | _ => json 400 (error_reply "visitId is required")
     end)
    (fun err =>
       let* _ := write_console ERROR ("[checkout] error " +:+ message err) in
       json 500 (error_reply "Internal server error")).

(** [app.get('/api/visits/active-site', ...)]; [req_query] is [req.query]. *)
Definition active_site (req_query : jsval) : M response :=
  try_catch
    (match Js.get req_query "powerPlant" with
     | JStr powerPlant =>
         if nonempty (trim powerPlant) then
           let* rows :=
             pool_query (read_only (fun now tbl =>
               Sql.select_active_site now (Some (trim powerPlant)) tbl)) in
           json 200 (active_site_reply (List.length rows) rows)
         else json 400 (error_reply "powerPlant is required")
     | _ => json 400 (error_reply "powerPlant is required")
     end)
    (fun err =>
       let* _ := write_console ERROR ("[active-site] error " +:+ message err) in
       json 500 (error_reply "Internal server error")).

End Server.

(* ================================================================= *)
(** ** The rate guard: [perRouteLimiter] *)

Module RateGuard.

(** [windowMs: 60 * 1000], in milliseconds. *)
Definition windowMs : Z := 60 * 1000.

(** [max: 5] *)
Definition max : nat := 5.

(** [keyGenerator]: [`${ip}|${req.path}`] *)
Definition keyGenerator (ip path : string) : string := ip +:+ "|" +:+ path.

(** [handler]: [res.status(429).json({ error: ... })] *)
Definition handler : Server.response :=
  Server.mk_response 429
    (Server.error_reply "Too many submissions from this IP, please try again later.").

(** Modelled from the spec: the counter that the guard keeps for a key.
    The admission filter itself is the [express-rate-limit] package, which
    [server.js] only configures.  [hits] is the number of requests counted
    in the window of the key; [resetTime] is when the request that opened
    the window, the oldest one counted, ages out of it. *)
Record counter : Type := mk_counter { hits : nat; resetTime : Z }.

(** Modelled from the spec: counting a request of [key] at time [now].  A
    key without a window, or whose oldest counted request has aged out,
    opens a window of [windowMs] with this request as its first; otherwise
    the request is counted in the window that is open. *)
Definition increment (now : Z) (key : string) (store : gmap string counter) : counter :=
  match store !! key with
  | Some c =>
      if resetTime c <=? now then mk_counter 1 (now + windowMs)
      else mk_counter (S (hits c)) (resetTime c)
  | None => mk_counter 1 (now + windowMs)
  end.

(** Modelled from the spec: the request is accepted when it is at most
    the [max]-th one counted in its window. *)
Definition guard (now : Z) (key : string) (store : gmap string counter)
    : bool * gmap string counter :=
  let c := increment now key store in
  ((hits c <=? max)%nat, <[key := c]> store).

(** A route behind the guard: [app.METHOD(path, perRouteLimiter, handler)].
    The guard reads the clock in milliseconds. *)
Definition route (ip path : string) (h : M Server.response)
    (store : gmap string counter) (w : world)
    : (outcome Server.response * world) * gmap string counter :=
  let '(allowed, store') := guard (clock w / 1000) (keyGenerator ip path) store in
  if allowed then (h w, store') else ((Returned handler, w), store').

End RateGuard.

(* ================================================================= *)
(** ** The two lookup routes of [server.js] *)

Module Reads.

(** The seven columns that [GET /api/visits/:id] selects. *)
Record basic : Type := mk_basic {
  b_id : uuid;
  b_turbine_id : string;
  b_technicians : list string;
  b_reason : option string;
  b_comment : option string;
  b_check_in : Z;
  b_check_out : option Z
}.

Definition select_basic (v : Visit.t) : basic :=
  mk_basic (Visit.id v) (Visit.turbine_id v) (Visit.technicians v) (Visit.reason v)
           (Visit.comment v) (Visit.check_in v) (Visit.check_out v).

(** The JSON documents of the two routes: [{ error }], [{ visit }] with
    the seven columns, and [{ visit }] with the nine columns or [null]. *)
Inductive reply : Type :=
| error_reply (error : string)
| visit_reply (visit : basic)
| active_reply (visit : option Visit.listed).

Record response : Type := mk_response { status : nat; body : reply }.

Definition json (n : nat) (b : reply) : M response := ret (mk_response n b).

(** [SELECT ... FROM visits WHERE turbine_id = $1 AND check_out IS NULL
    ORDER BY check_in DESC LIMIT 1] *)
Definition active_on_turbine (turbine : string) (v : Visit.t) : bool :=
  String.eqb (Visit.turbine_id v) turbine && Sql.is_null (Visit.check_out v).

Definition active_rows (p_turbine : string) (tbl : Sql.table) : list Visit.listed :=
  map Visit.select_listed
      (firstn 1 (Sql.order_by_check_in_desc (List.filter (active_on_turbine p_turbine) tbl))).

Definition select_active (p_turbine : string) (tbl : Sql.table)
    : outcome (list Visit.listed) :=
  Sql.bound [Some p_turbine] (Returned (active_rows p_turbine tbl)).

(** [app.get('/api/visits/:id', ...)]; [id] is [req.params.id]. *)
Definition visit_by_id (id : string) : M response :=
  try_catch
    (let* rows := pool_query (read_only (fun _ => Sql.select_by_id id)) in
     match rows with
     | [] => json 404 (error_reply "Not found")
     | row :: _ => json 200 (visit_reply (select_basic row))
     end)
    (fun err =>
       let* _ := write_console ERROR ("[get visit] error " +:+ message err) in
       json 500 (error_reply "Internal server error")).

(** [app.get('/api/visits/active', ...)]; [req_query] is [req.query]. *)
Definition active_visit (req_query : jsval) : M response :=
  try_catch
    (match Js.get req_query "turbineId" with
     | JStr turbineId =>
         if nonempty (trim turbineId) then
           let* rows :=
             pool_query (read_only (fun _ tbl => select_active (trim turbineId) tbl)) in
           match rows with
           | [] => json 200 (active_reply None)
           | row :: _ => json 200 (active_reply (Some row))
           end
         else json 400 (error_reply "turbineId is required")
     | _ => json 400 (error_reply "turbineId is required")
     end)
    (fun err =>
       let* _ := write_console ERROR ("[active visit] error " +:+ message err) in
       json 500 (error_reply "Internal server error")).

End Reads.

(* ================================================================= *)
(** ** The routes of [server.js], in the order of their registration *)

Module Router.

Inductive method : Type := GET | POST.

Inductive route : Type :=
| Health | ActiveSite | CheckIn | CheckOut | VisitById | ActiveVisit.

(** A segment of a route path: a literal, or a parameter such as [:id]. *)
Inductive segment : Type :=
| Lit (s : string)
| Param (name : string).

Definition api (last : segment) : list segment := [Lit "api"; Lit "visits"; last].

(** [app.get('/health')], [app.get('/api/visits/active-site')],
    [app.post('/api/visits/checkin')], [app.post('/api/visits/checkout')],
    [app.get('/api/visits/:id')], [app.get('/api/visits/active')]. *)
Definition routes : list (method * list segment * route) :=
  [ (GET, [Lit "health"], Health);
    (GET, api (Lit "active-site"), ActiveSite);
    (POST, api (Lit "checkin"), CheckIn);
    (POST, api (Lit "checkout"), CheckOut);
    (GET, api (Param "id"), VisitById);
    (GET, api (Lit "active"), ActiveVisit) ].

Definition method_eqb (a b : method) : bool :=
  match a, b with
  | GET, GET | POST, POST => true
  | _, _ => false
  end.

(** The segments of a request path: the pieces between slashes, after the
    leading slash; one trailing slash is allowed (routing is not strict). *)
Definition segments (path : string) : option (list string) :=
  match split "/" path with
  | EmptyString :: pieces =>
      match rev pieces with
      | EmptyString :: ((_ :: _) as init) => Some (rev init)
      | _ => Some pieces
      end
  | _ => None
  end.

(** A literal matches whatever the letter case (routing is not case
    sensitive); a parameter matches a segment that is not empty and takes
    it as its value.  Percent-escapes are left as they are. *)
Fixpoint match_path (pattern : list segment) (path : list string)
    : option (list (string * string)) :=
  match pattern, path with
  | [], [] => Some []
  | Lit s :: pattern', x :: path' =>
      if String.eqb (upper s) (upper x) then match_path pattern' path' else None
  | Param name :: pattern', x :: path' =>
      if nonempty x then
        match match_path pattern' path' with
        | Some params => Some ((name, x) :: params)
        | None => None
        end
      else None
  | _, _ => None
  end.

(** The first registered route of that method whose path matches answers
    the request: every handler of [server.js] ends the response. *)
Fixpoint first_match (rs : list (method * list segment * route)) (m : method)
    (path : list string) : option (route * list (string * string)) :=
  match rs with
  | [] => None
  | (m', pattern, r) :: rest =>
      if method_eqb m m' then
        match match_path pattern path with
        | Some params => Some (r, params)
        | None => first_match rest m path
        end
      else first_match rest m path
  end.

Definition dispatch (m : method) (path : string) : option (route * list (string * string)) :=
  match segments path with
  | Some segs => first_match routes m segs
  | None => None
  end.

End Router.

(* ================================================================= *)
(** ** Configuration read at start-up, and [getClientIp] *)

Module Config.

(** [s.split(',').map((x) => x.trim()).filter(Boolean)] *)
Definition comma_list (s : string) : list string :=
  List.filter nonempty (map trim (split "," s)).

(** [const corsOrigins = process.env.CORS_ORIGIN ? ... : null] *)
Definition corsOrigins (CORS_ORIGIN : option string) : option (list string) :=
  match CORS_ORIGIN with
  | Some (String _ _ as s) => Some (comma_list s)
  | _ => None
  end.

(** What [app.use(cors(...))] is given: a list of origins, or nothing,
    which allows every origin. *)
Inductive cors_options : Type :=
| allow_all
| allow_origins (origin : list string).

(** [if (corsOrigins && corsOrigins.length) app.use(cors({ origin:
    corsOrigins })) else app.use(cors())] *)
Definition cors_setup (CORS_ORIGIN : option string) : cors_options :=
  match corsOrigins CORS_ORIGIN with
  | Some ((_ :: _) as origins) => allow_origins origins
  | _ => allow_all
  end.







End Config.

(* ================================================================= *)
(** ** The migrations of [db.js] *)

Module Db.

Inductive sql_type : Type := t_uuid | t_text | t_text_array | t_timestamptz.

(** A column definition: its name, its type, [NOT NULL], [DEFAULT now()]
    and [PRIMARY KEY]. *)
Record column : Type := mk_column {
  column_name : string;
  column_type : sql_type;
  not_null : bool;
  default_now : bool;
  primary_key : bool
}.

(** Tables and indexes share the names of a schema.  The index that backs
    a primary key is kept with its table. *)
Inductive relation : Type :=
| table (columns : list column)
| index (on : string) (keys : list string).

Definition has_column (name : string) (columns : list column) : bool :=
  existsb (fun c => String.eqb (column_name c) name) columns.

(** [CREATE TABLE IF NOT EXISTS name (columns)]: a relation of that name,
    of whatever kind, makes the statement do nothing. *)
Definition create_table_if_not_exists (name : string) (columns : list column)
    (c : gmap string relation)
    : option (gmap string relation) :=
  match c !! name with
  | Some _ => Some c
  | None => Some (<[name := table columns]> c)
  end.

(** [ALTER TABLE name ADD COLUMN IF NOT EXISTS col]: the table must be
    there; [None] is the error of the statement. *)
Definition add_column_if_not_exists (name : string) (col : column) (c : gmap string relation)
    : option (gmap string relation) :=
  match c !! name with
  | Some (table columns) =>
      if has_column (column_name col) columns then Some c
      else Some (<[name := table (columns ++ [col])]> c)
  | _ => None
  end.

(** [CREATE INDEX IF NOT EXISTS name ON tbl(keys)]: the table and the key
    columns are resolved first, then a relation that has the name makes
    the statement do nothing. *)
Definition create_index_if_not_exists (name tbl : string) (keys : list string)
    (c : gmap string relation)
    : option (gmap string relation) :=
  match c !! tbl with
  | Some (table columns) =>
      if forallb (fun k => has_column k columns) keys then
        match c !! name with
        | Some _ => Some c
        | None => Some (<[name := index tbl keys]> c)
        end
      else None
  | _ => None
  end.

Definition text_column (name : string) : column := mk_column name t_text false false false.

(** The columns of [CREATE TABLE IF NOT EXISTS visits]. *)
Definition visits_columns : list column :=
  [ mk_column "id" t_uuid true false true;
    mk_column "turbine_id" t_text true false false;
    mk_column "technicians" t_text_array true false false;
    text_column "reason";
    text_column "comment";
    mk_column "check_in" t_timestamptz true true false;
    mk_column "check_out" t_timestamptz false false false ].

(** [await] in sequence: the first error ends the function. *)
Fixpoint run (statements : list (gmap string relation -> option (gmap string relation)))
    (c : gmap string relation) : option (gmap string relation) :=
  match statements with
  | [] => Some c
  | statement :: rest =>
      match statement c with
      | Some c' => run rest c'
      | None => None
      end
  end.

(** The ten statements of [initDb], in order. *)
Definition migrations : list (gmap string relation -> option (gmap string relation)) :=
  [ create_table_if_not_exists "visits" visits_columns;
    add_column_if_not_exists "visits" (text_column "power_plant");
    add_column_if_not_exists "visits" (text_column "equipment_name");
    add_column_if_not_exists "visits" (text_column "maintenance_company");
    add_column_if_not_exists "visits" (text_column "status");
    add_column_if_not_exists "visits" (text_column "malfunction_type");
    create_index_if_not_exists "idx_visits_turbine" "visits" ["turbine_id"];
    create_index_if_not_exists "idx_visits_active" "visits" ["turbine_id"; "check_out"];
    create_index_if_not_exists "idx_visits_powerplant_active" "visits"
      ["power_plant"; "check_out"];
    create_index_if_not_exists "idx_visits_equipment_active" "visits"
      ["power_plant"; "equipment_name"; "check_out"] ].

(** [initDb()]: the catalog it leaves and the line it logs, or [None]
    when a statement fails and the promise is rejected. *)
Definition initDb (c : gmap string relation)
    : option (gmap string relation * list (log_level * string)) :=
  match run migrations c with
  | Some c' => Some (c', [(LOG, "[DB] migrations ensured")])
  | None => None
  end.

(** The columns that the statements of [server.js] name: those of the
    [INSERT] of a check-in and of its [RETURNING]. *)
Definition handler_columns : list string :=
  [ "id"; "turbine_id"; "technicians"; "reason"; "comment"; "check_in"; "check_out";
    "power_plant"; "equipment_name"; "maintenance_company"; "status"; "malfunction_type" ].

End Db.

(* ================================================================= *)
(** ** The form of the front end: [visit-form.component.ts] *)

Module Form.

(** The values of one group of the [technicians] form array. *)
Record technician : Type := mk_technician { name : string; number : string }.

(** The values of the other controls of the form. *)
Record values : Type := mk_values {
  powerPlant : string;
  equipmentName : string;
  maintenanceCompany : string;
  status : string;
  malfunctionType : string;
  reason : string;
  comment : string
}.

(** What [onCheckIn] makes of one group: the name, followed by the number
    between parentheses when there is one; nothing without a name. *)
Definition entry (group : technician) : string :=
  let name := trim (name group) in
  let number := trim (number group) in
  if nonempty name then
    if nonempty number then name +:+ " (" +:+ number +:+ ")" else name
  else EmptyString.

(** [const technicians = this.techniciansFA.controls.map(...).filter(...)] *)
Definition technicians (controls : list technician) : list string :=
  List.filter (fun s => (0 <? String.length s)%nat) (map entry controls).

(** [value || undefined] *)
Definition or_undefined (value : string) : jsval :=
  if nonempty value then JStr value else JUndefined.

(** The object handed to [api.checkIn]. *)
Definition payload (f : values) (technicians : list string) : jsval :=
  JObj [ ("technicians", JArr (map JStr technicians));
         ("reason", or_undefined (reason f));
         ("comment", or_undefined (comment f));
         ("powerPlant", or_undefined (powerPlant f));
         ("equipmentName", or_undefined (equipmentName f));
         ("maintenanceCompany", or_undefined (maintenanceCompany f));
         ("status", or_undefined (status f));
         ("malfunctionType", or_undefined (malfunctionType f)) ].

(** The body that [express.json()] reads from the JSON text that
    [HttpClient.post] makes of such an object: a member that is
    [undefined] is not in the text. *)
Definition received (o : jsval) : jsval :=
  match o with
  | JObj fields =>
      JObj (List.filter (fun kv => match snd kv with JUndefined => false | _ => true end)
                        fields)
  | _ => o
  end.

(** The state of the client-side limiter: the times of the recent
    attempts, the end of the lock, the seconds shown, and the end that the
    running countdown timer counts to.  Times are epoch milliseconds. *)
Record limiter : Type := mk_limiter {
  submitAttemptTimes : list Z;
  submitLockedUntil : option Z;
  countdownSeconds : Z;
  countdownTimer : option Z
}.

Definition windowMs : Z := 60000.

(** [isSubmitLocked()], [now] being [Date.now()]. *)
Definition isSubmitLocked (now : Z) (l : limiter) : bool :=
  match submitLockedUntil l with
  | Some until => now <? until
  | None => false
  end.

(** [Math.ceil(ms / 1000)] for [ms >= 0]. *)
Definition ceil_seconds (ms : Z) : Z := (ms + 999) / 1000.

(** [tick], the function that the countdown timer runs; [end_] is the
    [end] it closes over. *)
Definition tick (now end_ : Z) (l : limiter) : limiter :=
  let remainingMs := Z.max 0 (end_ - now) in
  if remainingMs <=? 0 then mk_limiter [] None 0 None
  else mk_limiter (submitAttemptTimes l) (submitLockedUntil l) (ceil_seconds remainingMs)
                  (countdownTimer l).

(** [startCountdown(initialMs)]: the prior timer is cleared, [tick] runs
    once, and a timer is set that runs it again every 500 ms. *)
Definition startCountdown (now initialMs : Z) (l : limiter) : limiter :=
  let end_ := now + initialMs in
  let l := tick now end_ (mk_limiter (submitAttemptTimes l) (submitLockedUntil l)
                                     (countdownSeconds l) None) in
  mk_limiter (submitAttemptTimes l) (submitLockedUntil l) (countdownSeconds l) (Some end_).

(** [recordSubmitAttempt()].  One call reads one time: [Date.now()] gives
    [now] throughout. *)
Definition recordSubmitAttempt (now : Z) (l : limiter) : limiter :=
  let times := List.filter (fun t => now - t <? windowMs) (submitAttemptTimes l) ++ [now] in
  let l := mk_limiter times (submitLockedUntil l) (countdownSeconds l) (countdownTimer l) in
  if (5 <=? List.length times)%nat && negb (isSubmitLocked now l) then
    let first := hd now times in
    let lockMs := Z.max 0 (windowMs - (now - first)) in
    startCountdown now lockMs
      (mk_limiter times (Some (now + lockMs)) (countdownSeconds l) (countdownTimer l))
  else l.

(** [`${secs}`]: a whole number below 10^21 prints as its decimal digits,
    and the seconds of a countdown are at most a few tens. *)
Definition seconds_text (secs : Z) : string := NilEmpty.string_of_int (Z.to_int secs).

(** What a click on the check-in button ends in. *)
Inductive submission : Type :=
| refused (error : option string)
| posted (body : jsval).

(** [onCheckIn()], up to the call of [api.checkIn]; [invalid] is
    [this.form.invalid]. *)
Definition onCheckIn (now : Z) (invalid : bool) (f : values) (controls : list technician)
    (l : limiter) : submission * limiter :=
  if isSubmitLocked now l then
    (refused (Some ("Please wait " +:+ seconds_text (countdownSeconds l)
                    +:+ "s before submitting again.")), l)
  else if invalid then (refused None, l)
  else
    match technicians controls with
    | [] => (refused (Some "Please provide at least one technician name"), l)
    | (_ :: _) as technicians => (posted (payload f technicians), recordSubmitAttempt now l)
    end.

End Form.
(* ================================================================= *)
(** * Vocabulary of the properties *)

Module Spec.

Import Server.

(** The last unit of a string. *)
Fixpoint last_unit (s : string) : option ascii :=
  match s with
  | EmptyString => None
  | String c EmptyString => Some c
  | String _ r => last_unit r
  end.

Fixpoint all_ws (s : string) : bool :=
  match s with
  | EmptyString => true
  | String c r => is_ws c && all_ws r
  end.

(** The texts that [UPPER] sends to ['IN']. *)
Definition reads_IN (s : string) : Prop :=
  s = "IN" \/ s = "In" \/ s = "iN" \/ s = "in".


Definition mem (x : string) (l : list string) : bool := existsb (String.eqb x) l.

(** Rows from the latest [check_in] to the earliest. *)
Inductive descending : list Visit.t -> Prop :=
| desc_nil : descending []
| desc_one v : descending [v]
| desc_cons v x l :
    Visit.check_in x <= Visit.check_in v -> descending (x :: l) -> descending (v :: x :: l).

(** [w'] is [w] some time later, with the same table. *)
Definition later (w w' : world) : Prop :=
  visits w' = visits w /\ clock w <= clock w'.

(** A computation that returns, and leaves the table as it was. *)
Definition quiet {A : Type} (m : M A) : Prop :=
  forall w, exists a w', m w = (Returned a, w') /\ later w w'.

(** A computation that leaves the table as it was, whether it returns or
    throws. *)
Definition harmless {A : Type} (m : M A) : Prop :=
  forall w, exists r w', m w = (r, w') /\ later w w'.

(** The value of [turbine], when the expression returns. *)
Definition turbine_of (turbineId powerPlant : jsval) : string :=
  let fallback :=
    if Js.truthy powerPlant then "SITE-" +:+ Js.String_ powerPlant else "N/A" in
  match turbineId with
  | JStr s => if nonempty (trim s) then trim s else fallback
  | _ => fallback
  end.

(** The value of [techs] before the emptiness test, when the expression
    returns. *)
Definition techs_of (technicians : jsval) : list string :=
  match technicians with
  | JArr items => List.filter nonempty (map (fun t => trim (Js.String_ t)) items)
  | JStr s => List.filter nonempty (map trim (split "," s))
  | _ => []
  end.

(** The row that a check-in with body [b] hands to [INSERT], for the uuid
    [u] and the time [now] of the statement. *)
Definition inserted_row (u : uuid) (now : Z) (b : jsval) : Visit.t :=
  Visit.mk u
    (turbine_of (Js.get b "turbineId") (Js.get b "powerPlant"))
    (dedupe (techs_of (Js.get b "technicians")))
    (or_null (Js.get b "reason")) (or_null (Js.get b "comment"))
    now None
    (or_null (Js.get b "powerPlant")) (or_null (Js.get b "equipmentName"))
    (or_null (Js.get b "maintenanceCompany")) (or_null (Js.get b "status"))
    (or_null (Js.get b "malfunctionType")).

(** The placeholder is made: [turbineId] is absent, not a string, or
    white space only. *)
Definition needs_placeholder (turbineId : jsval) : bool :=
  match turbineId with
  | JStr s => negb (nonempty (trim s))
  | _ => true
  end.

(** The check-in evaluates [turbine] and [techs]: the power plant prints
    if the placeholder is made of it, and so does every element of a
    [technicians] array. *)
Definition evaluates (b : jsval) : bool :=
  (negb (needs_placeholder (Js.get b "turbineId") && Js.truthy (Js.get b "powerPlant"))
   || Js.prints (Js.get b "powerPlant"))
  && match Js.get b "technicians" with
     | JArr items => forallb Js.prints items
     | _ => true
     end.

(** The texts of a row, as the [INSERT] binds them. *)
Definition texts (row : Visit.t) : list (option string) :=
  Some (Visit.turbine_id row) :: map Some (Visit.technicians row)
  ++ [Visit.reason row; Visit.comment row; Visit.power_plant row; Visit.equipment_name row;
      Visit.maintenance_company row; Visit.status row; Visit.malfunction_type row].

Definition no_nul (text : option string) : bool :=
  match text with
  | Some s => Sql.nul_free s
  | None => true
  end.

(** The store takes the row: no text of it holds code unit 0, and its
    index entries fit. *)
Definition storable (e : env) (row : Visit.t) : bool :=
  forallb no_nul (texts row)
  && match indexes e (Visit.turbine_id row) (Visit.power_plant row)
             (Visit.equipment_name row) with
     | None => true
     | Some _ => false
     end.

(** The check-in with body [b] goes through, and creates the visit of id
    [u]: its texts evaluate, there is a technician, the generated id is a
    uuid that no row has, and the store takes the row. *)
Definition accepted (e : env) (b : jsval) (w : world) (u : uuid) : Prop :=
  evaluates b = true
  /\ techs_of (Js.get b "technicians") <> []
  /\ Uuid.parse (randomUUID e) = Some u
  /\ Sql.has_id u (visits w) = false
  /\ storable e (inserted_row u 0 b) = true.

(** The table once [INSERT] has run. *)
Definition after_insert (w : world) (row : Visit.t) : world :=
  elapse (mk_world (visits w ++ [row]) (clock (elapse w)) (latency (elapse w))
                   (console (elapse w))).

(** The co-activity flag, for a count taken at time [t] on table [tbl]. *)
Definition co_activity (t : Z) (powerPlant : jsval) (u : uuid) (tbl : Sql.table) : bool :=
  Js.truthy powerPlant
  && (0 <? List.length
             (List.filter (Sql.other_active_today t (Pg.prepareValue powerPlant) u) tbl))%nat.

(** A [turbineId] that is absent, not a string, or white space only. *)
Definition blank_turbineId (v : jsval) : Prop :=
  match v with
  | JStr s => all_ws s = true
  | _ => True
  end.

(** The optional fields of a check-in body and the columns they go to. *)
Definition optional_columns : list (string * (Visit.t -> option string)) :=
  [("reason", Visit.reason); ("comment", Visit.comment);
   ("powerPlant", Visit.power_plant); ("equipmentName", Visit.equipment_name);
   ("maintenanceCompany", Visit.maintenance_company); ("status", Visit.status);
   ("malfunctionType", Visit.malfunction_type)].

(** A field that is absent or was supplied as the empty string. *)
Definition absent_or_empty (v : jsval) : Prop := v = JUndefined \/ v = JStr EmptyString.

(** No optional column of the row holds the empty string. *)
Definition no_empty_text (v : Visit.t) : Prop :=
  forall f col, In (f, col) optional_columns -> col v <> Some EmptyString.

(** A string made of commas and white space only. *)
Fixpoint only_separators (s : string) : bool :=
  match s with
  | EmptyString => true
  | String c r => (Ascii.eqb c "," || is_ws c) && only_separators r
  end.

(** The tables that the three handlers produce from the empty table. *)
Inductive reachable : Sql.table -> Prop :=
| reach_empty : reachable []
| reach_checkin e b w : reachable (visits w) -> reachable (visits (snd (checkin e b w)))
| reach_checkout e b w : reachable (visits w) -> reachable (visits (snd (checkout e b w)))
| reach_active_site q w : reachable (visits w) -> reachable (visits (snd (active_site q w))).

(** The validation message as the specification quotes it. *)
Definition quoted_validation_message : string := "at least one technician name is required".

(** A status that counts as IN for the co-activity queries: [NULL], which
    [COALESCE] reads as ['IN'], or a text that [UPPER] sends to ['IN']. *)
Definition counts_as_IN (status : option string) : Prop :=
  status = None \/ exists s, status = Some s /\ reads_IN s.

(** [v] is a visit other than [row], of the same power plant, active, IN,
    checked in on the UTC day of [now]. *)
Definition other_active (now : Z) (row v : Visit.t) : Prop :=
  Visit.id v <> Visit.id row
  /\ (exists p, Visit.power_plant row = Some p /\ Visit.power_plant v = Some p)
  /\ Visit.check_out v = None
  /\ counts_as_IN (Visit.status v)
  /\ Sql.utc_date (Visit.check_in v) = Sql.utc_date now.

(** The same with the status condition as the specification words it for
    the check-in flag: the status is the text [IN]. *)
Definition other_active_as_stated (now : Z) (row v : Visit.t) : Prop :=
  Visit.id v <> Visit.id row
  /\ (exists p, Visit.power_plant row = Some p /\ Visit.power_plant v = Some p)
  /\ Visit.check_out v = None
  /\ Visit.status v = Some "IN"
  /\ Sql.utc_date (Visit.check_in v) = Sql.utc_date now.

(** [v] is a visit of power plant [plant], active, IN, checked in on the
    UTC day of [now]. *)
Definition on_site (now : Z) (plant : string) (v : Visit.t) : Prop :=
  Visit.power_plant v = Some plant
  /\ Visit.check_out v = None
  /\ counts_as_IN (Visit.status v)
  /\ Sql.utc_date (Visit.check_in v) = Sql.utc_date now.


(** The mail block of a check-in: the [try] with its [catch]. *)
Definition checkin_mail_block (e : env) (b : jsval) : M unit :=
  try_catch
    (checkin_mail e (Js.get b "powerPlant") (Js.get b "equipmentName")
       (Js.get b "maintenanceCompany") (Js.get b "reason") (Js.get b "malfunctionType")
       (dedupe (techs_of (Js.get b "technicians"))))
    (fun err => write_console WARN ("[mail] send failed " +:+ message err)).

(** The values that the mail of a check-in prints do print. *)
Definition mail_prints (b : jsval) : bool :=
  forallb Js.prints
    [Js.get b "powerPlant"; Js.get b "equipmentName"; Js.get b "maintenanceCompany";
     Js.get b "reason"; Js.get b "malfunctionType"].

(** The world when the mail block of a check-in starts: after the
    [INSERT], and after the count query when there is a power plant. *)
Definition after_queries (w : world) (row : Visit.t) (b : jsval) : world :=
  if Js.truthy (Js.get b "powerPlant") then elapse (elapse (after_insert w row))
  else after_insert w row.

(** The mail block of a check-out. *)
Definition checkout_mail_block (e : env) (visitId : string) : M unit :=
  try_catch (checkout_mail e visitId)
    (fun err => write_console WARN ("[mail] send failed " +:+ message err)).

(** [UPDATE ... SET check_out = t WHERE id = u AND check_out IS NULL], on
    one row. *)
Definition close_at (u : uuid) (t : Z) (v : Visit.t) : Visit.t :=
  if Sql.closes u v then Visit.with_check_out (Some t) v else v.

(** The world once [UPDATE] has run. *)
Definition after_update (w : world) (u : uuid) : world :=
  elapse (mk_world (map (close_at u (clock (elapse w))) (visits w)) (clock (elapse w))
                   (latency (elapse w)) (console (elapse w))).

(** The recipients that [recipientsForSite] finds for a site. *)
Definition recipients (cfg : Mailer.config) (powerPlant : jsval) : list string :=
  match Mailer.NOTIFY_MATRIX cfg with
  | None | Some JNull | Some JUndefined => []
  | Some matrix =>
      if Js.prints powerPlant then
        let raw := Js.or_else (Mailer.member cfg matrix (Js.String_ powerPlant))
                              (Mailer.member cfg matrix "OTHER") in
        if Js.truthy raw && Js.prints raw then Mailer.addresses (Js.String_ raw) else []
      else []
  end.

(** The transport is configured and rejects every message with [err]. *)
Definition delivery_fails (cfg : Mailer.config) (err : js_error) : Prop :=
  (exists c h, Mailer.SMTP_HOST cfg = Some (String c h))
  /\ forall m, Mailer.sendMail cfg m = Some err.

(** The world after a mail block whose delivery failed: time has passed
    and the console has one more line. *)
Definition warned (w : world) (err : js_error) : world :=
  mk_world (visits (elapse w)) (clock (elapse w)) (latency (elapse w))
           (console (elapse w) ++ [(WARN, "[mail] send failed " +:+ message err)]).

(** The string holds no vertical bar. *)
Fixpoint no_bar (s : string) : bool :=
  match s with
  | EmptyString => true
  | String c r => negb (Ascii.eqb c "|") && no_bar r
  end.

(** A request that arrives at a route behind the guard: the world at its
    arrival, the address and the path that key it, and the handler of the
    route. *)
Record arrival : Type := mk_arrival {
  at_world : world;
  from_ip : string;
  on_path : string;
  handler_of : M response
}.

(** The time at which the guard counts the request, in milliseconds. *)
Definition arrival_ms (a : arrival) : Z := clock (at_world a) / 1000.

Definition is_from (ip path : string) (a : arrival) : bool :=
  String.eqb (from_ip a) ip && String.eqb (on_path a) path.

(** The requests go through their routes one after the other: the
    answers, each with the world it leaves, and the counters at the end. *)
Fixpoint serve (store : gmap string RateGuard.counter) (requests : list arrival)
    : list (outcome response * world) * gmap string RateGuard.counter :=
  match requests with
  | [] => ([], store)
  | a :: later =>
      let '(answer, store1) :=
        RateGuard.route (from_ip a) (on_path a) (handler_of a) store (at_world a) in
      let '(answers, store2) := serve store1 later in
      (answer :: answers, store2)
  end.

(** The answers to the requests of one address on one path, in order. *)
Fixpoint answers_to (ip path : string) (requests : list arrival)
    (answers : list (outcome response * world)) : list (outcome response * world) :=
  match requests, answers with
  | a :: later, x :: xs =>
      if is_from ip path a then x :: answers_to ip path later xs
      else answers_to ip path later xs
  | _, _ => []
  end.

(** What the requests of one window are to get, the first being the
    [from]-th counted: its handler runs for a request counted among the
    first [max]; the others get the answer 429 and their world is as it
    was. *)
Fixpoint expected (from : nat) (requests : list arrival) : list (outcome response * world) :=
  match requests with
  | [] => []
  | a :: later =>
      (if (from <? RateGuard.max)%nat then handler_of a (at_world a)
       else (Returned RateGuard.handler, at_world a))
      :: expected (S from) later
  end.

(** [key] has no window at [now]: none was opened, or it is over. *)
Definition no_window (key : string) (now : Z) (store : gmap string RateGuard.counter) : Prop :=
  match store !! key with
  | Some c => RateGuard.resetTime c <= now
  | None => True
  end.

End Spec.
Import Spec.

(** ** Sample requests *)

Module Sample.

Import Server.

(** An engine, for the members that every object inherits: the functions
    print as native functions do, [__proto__] is an object. *)
Definition inherited (matrix : jsval) (key : string) : jsval :=
  if String.eqb key "constructor" then JStr "function Object() { [native code] }"
  else if existsb (String.eqb key)
            ["toString"; "toLocaleString"; "valueOf"; "hasOwnProperty"; "isPrototypeOf";
             "propertyIsEnumerable"]
  then JStr ("function " +:+ key +:+ "() { [native code] }")
  else if String.eqb key "__proto__" then JObj []
  else JUndefined.

(** A transport that rejects every message. *)
Definition failing_mailer : Mailer.config :=
  Mailer.mk_config (Some (JObj [("OTHER", JStr "ops@example.org")])) (Some "smtp.example.org")
    None (fun _ => Some (mk_error None "connect ECONNREFUSED")) inherited.

(** A transport that accepts every message. *)
Definition working_mailer : Mailer.config :=
  Mailer.mk_config (Some (JObj [("OTHER", JStr "ops@example.org")])) (Some "smtp.example.org")
    None (fun _ => None) inherited.

(** Indexes that take the entries of a row whose three texts have a
    thousand units together, as every btree does, and no other. *)
Definition small_rows : Sql.index_check :=
  fun turbine plant equipment =>
    let units (text : option string) :=
      match text with Some s => String.length s | None => 0%nat end in
    if (String.length turbine + units plant + units equipment <=? 1000)%nat then None
    else Some (mk_error (Some "54000") "index row size exceeds btree version 4 maximum 2704").

Definition uuid1 : string := "123e4567-e89b-12d3-a456-426614174000".
Definition uuid2 : string := "9b2f0c1e-7a64-4d0b-8f3a-5c6d7e8f9a0b".

Definition env1 : env := mk_env uuid1 failing_mailer small_rows.
Definition env2 : env := mk_env uuid2 failing_mailer small_rows.

(** An empty table at noon of day 20000, each [await] taking some time. *)
Definition noon : Z := 20000 * Sql.microseconds_per_day + 43200000000.

Definition world0 : world := mk_world [] noon [1500; 700; 900; 1200; 800; 600]%N [].

(** The body of the technician example of the specification. *)
Definition alice_bob : jsval :=
  JObj [("technicians", JArr [JStr "Alice"; JStr "Alice"; JStr " Bob "]);
        ("powerPlant", JStr "SiteA");
        ("reason", JStr EmptyString)].


(** A power plant that does not print, with and without a technician. *)
Definition mute_plant : jsval := JObj [("toString", JNum (Js.number_of "0"))].

Definition alice_at_mute_plant : jsval :=
  JObj [("technicians", JArr [JStr "Alice"]); ("powerPlant", mute_plant)].

Definition nobody_at_mute_plant : jsval := JObj [("powerPlant", mute_plant)].

(** The answer of a handler that has returned one. *)
Definition answer_of (run : outcome response * world) : response :=
  match fst run with
  | Returned r => r
  | Thrown _ => mk_response 0 (error_reply EmptyString)
  end.

(** The answer to that check-in and the world after it; then to the same
    body with another generated id. *)
Definition reply1 : response := answer_of (checkin env1 alice_bob world0).
Definition world1 : world := snd (checkin env1 alice_bob world0).
Definition reply2 : response := answer_of (checkin env2 alice_bob world1).
Definition world2 : world := snd (checkin env2 alice_bob world1).

(** A query string [?powerPlant=...]. *)
Definition site_query (powerPlant : string) : jsval := JObj [("powerPlant", JStr powerPlant)].

End Sample.


(* ================================================================= *)
(** * Vocabulary of the further properties *)

Module Spec2.

Import Server.

(** Every unit of the string satisfies [p]. *)
Fixpoint all_units (p : ascii -> bool) (s : string) : bool :=
  match s with
  | EmptyString => true
  | String c r => p c && all_units p r
  end.

(** The string holds no comma. *)
Definition no_comma (s : string) : bool := all_units (fun c => negb (Ascii.eqb c ",")) s.

(** An entry of a comma-separated list once normalized: not empty, without
    white space around it, without a comma. *)
Definition normal_entry (x : string) : Prop :=
  x <> EmptyString /\ trim x = x /\ no_comma x = true.

(** A request to one of the five routes that have a handler in
    [server.js] beside [/health]. *)
Inductive request : Type :=
| do_checkin (e : env) (body : jsval)
| do_checkout (e : env) (body : jsval)
| do_active_site (query : jsval)
| do_visit_by_id (id : string)
| do_active_visit (query : jsval).

(** The world that the handler of the request leaves. *)
Definition after (r : request) (w : world) : world :=
  match r with
  | do_checkin e b => snd (checkin e b w)
  | do_checkout e b => snd (checkout e b w)
  | do_active_site q => snd (active_site q w)
  | do_visit_by_id id => snd (Reads.visit_by_id id w)
  | do_active_visit q => snd (Reads.active_visit q w)
  end.

(** Between two requests time passes, and the durations of the awaits to
    come are whatever they will be. *)
Definition idle (d : N) (tape : list N) (w : world) : world :=
  mk_world (visits w) (clock w + Z.of_N d) tape (console w).

(** [w'] is reached from [w] by requests, in any number and order. *)
Inductive evolves : world -> world -> Prop :=
| evolves_refl w : evolves w w
| evolves_request r w w' : evolves (after r w) w' -> evolves w w'
| evolves_idle d tape w w' : evolves (idle d tape w) w' -> evolves w w'.

(** The world after the requests of a list, one after the other. *)
Definition replay (requests : list request) (w : world) : world :=
  fold_left (fun w r => after r w) requests w.

(** Requests for the samples: a check-in under the id of the first visit,
    a listing, the check-out of the first visit, the same check-out
    again, a lookup and a question for a turbine. *)
Definition close1 : jsval := JObj [("visitId", JStr Sample.uuid1)].

Definition later_requests : list request :=
  [do_checkin Sample.env1 Sample.alice_bob;
   do_active_site (Sample.site_query "SiteA");
   do_checkout Sample.env2 close1;
   do_checkout Sample.env1 close1;
   do_visit_by_id Sample.uuid1;
   do_active_visit (JObj [("turbineId", JStr "SITE-SiteA")])].

(** The ids of the table are pairwise distinct. *)
Definition distinct_ids (tbl : Sql.table) : Prop := NoDup (map Visit.id tbl).


(** No timestamp of the table is in the future, and a visit is closed no
    earlier than it was opened. *)
Definition timely (w : world) : Prop :=
  forall v, In v (visits w) ->
    Visit.check_in v <= clock w
    /\ forall t, Visit.check_out v = Some t -> Visit.check_in v <= t <= clock w.

(** [v'] is [v], but for a [check_out] that may have been set. *)
Definition continues (v v' : Visit.t) : Prop :=
  v' = Visit.with_check_out (Visit.check_out v') v
  /\ (Visit.check_out v <> None -> v' = v).

(** A computation during which the clock does not go back. *)
Definition advancing {A : Type} (m : M A) : Prop :=
  forall w, clock w <= clock (snd (m w)).

(** Two texts of technician names for the samples. *)
Definition two_names : list string := ["Alice"; "Bob"].

(** The sender that [sendNotification] puts on a message. *)
Definition sender (cfg : Mailer.config) : string :=
  match Mailer.SMTP_FROM cfg with
  | None | Some EmptyString => "Wind Tracker <noreply@example.com>"
  | Some f => f
  end.

(** [c'] has every relation of [c] as it was, but that the table [t] may
    have gained columns after those it had. *)
Definition extends_on (t : string) (c c' : gmap string Db.relation) : Prop :=
  forall name r, c !! name = Some r ->
    c' !! name = Some r
    \/ (name = t
        /\ exists columns more,
             r = Db.table columns /\ c' !! name = Some (Db.table (columns ++ more))).

(** A statement that drops nothing, and that changes nothing when it runs
    on a catalog that extends the one it left. *)
Definition migration (t : string)
    (s : gmap string Db.relation -> option (gmap string Db.relation)) : Prop :=
  (forall c c', s c = Some c' -> extends_on t c c')
  /\ (forall c c', s c = Some c' -> forall c'', extends_on t c' c'' -> s c'' = Some c'').

(** The columns with [col] after them if none has its name. *)
Definition add_missing (columns : list Db.column) (col : Db.column) : list Db.column :=
  if Db.has_column (Db.column_name col) columns then columns else columns ++ [col].

(** The five columns that [initDb] adds to an earlier table. *)
Definition added_columns : list Db.column :=
  map Db.text_column
    ["power_plant"; "equipment_name"; "maintenance_company"; "status"; "malfunction_type"].

Definition upgraded (columns : list Db.column) : list Db.column :=
  fold_left add_missing added_columns columns.

(** What [initDb] logs when it succeeds. *)
Definition ensured : list (log_level * string) := [(LOG, "[DB] migrations ensured")].

(** The limiter after the countdown timer has run [tick] at the given
    times. *)
Definition ticks (end_ : Z) (times : list Z) (l : Form.limiter) : Form.limiter :=
  fold_left (fun l t => Form.tick t end_ l) times l.

(** The attempts of the limiter that are less than a minute old. *)
Definition recent (now : Z) (l : Form.limiter) : list Z :=
  List.filter (fun t => now - t <? Form.windowMs) (Form.submitAttemptTimes l).

(** The turbine id that a check-in without [turbineId] gets. *)
Definition site_turbine (powerPlant : string) : string :=
  if nonempty powerPlant then "SITE-" +:+ powerPlant else "N/A".

(** A text column that holds [s], [NULL] standing for the empty string. *)
Definition text_or_null (s : string) : option string :=
  if nonempty s then Some s else None.

(** A catalog with the table of an earlier version, and the catalog that
    [initDb] leaves. *)
Definition legacy_catalog : gmap string Db.relation :=
  <["visits" := Db.table Db.visits_columns]> ∅.

Definition migrated (c : gmap string Db.relation) : gmap string Db.relation :=
  match Db.initDb c with
  | Some (c', _) => c'
  | None => c
  end.

(** A form with two technicians, the second without a number, and a
    limiter that has seen four attempts in the last minute. *)
Definition sample_form : Form.values :=
  Form.mk_values "SiteA" "T-12" EmptyString "IN" EmptyString "Yearly inspection" EmptyString.

Definition sample_controls : list Form.technician :=
  [Form.mk_technician " Alice " "0601"; Form.mk_technician "Bob" EmptyString;
   Form.mk_technician "  " "0602"].

Definition sample_limiter : Form.limiter :=
  Form.mk_limiter [1000; 2000; 3000; 4000] None 0 None.

End Spec2.
Import Spec2.
(* ================================================================= *)
(** * Properties *)

(** ** The embedding on examples *)

Section Examples.

Example trim_Bob : trim " Bob " = "Bob".
Proof. reflexivity. Qed.

Example split_two : split "," "a, b,,c" = ["a"; " b"; EmptyString; "c"].
Proof. reflexivity. Qed.

Example String_of_array :
  Js.ToString (JArr [JStr "a"; JNull; JNum (Js.number_of "1e+21"); JArr [JBool true; JStr "b"]])
  = Returned "a,,1e+21,true,b".
Proof. reflexivity. Qed.

Example String_of_object :
  Js.ToString (JObj [("name", JStr "a")]) = Returned "[object Object]"
  /\ Js.ToString (JObj [("toString", JNum (Js.number_of "0"))]) = Thrown Js.type_error
  /\ Js.ToString (JArr [JStr "a"; JObj [("toString", JNull)]]) = Thrown Js.type_error.
Proof. repeat split; reflexivity. Qed.

Example uuid_canonical :
  Uuid.parse "123E4567-e89b-12d3-a456-426614174000"
  = Some "123e4567-e89b-12d3-a456-426614174000".
Proof. reflexivity. Qed.

Example uuid_braces_no_hyphens :
  Uuid.parse "{123e4567e89b12d3a456426614174000}"
  = Some "123e4567-e89b-12d3-a456-426614174000".
Proof. reflexivity. Qed.

Example uuid_rejects : Uuid.parse "abc" = None /\ Uuid.parse EmptyString = None.
Proof. split; reflexivity. Qed.

End Examples.

(** ** Strings *)

Section StringFacts.

Lemma nonempty_true (s : string) : nonempty s = true <-> s <> EmptyString.
Proof. destruct s; simpl; split; congruence. Qed.

Lemma nonempty_false (s : string) : nonempty s = false <-> s = EmptyString.
Proof. destruct s; simpl; split; congruence. Qed.

Lemma trimEnd_idempotent (s : string) : trimEnd (trimEnd s) = trimEnd s.
Proof.
  induction s as [|c r IH]; simpl; [reflexivity|].
  destruct (trimEnd r) as [|c' r'] eqn:E.
  - destruct (is_ws c) eqn:W; simpl; [reflexivity|]. now rewrite W.
  - simpl in *. now rewrite IH.
Qed.

(** [trimEnd] keeps a first unit that is not white space. *)
Lemma trimEnd_head (c : ascii) (r : string) :
  is_ws c = false -> exists r', trimEnd (String c r) = String c r'.
Proof.
  intros W. simpl. destruct (trimEnd r); [rewrite W|]; eauto.
Qed.

Lemma trimStart_head (s : string) (c : ascii) (r : string) :
  trimStart s = String c r -> is_ws c = false.
Proof.
  induction s as [|a s IH]; simpl; [discriminate|].
  destruct (is_ws a) eqn:W; [exact IH|]. intros [= <- _]. exact W.
Qed.

Lemma trim_head (s : string) (c : ascii) (r : string) :
  trim s = String c r -> is_ws c = false.
Proof.
  unfold trim. destruct (trimStart s) as [|a t] eqn:E; [discriminate|].
  pose proof (trimStart_head _ _ _ E) as W.
  destruct (trimEnd_head a t W) as [r' ->]. now intros [= <- _].
Qed.

Lemma trim_idempotent (s : string) : trim (trim s) = trim s.
Proof.
  unfold trim at 1. destruct (trim s) as [|c r] eqn:E; [reflexivity|].
  pose proof (trim_head _ _ _ E) as W.
  cbn [trimStart]. rewrite W, <- E. apply trimEnd_idempotent.
Qed.

Lemma trimEnd_last (s : string) (c : ascii) :
  last_unit (trimEnd s) = Some c -> is_ws c = false.
Proof.
  induction s as [|a r IH]; simpl; [discriminate|].
  destruct (trimEnd r) as [|b r'] eqn:E.
  - destruct (is_ws a) eqn:W; simpl; [discriminate|]. now intros [= <-].
  - exact IH.
Qed.

Lemma trim_last (s : string) (c : ascii) :
  last_unit (trim s) = Some c -> is_ws c = false.
Proof. apply trimEnd_last. Qed.

Lemma append_cons (c : ascii) (a b : string) : String c a +:+ b = String c (a +:+ b).
Proof. reflexivity. Qed.

Lemma append_nil (b : string) : EmptyString +:+ b = b.
Proof. reflexivity. Qed.

Lemma trimStart_decompose (s : string) :
  exists l, s = l +:+ trimStart s /\ all_ws l = true.
Proof.
  induction s as [|a r [l [Hl Wl]]]; simpl.
  - now exists EmptyString.
  - destruct (is_ws a) eqn:W.
    + exists (String a l). simpl. rewrite W, Wl, append_cons, <- Hl. now split.
    + now exists EmptyString.
Qed.

Lemma trimEnd_decompose (s : string) :
  exists r, s = trimEnd s +:+ r /\ all_ws r = true.
Proof.
  induction s as [|a t [r [Hr Wr]]]; simpl.
  - now exists EmptyString.
  - destruct (trimEnd t) as [|b t'] eqn:E.
    + rewrite append_nil in Hr. subst r. destruct (is_ws a) eqn:W.
      * exists (String a t). rewrite append_nil. simpl. rewrite W, Wr. now split.
      * exists t. rewrite append_cons, append_nil. now split.
    + exists r. rewrite append_cons, <- Hr. now split.
Qed.

Lemma append_assoc (a b c : string) : (a +:+ b) +:+ c = a +:+ (b +:+ c).
Proof. induction a as [|x a IH]; [reflexivity|]. now rewrite !append_cons, IH. Qed.

(** [trim s] is [s] without a prefix and a suffix made of white space. *)
Lemma trim_decompose (s : string) :
  exists l r, s = l +:+ trim s +:+ r /\ all_ws l = true /\ all_ws r = true.
Proof.
  destruct (trimStart_decompose s) as [l [Hl Wl]].
  destruct (trimEnd_decompose (trimStart s)) as [r [Hr Wr]].
  exists l, r. unfold trim. repeat split; try assumption.
  now rewrite <- Hr.
Qed.

Lemma upper_ascii_I (c : ascii) :
  upper_ascii c = "I"%char <-> c = "I"%char \/ c = "i"%char.
Proof.
  split.
  - destruct c as [[] [] [] [] [] [] [] []]; vm_compute; intros H;
      first [discriminate H | now left | now right].
  - intros [-> | ->]; reflexivity.
Qed.

Lemma upper_ascii_N (c : ascii) :
  upper_ascii c = "N"%char <-> c = "N"%char \/ c = "n"%char.
Proof.
  split.
  - destruct c as [[] [] [] [] [] [] [] []]; vm_compute; intros H;
      first [discriminate H | now left | now right].
  - intros [-> | ->]; reflexivity.
Qed.

Lemma upper_IN (s : string) : upper s = "IN" <-> reads_IN s.
Proof.
  unfold reads_IN. split.
  - destruct s as [|a [|b [|c r]]]; simpl; try discriminate.
    intros [= Ha Hb].
    apply upper_ascii_I in Ha. apply upper_ascii_N in Hb.
    destruct Ha as [-> | ->], Hb as [-> | ->]; tauto.
  - intros [-> | [-> | [-> | ->]]]; reflexivity.
Qed.

End StringFacts.

(** ** Deduplication *)

Section Dedupe.

Import Server.

Lemma mem_In (x : string) (l : list string) : mem x l = true <-> In x l.
Proof.
  unfold mem. rewrite existsb_exists. split.
  - intros [y [Hy E]]. apply String.eqb_eq in E. now subst.
  - intros H. exists x. split; [assumption|apply String.eqb_refl].
Qed.










End Dedupe.

(** ** Ordering of the site listing *)

Section Ordering.

Import Sql.

Lemma insert_desc_perm (v : Visit.t) (l : list Visit.t) : Permutation (v :: l) (insert_desc v l).
Proof.
  induction l as [|x l IH]; simpl; [reflexivity|].
  destruct (Visit.check_in x <? Visit.check_in v); [reflexivity|].
  rewrite perm_swap. now constructor.
Qed.

Lemma order_by_perm (l : list Visit.t) : Permutation l (order_by_check_in_desc l).
Proof.
  induction l as [|x l IH]; simpl; [constructor|].
  rewrite <- insert_desc_perm. now constructor.
Qed.

Lemma insert_desc_descending (v : Visit.t) (l : list Visit.t) :
  descending l -> descending (insert_desc v l).
Proof.
  induction 1 as [|x|x y l Hxy Hd IH]; simpl.
  - constructor.
  - destruct (Z.ltb_spec (Visit.check_in x) (Visit.check_in v)); repeat constructor; lia.
  - simpl in IH.
    destruct (Z.ltb_spec (Visit.check_in x) (Visit.check_in v)).
    + repeat constructor; try lia; assumption.
    + destruct (Z.ltb_spec (Visit.check_in y) (Visit.check_in v));
        repeat constructor; try lia; assumption.
Qed.

Lemma order_by_descending (l : list Visit.t) : descending (order_by_check_in_desc l).
Proof.
  induction l as [|x l IH]; simpl; [constructor|]. now apply insert_desc_descending.
Qed.

End Ordering.

(** ** Query parameters *)

Section Parameters.

Import Server.

Lemma number_toString_nonempty (n : number) : Js.number_toString n <> EmptyString.
Proof. discriminate. Qed.

(** What the driver sends for a truthy value is never the empty text. *)
Lemma text_of_nonempty (v : jsval) : Js.truthy v = true -> Pg.text_of v <> EmptyString.
Proof.
  destruct v as [| |[]|n|s|items|fields]; simpl; try discriminate.
  intros H. now apply nonempty_true.
Qed.

Lemma or_null_truthy (v : jsval) :
  or_null v = if Js.truthy v then Some (Pg.text_of v) else None.
Proof.
  unfold or_null, Js.or_else. destruct (Js.truthy v) eqn:T; [|reflexivity].
  destruct v; simpl in *; try discriminate; reflexivity.
Qed.

Lemma prepareValue_truthy (v : jsval) :
  Js.truthy v = true -> Pg.prepareValue v = Some (Pg.text_of v).
Proof. destruct v; simpl; try discriminate; reflexivity. Qed.

Lemma or_null_not_empty (v : jsval) : or_null v <> Some EmptyString.
Proof.
  rewrite or_null_truthy. destruct (Js.truthy v) eqn:T; [|discriminate].
  intros [= H]. now apply (text_of_nonempty v T).
Qed.

Lemma or_null_string (s : string) :
  or_null (JStr s) = if nonempty s then Some s else None.
Proof. rewrite or_null_truthy. reflexivity. Qed.

(** Reading a property of [req.body || {}] is reading it in [req.body]. *)
Lemma get_or_else (req_body : jsval) (k : string) :
  Js.get (Js.or_else req_body (JObj [])) k = Js.get req_body k.
Proof.
  unfold Js.or_else. destruct (Js.truthy req_body) eqn:T; [reflexivity|].
  destruct req_body; try reflexivity; discriminate.
Qed.

End Parameters.

(** ** Time and the console *)

Section World.

Import Server.

Lemma elapse_visits (w : world) : visits (elapse w) = visits w.
Proof. unfold elapse. now destruct (latency w). Qed.

Lemma elapse_clock (w : world) : clock w <= clock (elapse w).
Proof. unfold elapse. destruct (latency w); simpl; lia. Qed.

Lemma later_refl (w : world) : later w w.
Proof. split; [reflexivity|lia]. Qed.

Lemma later_trans (w1 w2 w3 : world) : later w1 w2 -> later w2 w3 -> later w1 w3.
Proof. intros [V1 C1] [V2 C2]. split; [congruence|lia]. Qed.

Lemma later_elapse (w : world) : later w (elapse w).
Proof. split; [apply elapse_visits|apply elapse_clock]. Qed.

Lemma quiet_harmless {A : Type} (m : M A) : quiet m -> harmless m.
Proof. intros H w. destruct (H w) as [a [w' [E L]]]. eauto. Qed.

Lemma quiet_ret {A : Type} (a : A) : quiet (ret a).
Proof. intros w. exists a, w. split; [reflexivity|apply later_refl]. Qed.

Lemma quiet_write_console (lvl : log_level) (line : string) : quiet (write_console lvl line).
Proof. intros w. eexists _, _. split; [reflexivity|]. split; [reflexivity|simpl; lia]. Qed.

Lemma quiet_bind {A B : Type} (m : M A) (k : A -> M B) :
  quiet m -> (forall a, quiet (k a)) -> quiet (bind m k).
Proof.
  intros Hm Hk w. destruct (Hm w) as [a [w1 [E1 L1]]].
  destruct (Hk a w1) as [b [w2 [E2 L2]]].
  exists b, w2. unfold bind. rewrite E1, E2. split; [reflexivity|].
  eapply later_trans; eassumption.
Qed.

Lemma harmless_bind {A B : Type} (m : M A) (k : A -> M B) :
  harmless m -> (forall a, harmless (k a)) -> harmless (bind m k).
Proof.
  intros Hm Hk w. destruct (Hm w) as [r [w1 [E1 L1]]]. unfold bind. rewrite E1.
  destruct r as [a|err].
  - destruct (Hk a w1) as [r2 [w2 [E2 L2]]]. rewrite E2.
    eexists _, _. split; [reflexivity|]. eapply later_trans; eassumption.
  - eexists _, _. split; [reflexivity|assumption].
Qed.

(** [try { m } catch (e) { h }] returns when the handler always does. *)
Lemma quiet_try_catch {A : Type} (m : M A) (h : js_error -> M A) :
  harmless m -> (forall err, quiet (h err)) -> quiet (try_catch m h).
Proof.
  intros Hm Hh w. destruct (Hm w) as [r [w1 [E1 L1]]]. unfold try_catch. rewrite E1.
  destruct r as [a|err].
  - eauto.
  - destruct (Hh err w1) as [a [w2 [E2 L2]]]. rewrite E2.
    eexists _, _. split; [reflexivity|]. eapply later_trans; eassumption.
Qed.

Lemma harmless_lift {A : Type} (o : outcome A) : harmless (lift o).
Proof. intros w. eexists _, _. split; [reflexivity|apply later_refl]. Qed.

Lemma harmless_throw {A : Type} (err : js_error) : harmless (@throw A err).
Proof. intros w. eexists _, _. split; [reflexivity|apply later_refl]. Qed.

Lemma quiet_recipientsForSite (cfg : Mailer.config) (powerPlant : jsval) :
  quiet (Mailer.recipientsForSite cfg powerPlant).
Proof.
  unfold Mailer.recipientsForSite. apply quiet_try_catch.
  - destruct (Mailer.NOTIFY_MATRIX cfg) as [[]|]; try apply harmless_throw;
      (apply harmless_bind; [apply harmless_lift|intros key];
       match goal with |- harmless (if ?c then _ else _) => destruct c end;
       [apply harmless_bind; [apply harmless_lift|intros; apply quiet_harmless, quiet_ret]
       |apply quiet_harmless, quiet_ret]).
  - intros err. apply quiet_bind; [apply quiet_write_console|intros; apply quiet_ret].
Qed.

Lemma harmless_sendNotification (cfg : Mailer.config) (subject text : string)
    (toList : list string) : harmless (Mailer.sendNotification cfg subject text toList).
Proof.
  unfold Mailer.sendNotification.
  destruct (Mailer.SMTP_HOST cfg) as [[|]|];
    try (apply quiet_harmless, quiet_write_console).
  intros w. destruct (Mailer.sendMail cfg _);
    eexists _, _; (split; [reflexivity|apply later_elapse]).
Qed.

Lemma harmless_pool_query_read_only {A : Type} (q : Z -> Sql.table -> outcome A) :
  harmless (pool_query (read_only q)).
Proof.
  intros w. unfold pool_query, read_only.
  eexists _, _. split; [reflexivity|].
  eapply later_trans; [apply later_elapse|].
  eapply later_trans; [|apply later_elapse].
  split; [reflexivity|simpl; lia].
Qed.

Lemma harmless_checkin_mail (e : env) (powerPlant equipmentName maintenanceCompany reason
    malfunctionType : jsval) (techs : list string) :
  harmless (checkin_mail e powerPlant equipmentName maintenanceCompany reason
              malfunctionType techs).
Proof.
  unfold checkin_mail. destruct (Js.truthy powerPlant); [|apply quiet_harmless, quiet_ret].
  apply harmless_bind; [apply quiet_harmless, quiet_recipientsForSite|].
  intros [|r rs]; [apply quiet_harmless, quiet_ret|].
  apply harmless_bind; [apply harmless_lift|intros; apply harmless_sendNotification].
Qed.

Lemma harmless_checkout_mail (e : env) (visitId : string) : harmless (checkout_mail e visitId).
Proof.
  unfold checkout_mail. apply harmless_bind; [apply harmless_pool_query_read_only|].
  intros [|v ctx]; [apply quiet_harmless, quiet_ret|].
  destruct (Visit.power_plant v) as [[|c plant]|]; try apply quiet_harmless, quiet_ret.
  apply harmless_bind; [apply quiet_harmless, quiet_recipientsForSite|].
  intros [|r rs]; [apply quiet_harmless, quiet_ret|apply harmless_sendNotification].
Qed.

(** The mail block of either handler: whatever the mailer does, control
    reaches the statement after the [catch] with the table untouched. *)
Lemma quiet_mail_block (m : M unit) :
  harmless m ->
  quiet (try_catch m (fun err => write_console WARN ("[mail] send failed " +:+ message err))).
Proof. intros H. apply quiet_try_catch; [assumption|intros; apply quiet_write_console]. Qed.

End World.

(** ** Check-in *)

Section CheckIn.

Import Server.

Lemma has_id_false (u : uuid) (tbl : Sql.table) :
  Sql.has_id u tbl = false <-> forall v, In v tbl -> Visit.id v <> u.
Proof.
  unfold Sql.has_id. split.
  - intros H v Hv E. apply not_true_iff_false in H. apply H.
    apply existsb_exists. exists v. split; [assumption|]. now apply String.eqb_eq.
  - intros H. apply not_true_iff_false. intros [v [Hv E]]%existsb_exists.
    apply String.eqb_eq in E. now apply (H v).
Qed.

Lemma world_eta (w : world) : mk_world (visits w) (clock w) (latency w) (console w) = w.
Proof. now destruct w. Qed.


(** *** Parameters of the uuid column *)

Lemma is_hex_not_nul (c : ascii) : Uuid.is_hex c = true -> Ascii.eqb c Ascii.zero = false.
Proof.
  intros H. destruct (Ascii.eqb_spec c Ascii.zero) as [->|]; [|reflexivity].
  vm_compute in H. discriminate.
Qed.

Lemma read_bytes_nul_free (todo : nat) :
  forall (i : nat) (s : string) (ds : list ascii) (rest : string),
    Uuid.read_bytes todo i s = Some (ds, rest) ->
    Sql.nul_free rest = true -> Sql.nul_free s = true.
Proof.
  induction todo as [|todo IH]; intros i s ds rest H Hr; simpl in H.
  - now injection H as _ <-.
  - destruct s as [|a [|b r]]; try discriminate.
    destruct (Uuid.is_hex a && Uuid.is_hex b) eqn:Hx; [|discriminate].
    apply andb_true_iff in Hx as [Ha Hb].
    match type of H with
    | match Uuid.read_bytes todo (S i) ?r' with _ => _ end = _ =>
        destruct (Uuid.read_bytes todo (S i) r') as [[ds' rest']|] eqn:E; [|discriminate]
    end.
    injection H as _ <-. apply IH in E; [|assumption].
    cbn [Sql.nul_free]. rewrite (is_hex_not_nul a Ha), (is_hex_not_nul b Hb). cbn [negb andb].
    destruct r as [|c r'']; [exact E|].
    destruct (Ascii.eqb c "-" && Nat.odd i && (i <? 15)%nat) eqn:Hc; [|exact E].
    apply andb_true_iff in Hc as [[Hc _]%andb_true_iff _]. apply Ascii.eqb_eq in Hc. subst c.
    cbn [Sql.nul_free]. exact E.
Qed.

(** The text of a uuid holds no code unit 0. *)
Lemma parse_nul_free (s : string) (u : uuid) : Uuid.parse s = Some u -> Sql.nul_free s = true.
Proof.
  unfold Uuid.parse. intros H.
  assert (Hb : forall (braces : bool) body,
             match Uuid.read_bytes 16 0 body with
             | Some (ds, rest) =>
                 if String.eqb rest (if braces then "}" else EmptyString)
                 then Some (Uuid.print ds) else None
             | None => None
             end = Some u -> Sql.nul_free body = true).
  { intros braces body Hp.
    destruct (Uuid.read_bytes 16 0 body) as [[ds rest]|] eqn:E; [|discriminate].
    destruct (String.eqb_spec rest (if braces then "}" else EmptyString)) as [->|];
      [|discriminate].
    apply (read_bytes_nul_free _ _ _ _ _ E). now destruct braces. }
  destruct s as [|c r]; [reflexivity|].
  destruct (Ascii.eqb_spec c "{") as [->|Hc].
  - cbn [Sql.nul_free]. apply (Hb true r). exact H.
  - apply (Hb false (String c r)).
    destruct c as [[] [] [] [] [] [] [] []]; try exact H. exfalso. now apply Hc.
Qed.

Lemma uuid_param_parse (s : string) (u : uuid) :
  Uuid.parse s = Some u -> Sql.uuid_param s = Returned u.
Proof.
  intros H. unfold Sql.uuid_param. now rewrite (parse_nul_free s u H), H.
Qed.

Lemma uuid_param_none (s : string) :
  Uuid.parse s = None -> exists err, Sql.uuid_param s = Thrown err.
Proof.
  intros H. unfold Sql.uuid_param. rewrite H. destruct (Sql.nul_free s); eauto.
Qed.

Lemma uuid_param_returned (s : string) (u : uuid) :
  Sql.uuid_param s = Returned u -> Uuid.parse s = Some u.
Proof.
  unfold Sql.uuid_param. destruct (Sql.nul_free s); [|discriminate].
  destruct (Uuid.parse s); [now intros [= ->]|discriminate].
Qed.

(** *** The expressions that print *)

Lemma bind_lift_returned {A B : Type} (a : A) (k : A -> M B) :
  bind (lift (Returned a)) k = k a.
Proof. reflexivity. Qed.

Lemma bind_lift_thrown {A B : Type} (err : js_error) (k : A -> M B) :
  bind (lift (Thrown err)) k = throw err.
Proof. reflexivity. Qed.

Lemma trimmed_texts_spec (items : list jsval) :
  trimmed_texts items
  = if forallb Js.prints items
    then Returned (map (fun t => trim (Js.String_ t)) items)
    else Thrown Js.type_error.
Proof.
  induction items as [|t rest IH]; [reflexivity|].
  cbn [trimmed_texts forallb map]. unfold Js.ToString.
  destruct (Js.prints t); [|reflexivity]. rewrite IH.
  now destruct (forallb Js.prints rest).
Qed.

Lemma techs_spec (technicians : jsval) :
  techs technicians
  = if match technicians with
       | JArr items => forallb Js.prints items
       | _ => true
       end
    then Returned (techs_of technicians) else Thrown Js.type_error.
Proof.
  destruct technicians as [| | | | |items|]; try reflexivity.
  unfold techs, techs_of. rewrite trimmed_texts_spec.
  now destruct (forallb Js.prints items).
Qed.

Lemma turbine_spec (turbineId powerPlant : jsval) :
  turbine turbineId powerPlant
  = if negb (needs_placeholder turbineId && Js.truthy powerPlant) || Js.prints powerPlant
    then Returned (turbine_of turbineId powerPlant) else Thrown Js.type_error.
Proof.
  unfold turbine, turbine_of, needs_placeholder, Js.ToString.
  destruct turbineId as [| | | |s| |];
    try (destruct (Js.truthy powerPlant); [now destruct (Js.prints powerPlant)|reflexivity]).
  destruct (nonempty (trim s)); [reflexivity|].
  destruct (Js.truthy powerPlant); [now destruct (Js.prints powerPlant)|reflexivity].
Qed.

(** A check-in whose texts evaluate starts as [techs_of] and [turbine_of]
    say. *)
Lemma checkin_evaluates (e : env) (b : jsval) :
  evaluates b = true ->
  turbine (Js.get b "turbineId") (Js.get b "powerPlant")
  = Returned (turbine_of (Js.get b "turbineId") (Js.get b "powerPlant"))
  /\ techs (Js.get b "technicians") = Returned (techs_of (Js.get b "technicians")).
Proof.
  unfold evaluates. intros [H1 H2]%andb_true_iff.
  now rewrite turbine_spec, techs_spec, H1, H2.
Qed.

(** The world after an error in the handler: the console has one more
    line. *)
Lemma checkin_throws (e : env) (b : jsval) (w : world) :
  evaluates b = false ->
  checkin e b w
  = (Returned (mk_response 500 (error_reply "Internal server error")),
     mk_world (visits w) (clock w) (latency w)
       (console w ++ [(ERROR, "[checkin] error " +:+ message Js.type_error)])).
Proof.
  unfold evaluates. intros H. unfold checkin. cbv zeta. rewrite !get_or_else.
  rewrite turbine_spec, techs_spec.
  destruct (negb (needs_placeholder (Js.get b "turbineId") && Js.truthy (Js.get b "powerPlant"))
            || Js.prints (Js.get b "powerPlant")); [|reflexivity].
  cbn [andb] in H. rewrite H. reflexivity.
Qed.

(** *** The statements *)

Lemma storable_any (e : env) (u u' : uuid) (t t' : Z) (b : jsval) :
  storable e (inserted_row u t b) = storable e (inserted_row u' t' b).
Proof. reflexivity. Qed.

(** What [INSERT] does. *)
Lemma insert_visit_cases (e : env) (now : Z) (p_id turbine : string) (techs : list string)
    (r c p q m s f : option string) (tbl : Sql.table) :
  (exists u,
     Uuid.parse p_id = Some u /\ Sql.has_id u tbl = false
     /\ storable e (Visit.mk u turbine techs r c now None p q m s f) = true
     /\ Sql.insert_visit (indexes e) now p_id turbine techs r c p q m s f tbl
        = (Returned [Visit.mk u turbine techs r c now None p q m s f],
           tbl ++ [Visit.mk u turbine techs r c now None p q m s f]))
  \/ ((exists err,
         Sql.insert_visit (indexes e) now p_id turbine techs r c p q m s f tbl
         = (Thrown err, tbl))
      /\ forall u, Uuid.parse p_id = Some u -> Sql.has_id u tbl = false ->
           storable e (Visit.mk u turbine techs r c now None p q m s f) = false).
Proof.
  unfold Sql.insert_visit, storable, texts, Sql.bound. cbn [Visit.turbine_id Visit.technicians
    Visit.reason Visit.comment Visit.power_plant Visit.equipment_name
    Visit.maintenance_company Visit.status Visit.malfunction_type].
  fold no_nul.
  destruct (Uuid.parse p_id) as [u|] eqn:Hu.
  - rewrite (uuid_param_parse _ _ Hu).
    destruct (forallb no_nul (Some turbine :: map Some techs ++ [r; c; p; q; m; s; f])) eqn:Hn.
    + destruct (Sql.has_id u tbl) eqn:Hid.
      * right. split; [eauto|]. intros u' [= <-]. congruence.
      * destruct (indexes e turbine p q) as [err|] eqn:Hi.
        -- right. split; [eauto|]. intros u' [= <-] _. reflexivity.
        -- left. exists u. split; [reflexivity|]. split; [exact Hid|]. split; reflexivity.
    + right. split; [eauto|]. intros u' _ _. reflexivity.
  - right. destruct (uuid_param_none _ Hu) as [err ->]. split; [eauto|]. discriminate.
Qed.

Lemma run_insert (e : env) (w : world) (p_id : string) (u : uuid) (turbine : string)
    (techs : list string) (r c p q m s f : option string) :
  Uuid.parse p_id = Some u ->
  Sql.has_id u (visits w) = false ->
  storable e (Visit.mk u turbine techs r c (clock (elapse w)) None p q m s f) = true ->
  pool_query (fun now => Sql.insert_visit (indexes e) now p_id turbine techs r c p q m s f) w
  = (Returned [Visit.mk u turbine techs r c (clock (elapse w)) None p q m s f],
     after_insert w (Visit.mk u turbine techs r c (clock (elapse w)) None p q m s f)).
Proof.
  intros Hu Hfresh Hs. unfold pool_query.
  destruct (insert_visit_cases e (clock (elapse w)) p_id turbine techs r c p q m s f
              (visits (elapse w))) as [[u' [Hu' [_ [_ E]]]] | [_ Hno]].
  - rewrite E. rewrite Hu in Hu'. injection Hu' as <-. now rewrite elapse_visits.
  - rewrite elapse_visits in Hno. rewrite (Hno u Hu Hfresh) in Hs. discriminate.
Qed.

Lemma run_insert_refused (e : env) (w : world) (p_id : string) (turbine : string)
    (techs : list string) (r c p q m s f : option string) :
  (forall u, Uuid.parse p_id = Some u -> Sql.has_id u (visits w) = false ->
             storable e (Visit.mk u turbine techs r c (clock (elapse w)) None p q m s f)
             = false) ->
  exists err,
    pool_query (fun now => Sql.insert_visit (indexes e) now p_id turbine techs r c p q m s f) w
    = (Thrown err, elapse (elapse w)).
Proof.
  intros Hno. unfold pool_query.
  destruct (insert_visit_cases e (clock (elapse w)) p_id turbine techs r c p q m s f
              (visits (elapse w))) as [[u [Hu [Hid [Hs _]]]] | [[err E] _]].
  - rewrite elapse_visits in Hid. rewrite (Hno u Hu Hid) in Hs. discriminate.
  - rewrite E. exists err. now rewrite world_eta.
Qed.

Lemma run_count (w : world) (plant : option string) (p_id : string) (u : uuid) :
  Uuid.parse p_id = Some u ->
  no_nul plant = true ->
  pool_query (read_only (fun now => Sql.count_others now plant p_id)) w
  = (Returned (List.length (List.filter (Sql.other_active_today (clock (elapse w)) plant u)
                                        (visits w))),
     elapse (elapse w)).
Proof.
  intros Hu Hn. unfold pool_query, read_only, Sql.count_others, Sql.bound.
  cbn [forallb]. fold (no_nul plant). rewrite Hn. cbn [andb].
  now rewrite (uuid_param_parse _ _ Hu), world_eta, elapse_visits.
Qed.

Lemma after_insert_visits (w : world) (row : Visit.t) :
  visits (after_insert w row) = visits w ++ [row].
Proof. unfold after_insert. now rewrite elapse_visits. Qed.

Lemma after_insert_clock (w : world) (row : Visit.t) :
  clock (elapse w) <= clock (after_insert w row).
Proof. unfold after_insert. eapply Z.le_trans; [|apply elapse_clock]. simpl. lia. Qed.

Lemma storable_texts (e : env) (row : Visit.t) :
  storable e row = true -> forall t, In t (texts row) -> no_nul t = true.
Proof.
  unfold storable. intros [H _]%andb_true_iff. now apply forallb_forall.
Qed.

Lemma storable_plant (e : env) (u : uuid) (t : Z) (b : jsval) :
  storable e (inserted_row u t b) = true ->
  Js.truthy (Js.get b "powerPlant") = true ->
  no_nul (Pg.prepareValue (Js.get b "powerPlant")) = true.
Proof.
  intros Hs P. rewrite (prepareValue_truthy _ P).
  assert (H : In (or_null (Js.get b "powerPlant")) (texts (inserted_row u t b))).
  { unfold texts, inserted_row. cbn [Visit.power_plant]. right. apply in_or_app. right.
    simpl. tauto. }
  apply (storable_texts e _ Hs) in H. now rewrite or_null_truthy, P in H.
Qed.

(** A check-in that is accepted: the answer, and the world that the mail
    block leaves. *)
Lemma checkin_run (e : env) (b : jsval) (w : world) (u : uuid) :
  accepted e b w u ->
  let row := inserted_row u (clock (elapse w)) b in
  checkin e b w
  = (Returned (mk_response 201
       (checkin_reply (Some row)
          (co_activity (clock (elapse (after_insert w row))) (Js.get b "powerPlant") u
             (visits w ++ [row])))),
     snd (checkin_mail_block e b (after_queries w row b))).
Proof.
  intros [Hev [Htechs [Hu [Hfresh Hst]]]] row.
  destruct (checkin_evaluates e b Hev) as [Et Es].
  unfold checkin. cbv zeta. rewrite !get_or_else, Et, Es, !bind_lift_returned.
  destruct (techs_of (Js.get b "technicians")) as [|t0 ts] eqn:T; [contradiction|].
  rewrite <- T.
  unfold try_catch at 1. unfold bind at 1.
  rewrite (run_insert e w _ u) by (first [assumption | exact Hst]).
  fold (inserted_row u (clock (elapse w)) b). fold row.
  fold (checkin_mail_block e b).
  unfold co_activity, after_queries.
  destruct (Js.truthy (Js.get b "powerPlant")) eqn:P.
  - unfold bind at 1. unfold bind at 1.
    rewrite (run_count _ _ _ u) by (first [assumption | exact (storable_plant e u 0 b Hst P)]).
    rewrite after_insert_visits.
    unfold ret at 1. unfold bind at 1.
    destruct (quiet_mail_block _ (harmless_checkin_mail e (Js.get b "powerPlant")
                (Js.get b "equipmentName") (Js.get b "maintenanceCompany")
                (Js.get b "reason") (Js.get b "malfunctionType")
                (dedupe (techs_of (Js.get b "technicians"))))
                (elapse (elapse (after_insert w row)))) as [[] [w3 [E3 _]]].
    fold (checkin_mail_block e b) in E3. rewrite E3. reflexivity.
  - unfold bind at 1. unfold bind at 1. unfold ret at 1.
    destruct (quiet_mail_block _ (harmless_checkin_mail e (Js.get b "powerPlant")
                (Js.get b "equipmentName") (Js.get b "maintenanceCompany")
                (Js.get b "reason") (Js.get b "malfunctionType")
                (dedupe (techs_of (Js.get b "technicians"))))
                (after_insert w row)) as [[] [w3 [E3 _]]].
    fold (checkin_mail_block e b) in E3. rewrite E3. reflexivity.
Qed.

Lemma quiet_checkin_mail_block (e : env) (b : jsval) : quiet (checkin_mail_block e b).
Proof. apply quiet_mail_block, harmless_checkin_mail. Qed.

Lemma co_activity_falsy (t : Z) (powerPlant : jsval) (u : uuid) (tbl : Sql.table) :
  Js.truthy powerPlant = false -> co_activity t powerPlant u tbl = false.
Proof. intros P. unfold co_activity. now rewrite P. Qed.

(** The same, with the time of the count query kept abstract. *)
Lemma checkin_created (e : env) (b : jsval) (w : world) (u : uuid) :
  accepted e b w u ->
  let row := inserted_row u (clock (elapse w)) b in
  exists t w',
    checkin e b w
    = (Returned (mk_response 201
         (checkin_reply (Some row)
            (co_activity t (Js.get b "powerPlant") u (visits w ++ [row])))), w')
    /\ visits w' = visits w ++ [row]
    /\ clock (elapse w) <= t <= clock w'.
Proof.
  intros Hacc row.
  pose proof (checkin_run e b w u Hacc) as E. cbv zeta in E. fold row in E.
  destruct (quiet_checkin_mail_block e b (after_queries w row b)) as [[] [w3 [E3 [V3 C3]]]].
  rewrite E3 in E. simpl in E.
  pose proof (after_insert_visits w row) as Vw.
  pose proof (after_insert_clock w row) as Cw.
  unfold after_queries in V3, C3.
  destruct (Js.truthy (Js.get b "powerPlant")) eqn:P.
  - exists (clock (elapse (after_insert w row))), w3. split; [exact E|].
    rewrite !elapse_visits in V3.
    pose proof (elapse_clock (after_insert w row)).
    pose proof (elapse_clock (elapse (after_insert w row))).
    split; [congruence|lia].
  - exists (clock (elapse w)), w3.
    rewrite co_activity_falsy in E by assumption. rewrite co_activity_falsy by assumption.
    split; [exact E|]. split; [congruence|lia].
Qed.

(** Without a technician the handler answers 400 and nothing has changed. *)
Lemma checkin_invalid (e : env) (b : jsval) (w : world) :
  evaluates b = true ->
  techs_of (Js.get b "technicians") = [] ->
  checkin e b w
  = (Returned (mk_response 400 (error_reply "At least one technician name is required")), w).
Proof.
  intros Hev T. destruct (checkin_evaluates e b Hev) as [Et Es].
  unfold checkin. cbv zeta. rewrite !get_or_else, Et, Es, !bind_lift_returned, T.
  reflexivity.
Qed.

(** When [INSERT] fails the handler answers 500 and the table is as
    before. *)
Lemma checkin_rejected (e : env) (b : jsval) (w : world) :
  evaluates b = true ->
  techs_of (Js.get b "technicians") <> [] ->
  (forall u, Uuid.parse (randomUUID e) = Some u -> Sql.has_id u (visits w) = false ->
             storable e (inserted_row u 0 b) = false) ->
  exists w',
    checkin e b w = (Returned (mk_response 500 (error_reply "Internal server error")), w')
    /\ visits w' = visits w
    /\ clock w <= clock w'.
Proof.
  intros Hev Htechs Hno. destruct (checkin_evaluates e b Hev) as [Et Es].
  unfold checkin. cbv zeta. rewrite !get_or_else, Et, Es, !bind_lift_returned.
  destruct (techs_of (Js.get b "technicians")) as [|t0 ts] eqn:T; [contradiction|].
  rewrite <- T.
  unfold try_catch at 1. unfold bind at 1.
  match goal with
  | |- context [pool_query (fun now => Sql.insert_visit _ now ?i ?tu ?te ?r ?c ?p ?q ?m ?s ?f) w] =>
      destruct (run_insert_refused e w i tu te r c p q m s f) as [err ->]
  end.
  { intros u Hu Hid. exact (Hno u Hu Hid). }
  eexists. split; [reflexivity|]. simpl. rewrite !elapse_visits. split; [reflexivity|].
  pose proof (elapse_clock w). pose proof (elapse_clock (elapse w)). lia.
Qed.

(** The ways a check-in ends. *)
Lemma checkin_cases (e : env) (b : jsval) (w : world) :
  exists r w',
    checkin e b w = (Returned r, w')
    /\ ((r = mk_response 400 (error_reply "At least one technician name is required")
         /\ evaluates b = true /\ techs_of (Js.get b "technicians") = [] /\ w' = w)
        \/ (r = mk_response 500 (error_reply "Internal server error")
            /\ visits w' = visits w /\ clock w <= clock w'
            /\ (evaluates b = false \/ techs_of (Js.get b "technicians") <> [])
            /\ forall u, ~ accepted e b w u)
        \/ (exists u t,
              accepted e b w u
              /\ r = mk_response 201
                       (checkin_reply (Some (inserted_row u (clock (elapse w)) b))
                          (co_activity t (Js.get b "powerPlant") u
                             (visits w ++ [inserted_row u (clock (elapse w)) b])))
              /\ visits w' = visits w ++ [inserted_row u (clock (elapse w)) b]
              /\ clock (elapse w) <= t <= clock w')).
Proof.
  destruct (evaluates b) eqn:Hev.
  2: { eexists _, _. split; [now apply checkin_throws|]. right. left.
       split; [reflexivity|]. split; [reflexivity|]. split; [simpl; lia|].
       split; [now left|]. intros u [H _]. congruence. }
  destruct (techs_of (Js.get b "technicians")) as [|t0 ts] eqn:T.
  - eexists _, w. split; [now apply checkin_invalid|]. left. tauto.
  - assert (Htechs : techs_of (Js.get b "technicians") <> []) by (rewrite T; discriminate).
    rewrite <- T.
    assert (Hrej : (forall u, Uuid.parse (randomUUID e) = Some u ->
                              Sql.has_id u (visits w) = false ->
                              storable e (inserted_row u 0 b) = false) ->
                   exists r w',
                     checkin e b w = (Returned r, w')
                     /\ r = mk_response 500 (error_reply "Internal server error")
                     /\ visits w' = visits w /\ clock w <= clock w'
                     /\ forall u, ~ accepted e b w u).
    { intros Hno. destruct (checkin_rejected e b w Hev Htechs Hno) as [w' [E [V C]]].
      eexists _, w'. split; [exact E|]. split; [reflexivity|]. split; [exact V|].
      split; [exact C|]. intros u [_ [_ [Hu [Hid Hs]]]].
      rewrite (Hno u Hu Hid) in Hs. discriminate. }
    assert (Hend : forall Q : Prop,
               ((forall u, Uuid.parse (randomUUID e) = Some u ->
                           Sql.has_id u (visits w) = false ->
                           storable e (inserted_row u 0 b) = false) -> Q) ->
               ((exists u, accepted e b w u) -> Q) -> Q).
    { intros Q Hq1 Hq2.
      destruct (Uuid.parse (randomUUID e)) as [u|] eqn:Hu; [|apply Hq1; discriminate].
      destruct (Sql.has_id u (visits w)) eqn:Hid;
        [apply Hq1; intros u' [= <-]; congruence|].
      destruct (storable e (inserted_row u 0 b)) eqn:Hs.
      - apply Hq2. exists u. unfold accepted. tauto.
      - apply Hq1. now intros u' [= <-] _. }
    apply Hend.
    + intros Hno. destruct (Hrej Hno) as [r [w' [E [-> [V [C N]]]]]].
      eexists _, w'. split; [exact E|]. right. left. tauto.
    + intros [u Hacc]. destruct (checkin_created e b w u Hacc) as [t [w' [E [V C]]]].
      eexists _, w'. split; [exact E|]. right. right. exists u, t. tauto.
Qed.

End CheckIn.

Section CheckInProperties.

Import Server.

Lemma checkin_answers (e : env) (b : jsval) (w : world) :
  exists r w', checkin e b w = (Returned r, w').
Proof. destruct (checkin_cases e b w) as [r [w' [E _]]]. eauto. Qed.

(** What the answer 201 tells. *)
Lemma checkin_201 (e : env) (b : jsval) (w w' : world) (r : response) :
  checkin e b w = (Returned r, w') ->
  status r = 201%nat ->
  exists u t,
    accepted e b w u
    /\ r = mk_response 201
             (checkin_reply (Some (inserted_row u (clock (elapse w)) b))
                (co_activity t (Js.get b "powerPlant") u
                   (visits w ++ [inserted_row u (clock (elapse w)) b])))
    /\ visits w' = visits w ++ [inserted_row u (clock (elapse w)) b]
    /\ clock (elapse w) <= t <= clock w'.
Proof.
  intros E S. destruct (checkin_cases e b w) as [r0 [w0 [E0 Hcases]]].
  rewrite E in E0. injection E0 as <- <-.
  destruct Hcases as [[-> _] | [[-> _] | H]]; [discriminate S|discriminate S|exact H].
Qed.


Lemma accepted_unique (e : env) (b : jsval) (w : world) (u u' : uuid) :
  accepted e b w u -> accepted e b w u' -> u = u'.
Proof. intros [_ [_ [H _]]] [_ [_ [H' _]]]. congruence. Qed.

Lemma accepted_201 (e : env) (b : jsval) (w : world) (u : uuid) :
  accepted e b w u ->
  exists r w', checkin e b w = (Returned r, w') /\ status r = 201%nat.
Proof.
  intros H. destruct (checkin_created e b w u H) as [t [w' [E _]]]. eauto.
Qed.



Lemma sample_accepted : accepted Sample.env1 Sample.alice_bob Sample.world0 Sample.uuid1.
Proof.
  unfold accepted. split; [reflexivity|]. split; [vm_compute; discriminate|].
  repeat split; vm_compute; reflexivity.
Qed.




End CheckInProperties.

(** ** Check-in: validation and the stored columns *)

Section CheckInColumns.

Import Server.

Lemma trimStart_empty (s : string) : trimStart s = EmptyString <-> all_ws s = true.
Proof.
  induction s as [|c r IH]; simpl; [tauto|].
  destruct (is_ws c); simpl; [exact IH|]. split; discriminate.
Qed.

Lemma trimEnd_empty (s : string) : trimEnd s = EmptyString <-> all_ws s = true.
Proof.
  induction s as [|c r IH]; simpl; [tauto|].
  destruct (trimEnd r) as [|b t].
  - destruct (is_ws c); simpl; [exact IH|]. split; discriminate.
  - split; [discriminate|]. intros [_ H]%andb_true_iff. apply IH in H. discriminate.
Qed.

Lemma trim_empty (s : string) : trim s = EmptyString <-> all_ws s = true.
Proof.
  unfold trim. split.
  - intros H. apply trimEnd_empty in H.
    destruct (trimStart s) as [|c r] eqn:E; [now apply trimStart_empty|].
    apply trimStart_head in E. simpl in H. rewrite E in H. discriminate.
  - intros H. apply trimStart_empty in H. now rewrite H.
Qed.

Lemma split_cons (sep : ascii) (s : string) : exists p rest, split sep s = p :: rest.
Proof.
  destruct s as [|c r]; simpl; [eauto|].
  destruct (Ascii.eqb c sep); [eauto|]. destruct (split sep r); eauto.
Qed.

Lemma split_separators (s : string) :
  only_separators s = true -> Forall (fun p => all_ws p = true) (split "," s).
Proof.
  induction s as [|c r IH]; simpl; [repeat constructor|].
  intros [Hc Hr]%andb_true_iff. specialize (IH Hr).
  destruct (Ascii.eqb c ",") eqn:E; [now constructor|].
  simpl in Hc. destruct (split_cons "," r) as [p [rest Hs]]. rewrite Hs in *.
  inversion IH; subst. constructor; [|assumption]. simpl. now rewrite Hc.
Qed.

Lemma blank_pieces (pieces : list string) :
  Forall (fun p => all_ws p = true) pieces -> List.filter nonempty (map trim pieces) = [].
Proof.
  induction 1 as [|p l Hp _ IH]; simpl; [reflexivity|].
  apply trim_empty in Hp. now rewrite Hp.
Qed.

(** A [technicians] field that gives no name. *)
Lemma techs_of_nothing (v : jsval) :
  v = JUndefined \/ v = JArr [] \/ (exists s, v = JStr s /\ only_separators s = true) ->
  techs_of v = [].
Proof.
  intros [-> | [-> | [s [-> H]]]]; try reflexivity.
  simpl. now apply blank_pieces, split_separators.
Qed.

Lemma inserted_row_no_empty_text (u : uuid) (now : Z) (b : jsval) :
  no_empty_text (inserted_row u now b).
Proof.
  intros f col Hin. simpl in Hin.
  repeat (destruct Hin as [[= <- <-] | Hin]; [apply or_null_not_empty|]).
  contradiction.
Qed.

Lemma with_check_out_no_empty_text (ts : option Z) (v : Visit.t) :
  no_empty_text v -> no_empty_text (Visit.with_check_out ts v).
Proof.
  intros H f col Hin. specialize (H f col Hin). simpl in Hin.
  repeat (destruct Hin as [[= <- <-] | Hin]; [exact H|]). contradiction.
Qed.

End CheckInColumns.

Section CheckInColumnProperties.

Import Server.

Lemma evaluates_spec (b : jsval) :
  evaluates b = true
  <-> (exists t, turbine (Js.get b "turbineId") (Js.get b "powerPlant") = Returned t)
      /\ exists l, techs (Js.get b "technicians") = Returned l.
Proof.
  unfold evaluates. rewrite turbine_spec, techs_spec, andb_true_iff.
  destruct (negb (needs_placeholder (Js.get b "turbineId") && Js.truthy (Js.get b "powerPlant"))
            || Js.prints (Js.get b "powerPlant")).
  - destruct (match Js.get b "technicians" with
              | JArr items => forallb Js.prints items
              | _ => true
              end).
    + split; [eauto|tauto].
    + split; [intros [_ [=]]|intros [_ [l [=]]]].
  - split; [intros [[=] _]|intros [[t [=]] _]].
Qed.

Lemma techs_returned (v : jsval) (l : list string) :
  techs v = Returned l -> l = techs_of v.
Proof.
  rewrite techs_spec.
  destruct (match v with JArr items => forallb Js.prints items | _ => true end);
    [now intros [= <-]|discriminate].
Qed.

Lemma turbine_returned (turbineId powerPlant : jsval) (t : string) :
  turbine turbineId powerPlant = Returned t -> t = turbine_of turbineId powerPlant.
Proof.
  rewrite turbine_spec.
  destruct (negb (needs_placeholder turbineId && Js.truthy powerPlant) || Js.prints powerPlant);
    [now intros [= <-]|discriminate].
Qed.

Lemma blank_needs_placeholder (v : jsval) :
  blank_turbineId v <-> needs_placeholder v = true.
Proof.
  destruct v as [| | | |s| |]; simpl; try tauto.
  rewrite <- trim_empty. destruct (trim s); simpl; split; congruence.
Qed.

(** With a turbine id that is blank and a power plant that does not
    print, no visit is created, technician or not. *)
Lemma placeholder_is_not_always_made :
  blank_turbineId (Js.get Sample.alice_at_mute_plant "turbineId")
  /\ Js.truthy (Js.get Sample.alice_at_mute_plant "powerPlant") = true
  /\ techs (Js.get Sample.alice_at_mute_plant "technicians") = Returned ["Alice"]
  /\ fst (checkin Sample.env1 Sample.alice_at_mute_plant Sample.world0)
     = Returned (mk_response 500 (error_reply "Internal server error"))
  /\ visits (snd (checkin Sample.env1 Sample.alice_at_mute_plant Sample.world0)) = [].
Proof. split; [exact Logic.I|]. repeat split; vm_compute; reflexivity. Qed.

(** C9, amended.  A check-in creates its visit exactly when it is
    accepted, which asks nothing of [turbineId].  In the visit created the
    [turbine_id] is never empty.  When [turbineId] is absent, not a string
    or white space only, it is a placeholder: [SITE-] followed by the text
    of the power plant when [powerPlant] is given (truthy), [N/A]
    otherwise.  A [turbineId] with something else than white space is
    stored trimmed. *)
Theorem turbine_placeholder (e : env) (b : jsval) (w : world) :
  exists r w',
    checkin e b w = (Returned r, w')
    /\ (status r = 201%nat <-> exists u, accepted e b w u)
    /\ (status r = 201%nat ->
        exists row co,
          body r = checkin_reply (Some row) co
          /\ visits w' = visits w ++ [row]
          /\ Visit.turbine_id row <> EmptyString
          /\ (blank_turbineId (Js.get b "turbineId") ->
              (Js.truthy (Js.get b "powerPlant") = true ->
               exists site,
                 Js.ToString (Js.get b "powerPlant") = Returned site
                 /\ Visit.turbine_id row = "SITE-" +:+ site)
              /\ (Js.truthy (Js.get b "powerPlant") = false -> Visit.turbine_id row = "N/A"))
          /\ (forall s, Js.get b "turbineId" = JStr s -> all_ws s = false ->
                        Visit.turbine_id row = trim s)).
Proof.
  destruct (checkin_answers e b w) as [r [w' E]]. exists r, w'. split; [exact E|]. split.
  - split.
    + intros S. destruct (checkin_201 e b w w' r E S) as [u [_ [H _]]]. eauto.
    + intros [u H]. destruct (accepted_201 e b w u H) as [r0 [w0 [E0 S]]]. congruence.
  - intros S. destruct (checkin_201 e b w w' r E S) as [u [t [Hacc [-> [V C]]]]].
    destruct Hacc as [Hev _].
    eexists _, _. split; [reflexivity|]. split; [exact V|].
    cbn [inserted_row Visit.turbine_id].
    unfold evaluates in Hev. apply andb_true_iff in Hev as [Hp _].
    split; [|split].
    + unfold turbine_of. destruct (Js.get b "turbineId") as [| | | |s| |];
        try (destruct (Js.truthy (Js.get b "powerPlant")); discriminate).
      destruct (trim s) as [|c0 r0] eqn:Et; [|discriminate].
      simpl. destruct (Js.truthy (Js.get b "powerPlant")); discriminate.
    + intros Hblank. apply blank_needs_placeholder in Hblank. rewrite Hblank in Hp.
      assert (Ht : turbine_of (Js.get b "turbineId") (Js.get b "powerPlant")
                   = if Js.truthy (Js.get b "powerPlant")
                     then "SITE-" +:+ Js.String_ (Js.get b "powerPlant") else "N/A").
      { unfold turbine_of. unfold needs_placeholder in Hblank.
        destruct (Js.get b "turbineId") as [| | | |s| |]; try reflexivity.
        destruct (nonempty (trim s)); [discriminate|reflexivity]. }
      rewrite Ht. split.
      * intros P. rewrite P in *. cbn [andb negb orb] in Hp.
        exists (Js.String_ (Js.get b "powerPlant")). unfold Js.ToString. now rewrite Hp.
      * intros P. now rewrite P.
    + intros s Hs Hws. unfold turbine_of. rewrite Hs.
      destruct (trim s) as [|c0 r0] eqn:Et; [|reflexivity].
      apply trim_empty in Et. congruence.
Qed.

Lemma turbine_placeholder_witness :
  exists r w',
    checkin Sample.env1 Sample.alice_bob Sample.world0 = (Returned r, w')
    /\ status r = 201%nat
    /\ exists row co,
         body r = checkin_reply (Some row) co
         /\ visits w' = visits Sample.world0 ++ [row]
         /\ Visit.turbine_id row = "SITE-SiteA".
Proof.
  destruct (turbine_placeholder Sample.env1 Sample.alice_bob Sample.world0)
    as [r [w' [E [Hiff H201]]]].
  assert (S : status r = 201%nat)
    by (apply Hiff; exists Sample.uuid1; exact sample_accepted).
  exists r, w'. split; [exact E|]. split; [exact S|].
  destruct (H201 S) as [row [co [B [V [_ [Hblank _]]]]]].
  exists row, co. split; [exact B|]. split; [exact V|].
  destruct (proj1 (Hblank Logic.I) eq_refl) as [site [Hsite ->]].
  injection Hsite as <-. reflexivity.
Defined.

(** The message of the validation error is not the text that the
    specification quotes: the handler's message starts with a capital.
    And a body without a technician is not always answered 400: when its
    power plant does not print, the handler fails before the test. *)
Lemma validation_message_differs :
  techs_of (Js.get (JObj []) "technicians") = []
  /\ fst (checkin Sample.env1 (JObj []) Sample.world0)
     = Returned (mk_response 400 (error_reply "At least one technician name is required"))
  /\ fst (checkin Sample.env1 (JObj []) Sample.world0)
     <> Returned (mk_response 400 (error_reply quoted_validation_message))
  /\ techs (Js.get Sample.nobody_at_mute_plant "technicians") = Returned []
  /\ fst (checkin Sample.env1 Sample.nobody_at_mute_plant Sample.world0)
     = Returned (mk_response 500 (error_reply "Internal server error")).
Proof.
  split; [reflexivity|]. split; [reflexivity|]. split; [vm_compute; discriminate|].
  split; reflexivity.
Qed.

(** C6, amended.  A check-in always answers; it answers 400 exactly when
    the expression of [turbine] returns and the normalized technician list
    is empty; the answer then carries the message [At least one technician
    name is required] and nothing has changed.  A [technicians] field that
    is missing, an empty array, or a string of commas and white space
    gives an empty list.  The expression of [turbine] returns whenever the
    power plant prints, as every absent field does; when it throws the
    answer is 500, whatever the technicians. *)
Theorem checkin_validation (e : env) (b : jsval) (w : world) :
  exists r w',
    checkin e b w = (Returned r, w')
    /\ (status r = 400%nat <->
        (exists t, turbine (Js.get b "turbineId") (Js.get b "powerPlant") = Returned t)
        /\ techs (Js.get b "technicians") = Returned [])
    /\ (status r = 400%nat ->
        body r = error_reply "At least one technician name is required" /\ w' = w)
    /\ (Js.get b "technicians" = JUndefined \/ Js.get b "technicians" = JArr []
        \/ (exists s, Js.get b "technicians" = JStr s /\ only_separators s = true) ->
        techs (Js.get b "technicians") = Returned [])
    /\ (Js.prints (Js.get b "powerPlant") = true ->
        exists t, turbine (Js.get b "turbineId") (Js.get b "powerPlant") = Returned t)
    /\ ((forall t, turbine (Js.get b "turbineId") (Js.get b "powerPlant") <> Returned t) ->
        r = mk_response 500 (error_reply "Internal server error")
        /\ visits w' = visits w).
Proof.
  destruct (checkin_cases e b w) as [r [w' [E Hcases]]].
  exists r, w'. split; [exact E|].
  assert (Hiff : evaluates b = true /\ techs_of (Js.get b "technicians") = []
                 <-> (exists t, turbine (Js.get b "turbineId") (Js.get b "powerPlant")
                                = Returned t)
                     /\ techs (Js.get b "technicians") = Returned []).
  { rewrite evaluates_spec. split.
    - intros [[Ht [l Hl]] T]. split; [exact Ht|].
      rewrite Hl. f_equal. rewrite (techs_returned _ _ Hl). exact T.
    - intros [Ht Hl]. split; [split; [exact Ht|eauto]|].
      now rewrite <- (techs_returned _ _ Hl). }
  split; [|split; [|split; [|split]]].
  - rewrite <- Hiff.
    destruct Hcases as [[-> [Hev [T _]]] | [[-> [_ [_ [H N]]]] | [u [t [Hacc [-> _]]]]]].
    + simpl. tauto.
    + simpl. split; [discriminate|]. intros [Hev T]. destruct H; congruence.
    + simpl. split; [discriminate|]. intros [_ T]. destruct Hacc as [_ [H _]]. contradiction.
  - destruct Hcases as [[-> [_ [_ ->]]] | [[-> _] | [u [t [_ [-> _]]]]]];
      [now intros _|discriminate|discriminate].
  - intros H. pose proof (techs_of_nothing _ H) as T. rewrite techs_spec, T.
    now destruct H as [-> | [-> | [s [-> _]]]].
  - intros P. rewrite turbine_spec, P, orb_true_r. eauto.
  - intros Hno.
    assert (Hev : evaluates b = false).
    { destruct (evaluates b) eqn:Hev; [|reflexivity].
      apply evaluates_spec in Hev as [[t Ht] _]. now contradiction (Hno t). }
    destruct Hcases as [[_ [H _]] | [[-> [V _]] | [u [t [[H _] _]]]]]; try congruence.
    now split.
Qed.

End CheckInColumnProperties.

(** ** Co-activity *)

Section CoActivity.

Import Server.

Lemma status_in_spec (v : Visit.t) :
  Sql.status_in v = true <-> counts_as_IN (Visit.status v).
Proof.
  unfold Sql.status_in, counts_as_IN. rewrite String.eqb_eq.
  destruct (Visit.status v) as [s|].
  - rewrite upper_IN. split.
    + intros H. right. now exists s.
    + intros [H | [s' [[= <-] H]]]; [discriminate|assumption].
  - split; [now left|reflexivity].
Qed.

Lemma is_null_spec {A : Type} (col : option A) : Sql.is_null col = true <-> col = None.
Proof. destruct col; simpl; split; congruence. Qed.

Lemma text_eq_spec (col param : option string) :
  Sql.text_eq col param = true <-> exists p, col = Some p /\ param = Some p.
Proof.
  destruct col as [s|], param as [p|]; simpl;
    try (split; [discriminate|intros [q [H1 H2]]; discriminate]).
  rewrite String.eqb_eq. split.
  - intros ->. eauto.
  - intros [q [[= ->] [= ->]]]. reflexivity.
Qed.

Lemma listed_on_site_spec (now : Z) (plant : string) (v : Visit.t) :
  Sql.listed_on_site now (Some plant) v = true <-> on_site now plant v.
Proof.
  unfold Sql.listed_on_site, Sql.active_today, on_site.
  rewrite !andb_true_iff, text_eq_spec, is_null_spec, status_in_spec, Z.eqb_eq.
  split.
  - intros [[p [H1 [= <-]]] [[H2 H3] H4]]. tauto.
  - intros [H1 [H2 [H3 H4]]]. split; [eauto|tauto].
Qed.

Lemma other_active_today_spec (now : Z) (param : option string) (u : uuid) (v : Visit.t) :
  Sql.other_active_today now param u v = true
  <-> Visit.id v <> u
      /\ (exists p, Visit.power_plant v = Some p /\ param = Some p)
      /\ Visit.check_out v = None
      /\ counts_as_IN (Visit.status v)
      /\ Sql.utc_date (Visit.check_in v) = Sql.utc_date now.
Proof.
  unfold Sql.other_active_today.
  rewrite !andb_true_iff, text_eq_spec, is_null_spec, status_in_spec, Z.eqb_eq,
    negb_true_iff, String.eqb_neq.
  tauto.
Qed.

Lemma count_positive {A : Type} (f : A -> bool) (l : list A) :
  (0 <? List.length (List.filter f l))%nat = true <-> exists x, In x l /\ f x = true.
Proof.
  rewrite Nat.ltb_lt. split.
  - destruct (List.filter f l) as [|x r] eqn:E; simpl; [lia|]. intros _.
    exists x. apply filter_In. rewrite E. now left.
  - intros [x Hx]. apply filter_In in Hx.
    destruct (List.filter f l); [contradiction|simpl; lia].
Qed.

(** Two check-ins at the same power plant, neither with a [status]: the
    second is flagged as co-activity although no visit in the table has
    the status [IN]; both rows have a [NULL] status. *)
Lemma coactivity_without_status_IN :
  exists row w',
    checkin Sample.env2 Sample.alice_bob Sample.world1
    = (Returned (mk_response 201 (checkin_reply (Some row) true)), w')
    /\ (forall v, In v (visits w') -> Visit.status v = None)
    /\ ~ exists t v, In v (visits w') /\ other_active_as_stated t row v.
Proof.
  eexists _, _. split; [vm_compute; reflexivity|].
  assert (H : forall v, In v (visits (snd (checkin Sample.env2 Sample.alice_bob Sample.world1)))
                        -> Visit.status v = None).
  { vm_compute. intros v [<- | [<- | []]]; reflexivity. }
  split; [exact H|].
  intros [t [v [Hv [_ [_ [_ [Hs _]]]]]]]. apply H in Hv. congruence.
Qed.

(** C3, amended.  For a check-in that creates a visit, the [coActivity]
    flag is true exactly when the table, as the count query finds it after
    the insert, holds another visit of the same power plant that is active,
    whose status is [NULL] or case-insensitively [IN], and whose check_in
    is on the UTC day of the count query. *)
Theorem coactivity_flag (e : env) (b : jsval) (w w' : world) (r : response) :
  checkin e b w = (Returned r, w') ->
  status r = 201%nat ->
  exists row co t,
    r = mk_response 201 (checkin_reply (Some row) co)
    /\ visits w' = visits w ++ [row]
    /\ Visit.check_in row <= t <= clock w'
    /\ (co = true <-> exists v, In v (visits w') /\ other_active t row v).
Proof.
  intros E S.
  destruct (checkin_201 e b w w' r E S) as [u [t [_ [-> [V C]]]]].
  eexists _, _, t. split; [reflexivity|]. split; [exact V|]. split; [exact C|].
  rewrite V. unfold co_activity, other_active.
  cbn [inserted_row Visit.id Visit.power_plant].
  rewrite andb_true_iff, count_positive, or_null_truthy.
  split.
  - intros [P [v [Hv Hact]]]. exists v. split; [assumption|].
    apply other_active_today_spec in Hact. rewrite P.
    rewrite (prepareValue_truthy _ P) in Hact.
    destruct Hact as [H1 [[p [H2 [= <-]]] H3]]. split; [assumption|]. split; [eauto|tauto].
  - intros [v [Hv [H1 [[p [Hp H2]] H3]]]].
    destruct (Js.truthy (Js.get b "powerPlant")) eqn:P; [|discriminate].
    split; [reflexivity|]. exists v. split; [assumption|].
    apply other_active_today_spec. rewrite (prepareValue_truthy _ P).
    injection Hp as <-. split; [assumption|]. split; [eauto|tauto].
Qed.

Lemma coactivity_flag_witness :
  checkin Sample.env2 Sample.alice_bob Sample.world1
  = (Returned Sample.reply2, Sample.world2)
  /\ status Sample.reply2 = 201%nat
  /\ exists row co t,
       Sample.reply2 = mk_response 201 (checkin_reply (Some row) co)
       /\ visits Sample.world2 = visits Sample.world1 ++ [row]
       /\ Visit.check_in row <= t <= clock Sample.world2
       /\ (co = true <-> exists v, In v (visits Sample.world2) /\ other_active t row v).
Proof.
  assert (H1 : checkin Sample.env2 Sample.alice_bob Sample.world1
               = (Returned Sample.reply2, Sample.world2)) by (vm_compute; reflexivity).
  assert (H2 : status Sample.reply2 = 201%nat) by (vm_compute; reflexivity).
  split; [exact H1|]. split; [exact H2|].
  exact (coactivity_flag Sample.env2 Sample.alice_bob Sample.world1 Sample.world2
           Sample.reply2 H1 H2).
Defined.

End CoActivity.

(** ** The site listing *)

Section SiteListing.

Import Server.

(** The listing for a [powerPlant] whose trimmed text is not empty and
    holds no code unit 0. *)
Lemma active_site_listed (q : jsval) (p : string) (w : world) :
  Js.get q "powerPlant" = JStr p ->
  trim p <> EmptyString ->
  Sql.nul_free (trim p) = true ->
  active_site q w
  = (Returned (mk_response 200
       (active_site_reply
          (List.length (Sql.active_site_rows (clock (elapse w)) (Some (trim p)) (visits w)))
          (Sql.active_site_rows (clock (elapse w)) (Some (trim p)) (visits w)))),
     elapse (elapse w)).
Proof.
  intros Hq Hp Hn. unfold active_site. rewrite Hq.
  apply nonempty_true in Hp. rewrite Hp.
  unfold try_catch, bind, pool_query, read_only, json, ret, Sql.select_active_site, Sql.bound.
  cbn [forallb]. rewrite Hn. cbn [andb].
  now rewrite world_eta, elapse_visits.
Qed.

(** The same for a text that holds code unit 0: the statement is refused. *)
Lemma active_site_refused (q : jsval) (p : string) (w : world) :
  Js.get q "powerPlant" = JStr p ->
  trim p <> EmptyString ->
  Sql.nul_free (trim p) = false ->
  exists w',
    active_site q w
    = (Returned (mk_response 500 (error_reply "Internal server error")), w')
    /\ visits w' = visits w.
Proof.
  intros Hq Hp Hn. unfold active_site. rewrite Hq.
  apply nonempty_true in Hp. rewrite Hp.
  unfold try_catch, bind, pool_query, read_only, json, ret, Sql.select_active_site, Sql.bound.
  cbn [forallb]. rewrite Hn. cbn [andb].
  eexists. split; [reflexivity|]. simpl. now rewrite !elapse_visits.
Qed.




End SiteListing.

(** ** Check-out *)

Section CheckOut.

Import Server.

Lemma elapse_console (w : world) : console (elapse w) = console w.
Proof. unfold elapse. now destruct (latency w). Qed.

Lemma closes_spec (u : uuid) (v : Visit.t) :
  Sql.closes u v = true <-> Visit.id v = u /\ Visit.check_out v = None.
Proof. unfold Sql.closes. now rewrite andb_true_iff, String.eqb_eq, is_null_spec. Qed.

Lemma close_at_open (u : uuid) (t : Z) (v : Visit.t) :
  Visit.id v = u -> Visit.check_out v = None ->
  close_at u t v = Visit.with_check_out (Some t) v.
Proof.
  intros H1 H2. unfold close_at.
  now rewrite (proj2 (closes_spec u v) (conj H1 H2)).
Qed.

Lemma close_at_other (u : uuid) (t : Z) (v : Visit.t) :
  Visit.id v <> u \/ Visit.check_out v <> None -> close_at u t v = v.
Proof.
  intros H. unfold close_at. destruct (Sql.closes u v) eqn:E; [|reflexivity].
  apply closes_spec in E. tauto.
Qed.

Lemma open_rows (u : uuid) (tbl : Sql.table) :
  List.filter (Sql.closes u) tbl <> []
  <-> exists v, In v tbl /\ Visit.id v = u /\ Visit.check_out v = None.
Proof.
  split.
  - destruct (List.filter (Sql.closes u) tbl) as [|v r] eqn:E; [congruence|]. intros _.
    assert (Hv : In v (List.filter (Sql.closes u) tbl)) by (rewrite E; now left).
    apply filter_In in Hv. exists v. now rewrite <- closes_spec.
  - intros [v [Hv Hc]] E. apply closes_spec in Hc.
    assert (Hin : In v (List.filter (Sql.closes u) tbl)) by now apply filter_In.
    now rewrite E in Hin.
Qed.

Lemma close_at_none (u : uuid) (t : Z) (tbl : Sql.table) :
  List.filter (Sql.closes u) tbl = [] -> map (close_at u t) tbl = tbl.
Proof.
  induction tbl as [|v tbl IH]; simpl; [reflexivity|].
  unfold close_at at 1. destruct (Sql.closes u v); [discriminate|].
  intros H. now rewrite IH.
Qed.

(** Once [UPDATE] has run, no row of that id is open. *)
Lemma close_at_closes_all (u : uuid) (t : Z) (tbl : Sql.table) :
  List.filter (Sql.closes u) (map (close_at u t) tbl) = [].
Proof.
  induction tbl as [|v tbl IH]; simpl; [reflexivity|].
  unfold close_at at 1. destruct (Sql.closes u v) eqn:E.
  - unfold Sql.closes in *. simpl. apply andb_true_iff in E as [E _]. rewrite E. simpl.
    exact IH.
  - rewrite E. exact IH.
Qed.

Lemma run_update (w : world) (p_id : string) (u : uuid) :
  Uuid.parse p_id = Some u ->
  pool_query (fun now => Sql.update_check_out now p_id) w
  = (Returned (map (Visit.with_check_out (Some (clock (elapse w))))
                   (List.filter (Sql.closes u) (visits w))),
     after_update w u).
Proof.
  intros Hu. unfold pool_query, Sql.update_check_out.
  rewrite (uuid_param_parse _ _ Hu), elapse_visits. reflexivity.
Qed.

Lemma after_update_visits (w : world) (u : uuid) :
  visits (after_update w u) = map (close_at u (clock (elapse w))) (visits w).
Proof. unfold after_update. now rewrite elapse_visits. Qed.

Lemma after_update_clock (w : world) (u : uuid) :
  clock (elapse w) <= clock (after_update w u).
Proof. unfold after_update. eapply Z.le_trans; [|apply elapse_clock]. simpl. lia. Qed.

Lemma quiet_checkout_mail_block (e : env) (visitId : string) :
  quiet (checkout_mail_block e visitId).
Proof. apply quiet_mail_block, harmless_checkout_mail. Qed.

(** A check-out with a [visitId] that is the text of a uuid. *)
Lemma checkout_run (e : env) (b : jsval) (s : string) (u : uuid) (w : world) :
  Js.get b "visitId" = JStr s ->
  s <> EmptyString ->
  Uuid.parse s = Some u ->
  checkout e b w
  = match List.filter (Sql.closes u) (visits w) with
    | [] =>
        (Returned (mk_response 404
           (error_reply "Active visit not found or already checked out")),
         after_update w u)
    | _ :: _ =>
        (Returned (mk_response 200 (checkout_reply u (Some (clock (elapse w))))),
         snd (checkout_mail_block e s (after_update w u)))
    end.
Proof.
  intros Hb Hs Hu. unfold checkout. cbv zeta. rewrite get_or_else, Hb.
  destruct s as [|c s]; [contradiction|].
  unfold try_catch at 1. unfold bind at 1. rewrite (run_update w _ u Hu).
  destruct (List.filter (Sql.closes u) (visits w)) as [|v rest] eqn:E; [reflexivity|].
  assert (Hv : In v (List.filter (Sql.closes u) (visits w))) by (rewrite E; now left).
  apply filter_In in Hv. destruct Hv as [_ Hv]. apply closes_spec in Hv as [Hid _].
  cbn [map]. unfold bind at 1.
  fold (checkout_mail_block e (String c s)).
  destruct (quiet_checkout_mail_block e (String c s) (after_update w u))
    as [[] [w3 [E3 _]]].
  rewrite E3. unfold json, ret. simpl. now rewrite Hid.
Qed.

(** Two requests whose [visitId] is a string, neither answered 404: the
    empty string is refused as a missing [visitId], and a text that is not
    a uuid makes the statement fail. *)
Lemma checkout_not_always_404 :
  fst (checkout Sample.env1 (JObj [("visitId", JStr EmptyString)]) Sample.world1)
  = Returned (mk_response 400 (error_reply "visitId is required"))
  /\ fst (checkout Sample.env1 (JObj [("visitId", JStr "abc")]) Sample.world1)
     = Returned (mk_response 500 (error_reply "Internal server error"))
  /\ forall v, In v (visits Sample.world1) -> Visit.id v <> EmptyString /\ Visit.id v <> "abc".
Proof.
  split; [vm_compute; reflexivity|]. split; [vm_compute; reflexivity|].
  vm_compute. intros v [<- | []]. split; discriminate.
Qed.

(** C1, amended.  For every check-out whose [visitId] is a non-empty text
    of a uuid [u]: the table after the request is the table before with
    [check_out] set to the time [t] of the statement in the rows of id [u]
    whose [check_out] was [NULL], every other row being as it was.  If
    there was such a row the answer is 200 with [u] and [t]; otherwise,
    whether no row has that id or the visit was already closed, the answer
    is 404 and the table is unchanged.  A second check-out with the same
    body is answered 404 and changes nothing. *)
Theorem checkout_transition (e : env) (b : jsval) (s : string) (u : uuid) (w : world) :
  Js.get b "visitId" = JStr s ->
  s <> EmptyString ->
  Uuid.parse s = Some u ->
  exists r t w',
    checkout e b w = (Returned r, w')
    /\ clock w <= t <= clock w'
    /\ visits w' = map (close_at u t) (visits w)
    /\ (forall v, Visit.id v = u -> Visit.check_out v = None ->
                  close_at u t v = Visit.with_check_out (Some t) v)
    /\ (forall v, Visit.id v <> u \/ Visit.check_out v <> None -> close_at u t v = v)
    /\ ((exists v, In v (visits w) /\ Visit.id v = u /\ Visit.check_out v = None) ->
        r = mk_response 200 (checkout_reply u (Some t)))
    /\ (~ (exists v, In v (visits w) /\ Visit.id v = u /\ Visit.check_out v = None) ->
        r = mk_response 404 (error_reply "Active visit not found or already checked out")
        /\ visits w' = visits w)
    /\ (forall e2, exists w'',
          checkout e2 b w'
          = (Returned (mk_response 404
               (error_reply "Active visit not found or already checked out")), w'')
          /\ visits w'' = visits w').
Proof.
  intros Hb Hs Hu.
  pose proof (checkout_run e b s u w Hb Hs Hu) as E.
  pose proof (open_rows u (visits w)) as Hopen.
  pose proof (elapse_clock w) as C0.
  pose proof (after_update_clock w u) as C1.
  assert (Hfinal : exists r w',
             checkout e b w = (Returned r, w')
             /\ visits w' = map (close_at u (clock (elapse w))) (visits w)
             /\ clock (elapse w) <= clock w'
             /\ (List.filter (Sql.closes u) (visits w) <> [] ->
                 r = mk_response 200 (checkout_reply u (Some (clock (elapse w)))))
             /\ (List.filter (Sql.closes u) (visits w) = [] ->
                 r = mk_response 404
                       (error_reply "Active visit not found or already checked out"))).
  { destruct (List.filter (Sql.closes u) (visits w)) as [|v rest] eqn:F.
    - eexists _, _. split; [exact E|]. split; [apply after_update_visits|].
      split; [exact C1|]. split; [congruence|reflexivity].
    - destruct (quiet_checkout_mail_block e s (after_update w u)) as [[] [w3 [E3 [V3 C3]]]].
      rewrite E3 in E. simpl in E. eexists _, w3. split; [exact E|].
      split; [now rewrite V3, after_update_visits|]. split; [lia|].
      split; [reflexivity|discriminate]. }
  destruct Hfinal as [r [w' [E' [V' [C' [H200 H404]]]]]].
  exists r, (clock (elapse w)), w'. split; [exact E'|]. split; [lia|].
  split; [exact V'|]. split; [apply close_at_open|]. split; [apply close_at_other|].
  split; [intros H; apply H200, Hopen, H|].
  split.
  - intros H.
    assert (F : List.filter (Sql.closes u) (visits w) = []).
    { destruct (List.filter (Sql.closes u) (visits w)) eqn:F; [reflexivity|].
      exfalso. apply H, Hopen. discriminate. }
    split; [now apply H404|]. rewrite V'. now apply close_at_none.
  - intros e2. rewrite (checkout_run e2 b s u w' Hb Hs Hu).
    rewrite V', close_at_closes_all. eexists. split; [reflexivity|].
    rewrite after_update_visits, V'. apply close_at_none, close_at_closes_all.
Qed.

Lemma checkout_transition_witness :
  Js.get (JObj [("visitId", JStr Sample.uuid1)]) "visitId" = JStr Sample.uuid1
  /\ Sample.uuid1 <> EmptyString
  /\ Uuid.parse Sample.uuid1 = Some Sample.uuid1
  /\ exists t w',
       checkout Sample.env1 (JObj [("visitId", JStr Sample.uuid1)]) Sample.world1
       = (Returned (mk_response 200 (checkout_reply Sample.uuid1 (Some t))), w')
       /\ visits w' = map (close_at Sample.uuid1 t) (visits Sample.world1).
Proof.
  assert (H1 : Js.get (JObj [("visitId", JStr Sample.uuid1)]) "visitId" = JStr Sample.uuid1)
    by reflexivity.
  assert (H2 : Sample.uuid1 <> EmptyString) by discriminate.
  assert (H3 : Uuid.parse Sample.uuid1 = Some Sample.uuid1) by (vm_compute; reflexivity).
  split; [exact H1|]. split; [exact H2|]. split; [exact H3|].
  destruct (checkout_transition Sample.env1 (JObj [("visitId", JStr Sample.uuid1)])
              Sample.uuid1 Sample.uuid1 Sample.world1 H1 H2 H3)
    as [r [t [w' [E [_ [V [_ [_ [H200 _]]]]]]]]].
  exists t, w'. rewrite <- H200; [split; [exact E|exact V]|].
  eexists. vm_compute. split; [left; reflexivity|]. split; reflexivity.
Defined.

End CheckOut.


(** ** Notification *)

Section Notification.

Import Server.

(** [recipientsForSite] returns the recipients, and may log that the
    matrix is invalid. *)
Lemma recipientsForSite_run (cfg : Mailer.config) (powerPlant : jsval) (w : world) :
  exists lines,
    Mailer.recipientsForSite cfg powerPlant w
    = (Returned (recipients cfg powerPlant),
       mk_world (visits w) (clock w) (latency w) (console w ++ lines))
    /\ (lines = [] \/ lines = [(WARN, "[mail] invalid NOTIFY_MATRIX")]).
Proof.
  assert (Hnil : mk_world (visits w) (clock w) (latency w) (console w ++ []) = w)
    by (rewrite app_nil_r; apply world_eta).
  unfold Mailer.recipientsForSite, recipients, try_catch, bind, lift, throw, ret,
    write_console, Js.ToString.
  destruct (Mailer.NOTIFY_MATRIX cfg) as [m|];
    [|exists [(WARN, "[mail] invalid NOTIFY_MATRIX")]; split; [reflexivity|now right]].
  destruct m;
    try (exists [(WARN, "[mail] invalid NOTIFY_MATRIX")]; split; [reflexivity|now right]);
    (destruct (Js.prints powerPlant);
     [|exists [(WARN, "[mail] invalid NOTIFY_MATRIX")]; split; [reflexivity|now right]];
     match goal with
     | |- context [Js.truthy ?raw] =>
         destruct (Js.truthy raw);
         [destruct (Js.prints raw);
          [exists []; rewrite Hnil; split; [reflexivity|now left]
          |exists [(WARN, "[mail] invalid NOTIFY_MATRIX")]; split; [reflexivity|now right]]
         |exists []; rewrite Hnil; split; [reflexivity|now left]]
     end).
Qed.

Lemma recipientsForSite_found (cfg : Mailer.config) (powerPlant : jsval) (w : world) :
  recipients cfg powerPlant <> [] ->
  Mailer.recipientsForSite cfg powerPlant w = (Returned (recipients cfg powerPlant), w).
Proof.
  intros Hne.
  unfold Mailer.recipientsForSite, try_catch, bind, lift, throw, ret, Js.ToString.
  unfold recipients in *.
  destruct (Mailer.NOTIFY_MATRIX cfg) as [m|]; [|contradiction].
  destruct m; try contradiction;
    (destruct (Js.prints powerPlant); [|contradiction];
     match goal with
     | |- context [Js.truthy ?raw] =>
         destruct (Js.truthy raw); [|contradiction];
         destruct (Js.prints raw); [reflexivity|contradiction]
     end).
Qed.

Lemma sendNotification_fails (cfg : Mailer.config) (err : js_error) (subject text : string)
    (toList : list string) (w : world) :
  delivery_fails cfg err ->
  Mailer.sendNotification cfg subject text toList w = (Thrown err, elapse w).
Proof.
  intros [[c [h Hh]] Hs]. unfold Mailer.sendNotification. now rewrite Hh, Hs.
Qed.

(** The mail block of a check-in, when there are recipients: the mail is
    written if its values print, and the transport rejects it. *)
Lemma checkin_mail_block_logs (e : env) (b : jsval) (err : js_error) (w : world) :
  delivery_fails (mailer e) err ->
  Js.truthy (Js.get b "powerPlant") = true ->
  recipients (mailer e) (Js.get b "powerPlant") <> [] ->
  checkin_mail_block e b w
  = (Returned tt,
     if mail_prints b then warned w err
     else mk_world (visits w) (clock w) (latency w)
            (console w ++ [(WARN, "[mail] send failed " +:+ message Js.type_error)])).
Proof.
  intros Hfail P Hrec. unfold checkin_mail_block, checkin_mail, try_catch. rewrite P.
  unfold bind at 1. rewrite (recipientsForSite_found _ _ _ Hrec).
  destruct (recipients (mailer e) (Js.get b "powerPlant")) as [|r rs];
    [contradiction|].
  rewrite trimmed_texts_spec. fold (mail_prints b).
  destruct (mail_prints b); [|reflexivity].
  rewrite bind_lift_returned.
  now rewrite (sendNotification_fails _ err _ _ _ _ Hfail).
Qed.

Lemma after_queries_console (w : world) (row : Visit.t) (b : jsval) :
  console (after_queries w row b) = console w.
Proof.
  unfold after_queries, after_insert.
  destruct (Js.truthy (Js.get b "powerPlant")); rewrite !elapse_console; simpl;
    rewrite ?elapse_console; reflexivity.
Qed.

Lemma select_by_id_first (s : string) (u : uuid) (tbl : Sql.table) :
  Uuid.parse s = Some u ->
  Sql.select_by_id s tbl
  = Returned (List.filter (fun v => String.eqb (Visit.id v) u) tbl).
Proof. intros Hu. unfold Sql.select_by_id. now rewrite (uuid_param_parse _ _ Hu). Qed.

Lemma checkout_mail_block_logs (e : env) (s : string) (u : uuid) (err : js_error)
    (w : world) :
  Uuid.parse s = Some u ->
  delivery_fails (mailer e) err ->
  (exists v, In v (visits w) /\ Visit.id v = u) ->
  (forall v, In v (visits w) -> Visit.id v = u ->
     exists c p, Visit.power_plant v = Some (String c p)
                 /\ recipients (mailer e) (JStr (String c p)) <> []) ->
  checkout_mail_block e s w = (Returned tt, warned (elapse (elapse w)) err).
Proof.
  intros Hu Hfail [v0 [Hv0 Hid0]] Hplant.
  unfold checkout_mail_block, checkout_mail, try_catch.
  unfold bind at 1. unfold pool_query, read_only.
  rewrite (select_by_id_first s u _ Hu), world_eta, elapse_visits.
  destruct (List.filter (fun v => String.eqb (Visit.id v) u) (visits w)) as [|v rest] eqn:F.
  - exfalso. assert (Hin : In v0 (List.filter (fun v => String.eqb (Visit.id v) u) (visits w))).
    { apply filter_In. split; [assumption|]. now apply String.eqb_eq. }
    now rewrite F in Hin.
  - assert (Hv : In v (List.filter (fun v => String.eqb (Visit.id v) u) (visits w)))
      by (rewrite F; now left).
    apply filter_In in Hv. destruct Hv as [Hv Hid]. apply String.eqb_eq in Hid.
    destruct (Hplant v Hv Hid) as [c [p [Hp Hrec]]]. rewrite Hp.
    unfold bind at 1. rewrite (recipientsForSite_found _ _ _ Hrec).
    destruct (recipients (mailer e) (JStr (String c p))) as [|r rs]; [contradiction|].
    now rewrite (sendNotification_fails _ err _ _ _ _ Hfail).
Qed.

(** C8.  When the state transition of a check-in or of a check-out
    succeeds, the answer and the table do not depend on the mailer: with
    any other configuration and transport the handler gives the same
    success answer and the same table, in which the transition is kept.
    When there are recipients and the transport rejects, or the mail
    cannot be written because a value of the body does not print, the
    only trace is one [[mail] send failed] line on the console. *)
Theorem notification_failure_is_logged_only :
  (forall (generated : string) (cfg : Mailer.config) (ix : Sql.index_check) (b : jsval)
          (w w' : world) (r : response),
     checkin (mk_env generated cfg ix) b w = (Returned r, w') ->
     status r = 201%nat ->
     exists row co,
       r = mk_response 201 (checkin_reply (Some row) co)
       /\ visits w' = visits w ++ [row]
       /\ (forall cfg', exists w'',
             checkin (mk_env generated cfg' ix) b w = (Returned r, w'')
             /\ visits w'' = visits w')
       /\ (forall err,
             delivery_fails cfg err ->
             Js.truthy (Js.get b "powerPlant") = true ->
             recipients cfg (Js.get b "powerPlant") <> [] ->
             console w'
             = console w
               ++ [(WARN, "[mail] send failed "
                          +:+ message (if mail_prints b then err else Js.type_error))]))
  /\ (forall (generated : string) (cfg : Mailer.config) (ix : Sql.index_check) (b : jsval)
             (s : string) (w : world) (u : uuid),
        Js.get b "visitId" = JStr s ->
        s <> EmptyString ->
        Uuid.parse s = Some u ->
        (exists v, In v (visits w) /\ Visit.id v = u /\ Visit.check_out v = None) ->
        exists t w',
          checkout (mk_env generated cfg ix) b w
          = (Returned (mk_response 200 (checkout_reply u (Some t))), w')
          /\ visits w' = map (close_at u t) (visits w)
          /\ (forall generated' cfg' ix', exists w'',
                checkout (mk_env generated' cfg' ix') b w
                = (Returned (mk_response 200 (checkout_reply u (Some t))), w'')
                /\ visits w'' = visits w')
          /\ (forall err,
                delivery_fails cfg err ->
                (forall v, In v (visits w) -> Visit.id v = u ->
                   exists c p, Visit.power_plant v = Some (String c p)
                               /\ recipients cfg (JStr (String c p)) <> []) ->
                console w' = console w ++ [(WARN, "[mail] send failed " +:+ message err)])).
Proof.
  split.
  - intros generated cfg ix b w w' r E S.
    destruct (checkin_201 _ b w w' r E S) as [u [t0 [Hacc [Hr [V _]]]]].
    set (row := inserted_row u (clock (elapse w)) b) in *.
    assert (Hrun : forall cfg0,
               checkin (mk_env generated cfg0 ix) b w
               = (Returned (mk_response 201
                    (checkin_reply (Some row)
                       (co_activity (clock (elapse (after_insert w row)))
                          (Js.get b "powerPlant") u (visits w ++ [row])))),
                  snd (checkin_mail_block (mk_env generated cfg0 ix) b
                         (after_queries w row b)))
               /\ visits (snd (checkin_mail_block (mk_env generated cfg0 ix) b
                                 (after_queries w row b)))
                  = visits w ++ [row]).
    { intros cfg0. split; [now apply checkin_run|].
      destruct (quiet_checkin_mail_block (mk_env generated cfg0 ix) b
                  (after_queries w row b)) as [[] [w3 [E3 [V3 _]]]].
      rewrite E3. simpl. rewrite V3. unfold after_queries.
      destruct (Js.truthy (Js.get b "powerPlant"));
        rewrite ?elapse_visits; apply after_insert_visits. }
    destruct (Hrun cfg) as [E0 V0]. rewrite E in E0. injection E0 as Er Ew.
    eexists _, _. split; [exact Er|]. split; [exact V|]. split.
    + intros cfg'. destruct (Hrun cfg') as [E' V']. eexists.
      split; [rewrite E', Er; reflexivity|]. congruence.
    + intros err Hfail P Hrec. rewrite Ew.
      rewrite (checkin_mail_block_logs (mk_env generated cfg ix) b err _ Hfail P Hrec).
      cbn [snd]. destruct (mail_prints b); simpl;
        now rewrite ?elapse_console, after_queries_console.
  - intros generated cfg ix b s w u Hb Hs Hu Hopen.
    assert (F : List.filter (Sql.closes u) (visits w) <> []) by now apply open_rows.
    assert (Hrun : forall e0,
               checkout e0 b w
               = (Returned (mk_response 200 (checkout_reply u (Some (clock (elapse w))))),
                  snd (checkout_mail_block e0 s (after_update w u)))
               /\ visits (snd (checkout_mail_block e0 s (after_update w u)))
                  = map (close_at u (clock (elapse w))) (visits w)).
    { intros e0. rewrite (checkout_run e0 b s u w Hb Hs Hu).
      destruct (List.filter (Sql.closes u) (visits w)); [contradiction|].
      split; [reflexivity|].
      destruct (quiet_checkout_mail_block e0 s (after_update w u)) as [[] [w3 [E3 [V3 _]]]].
      rewrite E3. simpl. now rewrite V3, after_update_visits. }
    destruct (Hrun (mk_env generated cfg ix)) as [E V].
    eexists _, _. split; [exact E|]. split; [exact V|]. split.
    + intros generated' cfg' ix'. destruct (Hrun (mk_env generated' cfg' ix')) as [E' V'].
      eexists. split; [exact E'|]. congruence.
    + intros err Hfail Hplant.
      rewrite (checkout_mail_block_logs (mk_env generated cfg ix) s u err _ Hu Hfail).
      * simpl. rewrite !elapse_console. unfold after_update. rewrite elapse_console.
        simpl. now rewrite elapse_console.
      * destruct Hopen as [v [Hv [Hid _]]]. rewrite after_update_visits.
        exists (close_at u (clock (elapse w)) v). split; [now apply in_map|].
        unfold close_at. destruct (Sql.closes u v); assumption.
      * intros v Hv Hid. rewrite after_update_visits in Hv.
        apply in_map_iff in Hv as [v1 [<- Hv1]].
        assert (Hid1 : Visit.id v1 = u)
          by (unfold close_at in Hid; destruct (Sql.closes u v1); assumption).
        destruct (Hplant v1 Hv1 Hid1) as [c [p [Hp Hrec]]]. exists c, p.
        split; [|assumption]. unfold close_at. destruct (Sql.closes u v1); assumption.
Qed.

End Notification.

Section NotificationWitness.

Import Server.

Lemma failing_mailer_fails :
  delivery_fails Sample.failing_mailer (mk_error None "connect ECONNREFUSED").
Proof. split; [now exists "s"%char, "mtp.example.org"|reflexivity]. Qed.

Lemma notification_failure_is_logged_only_witness :
  checkin Sample.env1 Sample.alice_bob Sample.world0 = (Returned Sample.reply1, Sample.world1)
  /\ status Sample.reply1 = 201%nat
  /\ delivery_fails Sample.failing_mailer (mk_error None "connect ECONNREFUSED")
  /\ (exists row co,
        Sample.reply1 = mk_response 201 (checkin_reply (Some row) co)
        /\ visits Sample.world1 = visits Sample.world0 ++ [row]
        /\ console Sample.world1
           = console Sample.world0 ++ [(WARN, "[mail] send failed connect ECONNREFUSED")])
  /\ (exists t w',
        checkout Sample.env1 (JObj [("visitId", JStr Sample.uuid1)]) Sample.world1
        = (Returned (mk_response 200 (checkout_reply Sample.uuid1 (Some t))), w')
        /\ visits w' = map (close_at Sample.uuid1 t) (visits Sample.world1)
        /\ console w'
           = console Sample.world1 ++ [(WARN, "[mail] send failed connect ECONNREFUSED")]).
Proof.
  assert (H1 : checkin Sample.env1 Sample.alice_bob Sample.world0
               = (Returned Sample.reply1, Sample.world1)) by (vm_compute; reflexivity).
  assert (H2 : status Sample.reply1 = 201%nat) by (vm_compute; reflexivity).
  assert (H3 : Uuid.parse Sample.uuid1 = Some Sample.uuid1) by (vm_compute; reflexivity).
  pose proof failing_mailer_fails as H4.
  split; [exact H1|]. split; [exact H2|]. split; [exact H4|]. split.
  - destruct (proj1 notification_failure_is_logged_only Sample.uuid1 Sample.failing_mailer
                Sample.small_rows Sample.alice_bob Sample.world0 Sample.world1 Sample.reply1
                H1 H2)
      as [row [co [Hr [V [_ Hlog]]]]].
    exists row, co. split; [exact Hr|]. split; [exact V|].
    apply (Hlog (mk_error None "connect ECONNREFUSED"));
      [exact H4|reflexivity|vm_compute; discriminate].
  - assert (H5 : exists v, In v (visits Sample.world1) /\ Visit.id v = Sample.uuid1
                           /\ Visit.check_out v = None).
    { eexists. vm_compute. split; [left; reflexivity|]. split; reflexivity. }
    destruct (proj2 notification_failure_is_logged_only Sample.uuid1 Sample.failing_mailer
                Sample.small_rows
                (JObj [("visitId", JStr Sample.uuid1)]) Sample.uuid1 Sample.world1
                Sample.uuid1 eq_refl ltac:(discriminate) H3 H5)
      as [t [w' [E [V [_ Hlog]]]]].
    exists t, w'. split; [exact E|]. split; [exact V|].
    apply (Hlog (mk_error None "connect ECONNREFUSED")); [exact H4|].
    intros v Hv _. vm_compute in Hv. destruct Hv as [<- | []].
    exists "S"%char, "iteA". split; [reflexivity|vm_compute; discriminate].
Defined.

End NotificationWitness.

(** ** The rate guard *)

Section RateGuardFacts.

Import RateGuard.

Lemma guard_other (now : Z) (key key' : string) (store : gmap string counter) :
  key' <> key -> snd (guard now key' store) !! key = store !! key.
Proof. intros H. unfold guard. simpl. now apply lookup_insert_ne. Qed.

Lemma guard_counted (now : Z) (key : string) (store : gmap string counter) (j : nat) (r : Z) :
  store !! key = Some (mk_counter j r) ->
  now < r ->
  guard now key store = ((j <? max)%nat, <[key := mk_counter (S j) r]> store).
Proof.
  intros Hk Hr. unfold guard, increment. rewrite Hk. simpl.
  destruct (Z.leb_spec r now); [lia|reflexivity].
Qed.

Lemma guard_opens (now : Z) (key : string) (store : gmap string counter) :
  no_window key now store ->
  guard now key store = (true, <[key := mk_counter 1 (now + windowMs)]> store).
Proof.
  unfold no_window, guard, increment. destruct (store !! key) as [c|]; [|reflexivity].
  intros H. destruct (Z.leb_spec (resetTime c) now); [reflexivity|lia].
Qed.

(** The key tells the address and the path, for addresses without a
    vertical bar. *)
Lemma key_injective (ip1 ip2 path1 path2 : string) :
  no_bar ip1 = true -> no_bar ip2 = true ->
  keyGenerator ip1 path1 = keyGenerator ip2 path2 -> ip1 = ip2 /\ path1 = path2.
Proof.
  unfold keyGenerator. revert ip2.
  induction ip1 as [|c a IH]; intros b Ha Hb E.
  - destruct b as [|d b]; [now injection E|].
    rewrite append_nil, !append_cons in E. injection E as <- _.
    simpl in Hb. discriminate.
  - destruct b as [|d b].
    + rewrite append_nil, !append_cons in E. injection E as -> _. simpl in Ha. discriminate.
    + rewrite !append_cons in E. injection E as <- E. simpl in Ha, Hb.
      apply andb_true_iff in Ha as [_ Ha]. apply andb_true_iff in Hb as [_ Hb].
      destruct (IH b Ha Hb E) as [-> ->]. now split.
Qed.

Lemma other_key (ip path : string) (a : arrival) :
  no_bar ip = true -> no_bar (from_ip a) = true -> is_from ip path a = false ->
  keyGenerator (from_ip a) (on_path a) <> keyGenerator ip path.
Proof.
  intros Hi Ha Hf E. destruct (key_injective _ _ _ _ Ha Hi E) as [E1 E2].
  unfold is_from in Hf. now rewrite E1, E2, !String.eqb_refl in Hf.
Qed.

(** A request counted in the open window of its key. *)
Lemma route_counted (ip path : string) (h : M Server.response)
    (store : gmap string counter) (w : world) (j : nat) (r : Z) :
  store !! keyGenerator ip path = Some (mk_counter j r) ->
  clock w / 1000 < r ->
  route ip path h store w
  = ((if (j <? max)%nat then h w else (Returned handler, w)),
     <[keyGenerator ip path := mk_counter (S j) r]> store).
Proof.
  intros Hk Hr. unfold route. rewrite (guard_counted _ _ _ j r Hk Hr).
  now destruct (j <? max)%nat.
Qed.

(** A request that opens a window. *)
Lemma route_opens (ip path : string) (h : M Server.response)
    (store : gmap string counter) (w : world) :
  no_window (keyGenerator ip path) (clock w / 1000) store ->
  route ip path h store w
  = (h w, <[keyGenerator ip path := mk_counter 1 (clock w / 1000 + windowMs)]> store).
Proof. intros H. unfold route. now rewrite (guard_opens _ _ _ H). Qed.

(** A request of another key. *)
Lemma route_other (ip path : string) (h : M Server.response)
    (store : gmap string counter) (w : world) (key : string) :
  keyGenerator ip path <> key ->
  snd (route ip path h store w) !! key = store !! key.
Proof.
  intros H. unfold route.
  pose proof (guard_other (clock w / 1000) key _ store H) as Ho.
  destruct (guard (clock w / 1000) (keyGenerator ip path) store) as [d store1].
  now destruct d.
Qed.

(** Requests served while the window of a key is open: those of the key
    are counted on from [j], whatever the requests of other keys between
    them. *)
Lemma serve_in_window (ip path : string) (r : Z) (requests : list arrival) :
  no_bar ip = true ->
  forall (store : gmap string counter) (j : nat),
    store !! keyGenerator ip path = Some (mk_counter j r) ->
    (forall a, In a requests -> is_from ip path a = true -> arrival_ms a < r) ->
    (forall a, In a requests -> is_from ip path a = false -> no_bar (from_ip a) = true) ->
    answers_to ip path requests (fst (serve store requests))
    = expected j (List.filter (is_from ip path) requests)
    /\ snd (serve store requests) !! keyGenerator ip path
       = Some (mk_counter (j + List.length (List.filter (is_from ip path) requests)) r).
Proof.
  intros Hip. induction requests as [|a rest IH]; intros store j Hk Ht Ho.
  - simpl. rewrite Nat.add_0_r. now split.
  - cbn [serve List.filter].
    destruct (is_from ip path a) eqn:Hf.
    + assert (Ea : from_ip a = ip /\ on_path a = path).
      { unfold is_from in Hf. apply andb_true_iff in Hf as [H1 H2].
        now apply String.eqb_eq in H1, H2. }
      destruct Ea as [Ei Ep].
      rewrite Ei, Ep, (route_counted ip path _ store _ j r Hk)
        by (apply (Ht a); [now left|exact Hf]).
      specialize (IH (<[keyGenerator ip path := mk_counter (S j) r]> store) (S j)
                     (lookup_insert_eq _ _ _)
                     (fun a' H => Ht a' (or_intror H))
                     (fun a' H => Ho a' (or_intror H))).
      destruct (serve (<[keyGenerator ip path := mk_counter (S j) r]> store) rest)
        as [answers store2].
      cbn [fst snd answers_to expected List.length] in *. rewrite Hf.
      destruct IH as [IH1 IH2]. split; [now rewrite IH1|].
      rewrite IH2. f_equal. f_equal. lia.
    + pose proof (route_other (from_ip a) (on_path a) (handler_of a) store (at_world a)
                    (keyGenerator ip path)
                    (other_key ip path a Hip (Ho a (or_introl eq_refl) Hf) Hf)) as Hsame.
      destruct (route (from_ip a) (on_path a) (handler_of a) store (at_world a))
        as [answer store1].
      cbn [snd] in Hsame.
      specialize (IH store1 j (eq_trans Hsame Hk)
                     (fun a' H => Ht a' (or_intror H))
                     (fun a' H => Ho a' (or_intror H))).
      destruct (serve store1 rest) as [answers store2].
      cbn [fst snd answers_to] in *. rewrite Hf. exact IH.
Qed.

Lemma nth_error_expected (requests : list arrival) :
  forall (from i : nat) (a : arrival),
    nth_error requests i = Some a ->
    nth_error (expected from requests) i
    = Some (if (from + i <? max)%nat then handler_of a (at_world a)
            else (Returned handler, at_world a)).
Proof.
  induction requests as [|x rest IH]; intros from i a H; [now destruct i|].
  destruct i as [|i]; simpl in H.
  - injection H as ->. simpl. now rewrite Nat.add_0_r.
  - simpl. rewrite (IH (S from) i a H). now rewrite Nat.add_succ_r.
Qed.

Lemma expected_length (requests : list arrival) (from : nat) :
  List.length (expected from requests) = List.length requests.
Proof. revert from. induction requests; intros from; simpl; [reflexivity|now rewrite IHrequests]. Qed.

(** C7.  Spec-modelled guard, keyed by [ip|path] and set at 5 requests per
    60 000 ms.  Take an address without a vertical bar and a path whose
    key has no window when a first request of theirs arrives, and let any
    further requests follow through their routes: requests of the same
    address and path, arriving within the 60 seconds that follow, and
    requests of other addresses or paths at any time.  Of the requests of
    the address and path, the first five reach their handlers and are
    answered by them; every later one is answered 429 with the fixed
    message, without its handler running.  Once the first request has
    aged out, the next request of the address and path reaches its
    handler. *)
Theorem rate_guard_window (store : gmap string counter) (ip path : string) (first : arrival)
    (requests : list arrival) :
  no_bar ip = true ->
  is_from ip path first = true ->
  no_window (keyGenerator ip path) (arrival_ms first) store ->
  (forall a, In a requests -> is_from ip path a = true ->
             arrival_ms first <= arrival_ms a < arrival_ms first + windowMs) ->
  (forall a, In a requests -> is_from ip path a = false -> no_bar (from_ip a) = true) ->
  let answers := answers_to ip path (first :: requests) (fst (serve store (first :: requests))) in
  let theirs := List.filter (is_from ip path) (first :: requests) in
  List.length answers = List.length theirs
  /\ (forall i a, nth_error theirs i = Some a ->
        nth_error answers i
        = Some (if (i <? 5)%nat then handler_of a (at_world a)
                else (Returned handler, at_world a)))
  /\ (forall a, is_from ip path a = true ->
        arrival_ms first + windowMs <= arrival_ms a ->
        fst (route (from_ip a) (on_path a) (handler_of a)
               (snd (serve store (first :: requests))) (at_world a))
        = handler_of a (at_world a))
  /\ handler
     = Server.mk_response 429
         (Server.error_reply "Too many submissions from this IP, please try again later.").
Proof.
  intros Hip Hfirst Hnone Ht Ho answers theirs.
  assert (Ef : from_ip first = ip /\ on_path first = path).
  { unfold is_from in Hfirst. apply andb_true_iff in Hfirst as [H1 H2].
    now apply String.eqb_eq in H1, H2. }
  destruct Ef as [Ei Ep].
  assert (Hrun : answers = expected 0 theirs
                 /\ snd (serve store (first :: requests)) !! keyGenerator ip path
                    = Some (mk_counter (List.length theirs) (arrival_ms first + windowMs))).
  { unfold answers, theirs. cbn [serve List.filter]. rewrite Hfirst, Ei, Ep.
    rewrite (route_opens ip path _ store _ Hnone).
    destruct (serve_in_window ip path (arrival_ms first + windowMs) requests Hip
                (<[keyGenerator ip path := mk_counter 1 (arrival_ms first + windowMs)]> store)
                1%nat (lookup_insert_eq _ _ _)
                (fun a H F => proj2 (Ht a H F)) Ho) as [H1 H2].
    fold (arrival_ms first).
    destruct (serve (<[keyGenerator ip path
                       := mk_counter 1 (arrival_ms first + windowMs)]> store) requests)
      as [xs st2].
    cbn [fst snd answers_to expected List.length] in *. rewrite Hfirst.
    split; [now rewrite H1|exact H2]. }
  destruct Hrun as [Ha Hs]. split; [rewrite Ha; apply expected_length|]. split; [|split].
  - intros i a Hi. rewrite Ha. rewrite (nth_error_expected theirs 0 i a Hi). reflexivity.
  - intros a Hf Hlate.
    assert (Ea : from_ip a = ip /\ on_path a = path).
    { unfold is_from in Hf. apply andb_true_iff in Hf as [H1 H2].
      now apply String.eqb_eq in H1, H2. }
    destruct Ea as [-> ->]. rewrite route_opens; [reflexivity|].
    unfold no_window. rewrite Hs. exact Hlate.
  - reflexivity.
Qed.

Lemma rate_guard_window_witness :
  let request (t : Z) (ip : string) :=
    mk_arrival (mk_world [] (t * 1000) [] []) ip "/api/visits/checkin"
               (Server.checkin Sample.env1 (JObj [])) in
  let first := request 1000 "203.0.113.7" in
  let requests :=
    [request 2000 "203.0.113.7"; request 2500 "198.51.100.9"; request 3000 "203.0.113.7";
     request 4000 "203.0.113.7"; request 5000 "203.0.113.7"; request 6000 "203.0.113.7"] in
  no_bar "203.0.113.7" = true
  /\ map (fun x => match fst x with
                   | Returned r => Server.status r
                   | Thrown _ => 0%nat
                   end)
         (answers_to "203.0.113.7" "/api/visits/checkin" (first :: requests)
            (fst (serve ∅ (first :: requests))))
     = [400; 400; 400; 400; 400; 429]%nat
  /\ fst (route "203.0.113.7" "/api/visits/checkin" (handler_of (request 61000 "203.0.113.7"))
            (snd (serve ∅ (first :: requests)))
            (at_world (request 61000 "203.0.113.7")))
     = handler_of (request 61000 "203.0.113.7") (at_world (request 61000 "203.0.113.7")).
Proof.
  intros request first requests.
  assert (H1 : no_bar "203.0.113.7" = true) by reflexivity.
  assert (H2 : is_from "203.0.113.7" "/api/visits/checkin" first = true) by reflexivity.
  assert (H3 : no_window (keyGenerator "203.0.113.7" "/api/visits/checkin")
                 (arrival_ms first) ∅) by exact Logic.I.
  assert (H4 : forall a, In a requests ->
                 is_from "203.0.113.7" "/api/visits/checkin" a = true ->
                 arrival_ms first <= arrival_ms a < arrival_ms first + windowMs).
  { intros a H _. unfold requests in H. simpl in H.
    repeat (destruct H as [<- | H]; [vm_compute; split; [discriminate|reflexivity]|]).
    contradiction. }
  assert (H5 : forall a, In a requests ->
                 is_from "203.0.113.7" "/api/visits/checkin" a = false ->
                 no_bar (from_ip a) = true).
  { intros a H _. unfold requests in H. simpl in H.
    repeat (destruct H as [<- | H]; [reflexivity|]). contradiction. }
  destruct (rate_guard_window ∅ "203.0.113.7" "/api/visits/checkin" first requests
              H1 H2 H3 H4 H5) as [_ [_ [Hnext _]]].
  split; [exact H1|]. split; [vm_compute; reflexivity|].
  apply (Hnext (request 61000 "203.0.113.7")); [reflexivity|].
  vm_compute. discriminate.
Defined.

End RateGuardFacts.

(** ** Stored text *)

Section StoredText.

Import Server.

(** What a check-out does to the table, whatever the request. *)
Lemma checkout_table (e : env) (b : jsval) (w : world) :
  visits (snd (checkout e b w)) = visits w
  \/ exists u t, visits (snd (checkout e b w)) = map (close_at u t) (visits w).
Proof.
  destruct (Js.get b "visitId") as [| | | |s| |] eqn:Hb;
    try (left; unfold checkout; cbv zeta; rewrite get_or_else, Hb; reflexivity).
  destruct s as [|c s];
    [left; unfold checkout; cbv zeta; rewrite get_or_else, Hb; reflexivity|].
  destruct (Uuid.parse (String c s)) as [u|] eqn:Hu.
  - right. exists u, (clock (elapse w)).
    rewrite (checkout_run e b (String c s) u w Hb ltac:(discriminate) Hu).
    destruct (List.filter (Sql.closes u) (visits w)) as [|v rest].
    + apply after_update_visits.
    + destruct (quiet_checkout_mail_block e (String c s) (after_update w u))
        as [[] [w3 [E3 [V3 _]]]].
      rewrite E3. simpl. now rewrite V3, after_update_visits.
  - left. unfold checkout. cbv zeta. rewrite get_or_else, Hb.
    destruct (uuid_param_none _ Hu) as [err Herr].
    unfold try_catch at 1. unfold bind at 1. unfold pool_query at 1, Sql.update_check_out.
    rewrite Herr. simpl. now rewrite !elapse_visits.
Qed.

(** The listing never writes. *)
Lemma active_site_table (q : jsval) (w : world) :
  visits (snd (active_site q w)) = visits w.
Proof.
  unfold active_site.
  destruct (Js.get q "powerPlant") as [| | | |p| |]; try reflexivity.
  destruct (nonempty (trim p)); [|reflexivity].
  unfold try_catch, bind, pool_query, read_only, json, ret, Sql.select_active_site, Sql.bound.
  cbn [forallb]. destruct (Sql.nul_free (trim p)); simpl; now rewrite !elapse_visits.
Qed.

(** No table that the handlers can produce holds an empty string in an
    optional column. *)
Lemma reachable_no_empty_text (tbl : Sql.table) :
  reachable tbl -> forall v, In v tbl -> no_empty_text v.
Proof.
  induction 1 as [|e b w Hr IH|e b w Hr IH|q w Hr IH]; intros v Hv.
  - contradiction.
  - destruct (checkin_cases e b w) as [r [w' [E Hcases]]].
    rewrite E in Hv. simpl in Hv.
    destruct Hcases as [[_ [_ [_ W]]] | [[_ [V _]] | [u [t [_ [_ [V _]]]]]]].
    + subst w'. now apply IH.
    + rewrite V in Hv. now apply IH.
    + rewrite V in Hv. apply in_app_or in Hv as [Hv | [<- | []]]; [now apply IH|].
      apply inserted_row_no_empty_text.
  - destruct (checkout_table e b w) as [V | [u [t V]]]; rewrite V in Hv.
    + now apply IH.
    + apply in_map_iff in Hv as [v0 [<- Hv0]]. unfold close_at.
      destruct (Sql.closes u v0); [apply with_check_out_no_empty_text|]; now apply IH.
  - rewrite active_site_table in Hv. now apply IH.
Qed.

(** C10.  In the row that a check-in answered 201 has created, each of
    the seven optional columns is [NULL] when its field is absent or is
    the empty string, and none of them holds the empty string; hence no
    table that the handlers produce from the empty table holds an empty
    string in these columns. *)
Theorem optional_fields_null :
  (forall (e : env) (b : jsval) (w w' : world) (r : response),
     checkin e b w = (Returned r, w') ->
     status r = 201%nat ->
     exists row co,
       r = mk_response 201 (checkin_reply (Some row) co)
       /\ visits w' = visits w ++ [row]
       /\ (forall f col, In (f, col) optional_columns ->
             (absent_or_empty (Js.get b f) -> col row = None)
             /\ col row <> Some EmptyString))
  /\ (forall tbl v f col,
        reachable tbl -> In v tbl -> In (f, col) optional_columns ->
        col v <> Some EmptyString).
Proof.
  split.
  - intros e b w w' r E S.
    destruct (checkin_201 e b w w' r E S) as [u [t [_ [-> [V _]]]]].
    eexists _, _. split; [reflexivity|]. split; [exact V|].
    intros f col Hin. split; [|now apply inserted_row_no_empty_text with (f := f)].
    intros Habs. simpl in Hin.
    repeat (destruct Hin as [[= <- <-] | Hin];
            [cbn [inserted_row Visit.reason Visit.comment Visit.power_plant
                    Visit.equipment_name Visit.maintenance_company Visit.status
                    Visit.malfunction_type];
             destruct Habs as [-> | ->]; reflexivity|]).
    contradiction.
  - intros tbl v f col Hr Hv Hin. exact (reachable_no_empty_text tbl Hr v Hv f col Hin).
Qed.

Lemma optional_fields_null_witness :
  checkin Sample.env1 Sample.alice_bob Sample.world0 = (Returned Sample.reply1, Sample.world1)
  /\ status Sample.reply1 = 201%nat
  /\ reachable (visits Sample.world1)
  /\ (exists row co,
        Sample.reply1 = mk_response 201 (checkin_reply (Some row) co)
        /\ visits Sample.world1 = visits Sample.world0 ++ [row]
        /\ Visit.reason row = None /\ Visit.comment row = None)
  /\ (forall v, In v (visits Sample.world1) -> Visit.reason v <> Some EmptyString).
Proof.
  assert (H1 : checkin Sample.env1 Sample.alice_bob Sample.world0
               = (Returned Sample.reply1, Sample.world1)) by (vm_compute; reflexivity).
  assert (H2 : status Sample.reply1 = 201%nat) by (vm_compute; reflexivity).
  assert (H4 : reachable (visits Sample.world1)).
  { replace Sample.world1 with (snd (checkin Sample.env1 Sample.alice_bob Sample.world0))
      by (now rewrite H1).
    exact (reach_checkin Sample.env1 Sample.alice_bob Sample.world0 reach_empty). }
  split; [exact H1|]. split; [exact H2|]. split; [exact H4|]. split.
  - destruct (proj1 optional_fields_null Sample.env1 Sample.alice_bob Sample.world0
                Sample.world1 Sample.reply1 H1 H2) as [row [co [E [V Hcols]]]].
    exists row, co. split; [exact E|]. split; [exact V|]. split.
    + apply (Hcols "reason" Visit.reason); [now left|]. right. reflexivity.
    + apply (Hcols "comment" Visit.comment); [right; now left|]. left. reflexivity.
  - intros v Hv.
    exact (proj2 optional_fields_null (visits Sample.world1) v "reason" Visit.reason H4 Hv
             (or_introl eq_refl)).
Defined.

End StoredText.

(* ================================================================= *)
(** * Further properties *)

(** ** Comma-separated lists *)

Section CommaLists.

Import Server Config.

Lemma all_units_trimStart (p : ascii -> bool) (s : string) :
  all_units p s = true -> all_units p (trimStart s) = true.
Proof.
  induction s as [|c r IH]; simpl; [reflexivity|].
  intros [Hc Hr]%andb_true_iff. destruct (is_ws c); [now apply IH|].
  simpl. now rewrite Hc, Hr.
Qed.

Lemma all_units_trimEnd (p : ascii -> bool) (s : string) :
  all_units p s = true -> all_units p (trimEnd s) = true.
Proof.
  induction s as [|c r IH]; simpl; [reflexivity|].
  intros [Hc Hr]%andb_true_iff. specialize (IH Hr).
  destruct (trimEnd r) as [|b t].
  - destruct (is_ws c); simpl; [reflexivity|]. now rewrite Hc.
  - cbn [all_units] in *. now rewrite Hc, IH.
Qed.

Lemma all_units_trim (p : ascii -> bool) (s : string) :
  all_units p s = true -> all_units p (trim s) = true.
Proof. intros H. now apply all_units_trimEnd, all_units_trimStart. Qed.

(** The pieces that [split] cuts at commas hold no comma. *)
Lemma split_pieces_no_comma (s : string) : Forall (fun x => no_comma x = true) (split "," s).
Proof.
  induction s as [|c r IH]; simpl; [repeat constructor|].
  destruct (Ascii.eqb c ",") eqn:E; [now constructor|].
  destruct (split_cons "," r) as [x [rest Hs]]. rewrite Hs in *.
  inversion IH; subst. constructor; [|assumption].
  unfold no_comma in *. simpl. now rewrite E.
Qed.

(** Every entry of a normalized list is normal. *)
Lemma comma_list_normal (s : string) : Forall normal_entry (comma_list s).
Proof.
  unfold comma_list. apply Forall_forall. intros x Hx.
  apply filter_In in Hx as [Hx Hne]. apply in_map_iff in Hx as [y [<- Hy]].
  split; [now apply nonempty_true|]. split; [apply trim_idempotent|].
  apply all_units_trim.
  pose proof (split_pieces_no_comma s) as H. rewrite Forall_forall in H. now apply H.
Qed.

Lemma no_blank_pieces (pieces : list string) :
  List.filter nonempty (map trim pieces) = [] -> Forall (fun p => all_ws p = true) pieces.
Proof.
  induction pieces as [|p l IH]; simpl; [constructor|].
  destruct (trim p) as [|c r] eqn:E; simpl; [|discriminate].
  intros H. constructor; [now apply trim_empty|now apply IH].
Qed.

Lemma separators_split (s : string) :
  Forall (fun p => all_ws p = true) (split "," s) -> only_separators s = true.
Proof.
  induction s as [|c r IH]; simpl; [reflexivity|].
  destruct (Ascii.eqb c ",") eqn:E; simpl.
  - intros H. inversion H; subst. now apply IH.
  - destruct (split_cons "," r) as [p [rest Hs]]. rewrite Hs in *.
    intros H. inversion H as [|? ? Hp Hrest]; subst. simpl in Hp.
    apply andb_true_iff in Hp as [Hc Hp]. rewrite Hc. simpl. apply IH.
    now constructor.
Qed.

(** A normalized list is empty exactly for a string of commas and white
    space. *)
Lemma comma_list_nil (s : string) : comma_list s = [] <-> only_separators s = true.
Proof.
  unfold comma_list. split.
  - intros H. now apply separators_split, no_blank_pieces.
  - intros H. now apply blank_pieces, split_separators.
Qed.

Lemma split_no_comma_append (x r : string) :
  no_comma x = true -> split "," (x +:+ String "," r) = x :: split "," r.
Proof.
  induction x as [|c x IH]; intros H; [reflexivity|].
  unfold no_comma in H. simpl in H. apply andb_true_iff in H as [Hc Hx].
  apply negb_true_iff in Hc. rewrite append_cons. simpl. rewrite Hc.
  unfold no_comma in IH. now rewrite (IH Hx).
Qed.

Lemma split_no_comma (x : string) : no_comma x = true -> split "," x = [x].
Proof.
  induction x as [|c x IH]; intros H; [reflexivity|].
  unfold no_comma in H. simpl in H. apply andb_true_iff in H as [Hc Hx].
  apply negb_true_iff in Hc. simpl. rewrite Hc. unfold no_comma in IH. now rewrite (IH Hx).
Qed.

(** Cutting at commas what [join] put together with [sep] made of a comma
    and then white space: the names come back, with that white space in
    front of all but the first. *)
Lemma split_join (pad : string) (names : list string) :
  names <> [] ->
  Forall (fun x => no_comma x = true) names ->
  no_comma pad = true ->
  exists first rest,
    names = first :: rest
    /\ split "," (join (String "," pad) names) = first :: map (fun x => pad +:+ x) rest.
Proof.
  intros Hne Hall Hpad. destruct names as [|first rest]; [contradiction|].
  exists first, rest. split; [reflexivity|]. clear Hne.
  revert first Hall. induction rest as [|y rest IH]; intros first Hall.
  - simpl. inversion Hall; subst. now apply split_no_comma.
  - inversion Hall as [|? ? Hf Hrest]; subst.
    change (join (String "," pad) (first :: y :: rest))
      with (first +:+ String "," pad +:+ join (String "," pad) (y :: rest)).
    change (String "," pad +:+ join (String "," pad) (y :: rest))
      with (String "," (pad +:+ join (String "," pad) (y :: rest))).
    rewrite (split_no_comma_append first _ Hf). f_equal.
    specialize (IH y Hrest).
    destruct rest as [|z rest].
    + simpl join in *. inversion Hrest; subst.
      rewrite split_no_comma; [reflexivity|].
      unfold no_comma in *. clear - Hpad H1.
      induction pad as [|c pad IHp]; [assumption|].
      simpl in *. apply andb_true_iff in Hpad as [Hc Hp]. rewrite Hc. now apply IHp.
    + change (join (String "," pad) (y :: z :: rest))
        with (y +:+ String "," pad +:+ join (String "," pad) (z :: rest)) in *.
      change (String "," pad +:+ join (String "," pad) (z :: rest))
        with (String "," (pad +:+ join (String "," pad) (z :: rest))) in *.
      inversion Hrest as [|? ? Hy Hrest']; subst.
      rewrite (split_no_comma_append y _ Hy) in IH. injection IH as IH.
      rewrite <- append_assoc.
      assert (Hpy : no_comma (pad +:+ y) = true).
      { unfold no_comma in *. clear - Hpad Hy.
        induction pad as [|c pad IHp]; [assumption|].
        rewrite append_cons. simpl in *. apply andb_true_iff in Hpad as [Hc Hp].
        rewrite Hc. now apply IHp. }
      rewrite (split_no_comma_append (pad +:+ y) _ Hpy). cbn [map]. f_equal. exact IH.
Qed.

Lemma trim_pad (pad x : string) : all_ws pad = true -> trim (pad +:+ x) = trim x.
Proof.
  induction pad as [|c pad IH]; intros H; [reflexivity|].
  simpl in H. apply andb_true_iff in H as [Hc Hp]. rewrite append_cons.
  unfold trim in *. simpl. rewrite Hc. now apply IH.
Qed.

(** Reading back a list that was joined with a comma and some white
    space. *)
Lemma comma_list_join (pad : string) (names : list string) :
  Forall (fun x => no_comma x = true) names ->
  all_ws pad = true -> no_comma pad = true ->
  comma_list (join (String "," pad) names) = List.filter nonempty (map trim names).
Proof.
  intros Hall Hws Hpad. destruct names as [|first rest] eqn:N; [reflexivity|].
  destruct (split_join pad (first :: rest) ltac:(discriminate) Hall Hpad)
    as [f [r [[= <- <-] Hs]]].
  unfold comma_list. rewrite Hs. cbn [map]. rewrite map_map.
  f_equal. f_equal. apply map_ext. intros x. now apply trim_pad.
Qed.

End CommaLists.

(** ** Technicians: the two accepted forms *)

Section TechnicianForms.

Import Server Config.

Lemma get_first (k : string) (v : jsval) (rest : list (string * jsval)) :
  Js.get (JObj ((k, v) :: rest)) k = v.
Proof. simpl. now rewrite String.eqb_refl. Qed.

Lemma get_later (k k' : string) (v : jsval) (rest : list (string * jsval)) :
  String.eqb k k' = false -> Js.get (JObj ((k', v) :: rest)) k = Js.get (JObj rest) k.
Proof. intros H. simpl. now rewrite H. Qed.

Lemma techs_of_string (s : string) : techs_of (JStr s) = comma_list s.
Proof. reflexivity. Qed.

Lemma techs_of_array (names : list string) :
  techs_of (JArr (map JStr names)) = List.filter nonempty (map trim names).
Proof. simpl. now rewrite map_map. Qed.

(** X1.  A check-in reads its technicians the same way from an array of
    names and from the string that joins these names with commas, with or
    without white space after each comma, as long as no name holds a
    comma: the two requests have the same answer and leave the same
    world. *)
Theorem technicians_string_or_array (e : env) (fields : list (string * jsval))
    (names : list string) (pad : string) (w : world) :
  Forall (fun x => no_comma x = true) names ->
  all_ws pad = true ->
  checkin e (JObj (("technicians", JStr (join (String "," pad) names)) :: fields)) w
  = checkin e (JObj (("technicians", JArr (map JStr names)) :: fields)) w.
Proof.
  intros Hall Hpad.
  assert (Hpc : no_comma pad = true).
  { clear - Hpad. unfold no_comma. induction pad as [|c pad IH]; [reflexivity|].
    simpl in *. apply andb_true_iff in Hpad as [Hc Hp]. rewrite (IH Hp), andb_true_r.
    destruct c as [[] [] [] [] [] [] [] []]; try discriminate Hc; reflexivity. }
  unfold checkin. cbv zeta. rewrite !get_or_else, !get_first.
  rewrite !(get_later "turbineId"), !(get_later "reason"), !(get_later "comment"),
    !(get_later "powerPlant"), !(get_later "equipmentName"),
    !(get_later "maintenanceCompany"), !(get_later "status"),
    !(get_later "malfunctionType") by reflexivity.
  assert (Hp : forallb Js.prints (map JStr names) = true)
    by (clear; induction names as [|x names IH]; [reflexivity|exact IH]).
  rewrite !techs_spec, Hp.
  rewrite techs_of_string, techs_of_array, (comma_list_join pad names Hall Hpad Hpc).
  reflexivity.
Qed.

Lemma technicians_string_or_array_witness :
  Forall (fun x => no_comma x = true) two_names
  /\ all_ws " " = true
  /\ checkin Sample.env1 (JObj [("technicians", JStr "Alice, Bob"); ("powerPlant", JStr "SiteA")])
       Sample.world0
     = checkin Sample.env1
         (JObj [("technicians", JArr [JStr "Alice"; JStr "Bob"]); ("powerPlant", JStr "SiteA")])
         Sample.world0.
Proof.
  assert (H1 : Forall (fun x => no_comma x = true) two_names)
    by (repeat constructor).
  assert (H2 : all_ws " " = true) by reflexivity.
  split; [exact H1|]. split; [exact H2|].
  exact (technicians_string_or_array Sample.env1 [("powerPlant", JStr "SiteA")] two_names " "
           Sample.world0 H1 H2).
Defined.

End TechnicianForms.

(** ** Start-up configuration *)

Section Configuration.

Import Config.

(** X2.  CORS is open to every origin exactly when [CORS_ORIGIN] is unset
    or holds nothing but commas and white space; otherwise it is limited
    to the origins listed, each trimmed, none empty. *)
Theorem cors_policy (CORS_ORIGIN : option string) :
  (cors_setup CORS_ORIGIN = allow_all
   <-> CORS_ORIGIN = None \/ exists s, CORS_ORIGIN = Some s /\ only_separators s = true)
  /\ (forall origins, cors_setup CORS_ORIGIN = allow_origins origins ->
        origins <> [] /\ Forall normal_entry origins
        /\ exists s, CORS_ORIGIN = Some s /\ origins = comma_list s).
Proof.
  unfold cors_setup, corsOrigins.
  destruct CORS_ORIGIN as [[|c s]|].
  - split; [split; [intros _; right; now exists EmptyString|reflexivity]|discriminate].
  - destruct (comma_list (String c s)) as [|o os] eqn:E.
    + split; [|discriminate]. split; [|reflexivity].
      intros _. right. exists (String c s). split; [reflexivity|]. now apply comma_list_nil.
    + split.
      * split; [discriminate|]. intros [H | [s' [[= <-] H]]]; [discriminate|].
        apply comma_list_nil in H. congruence.
      * intros origins [= <-]. split; [discriminate|]. rewrite <- E.
        split; [apply comma_list_normal|]. now exists (String c s).
  - split; [split; [now left|reflexivity]|discriminate].
Qed.






End Configuration.

(** ** What each handler does to the world *)

Section Effects.

Import Server.

Lemma advancing_ret {A : Type} (a : A) : advancing (ret a).
Proof. intros w. simpl. lia. Qed.

Lemma advancing_bind {A B : Type} (m : M A) (k : A -> M B) :
  advancing m -> (forall a, advancing (k a)) -> advancing (bind m k).
Proof.
  intros Hm Hk w. unfold bind. specialize (Hm w). destruct (m w) as [[a|err] w1]; simpl in *.
  - specialize (Hk a w1). lia.
  - exact Hm.
Qed.

Lemma advancing_try_catch {A : Type} (m : M A) (h : js_error -> M A) :
  advancing m -> (forall err, advancing (h err)) -> advancing (try_catch m h).
Proof.
  intros Hm Hh w. unfold try_catch. specialize (Hm w).
  destruct (m w) as [[a|err] w1]; simpl in *; [exact Hm|].
  specialize (Hh err w1). lia.
Qed.

Lemma advancing_write_console (lvl : log_level) (line : string) :
  advancing (write_console lvl line).
Proof. intros w. simpl. lia. Qed.

Lemma advancing_pool_query {A : Type} (stmt : Z -> Sql.table -> outcome A * Sql.table) :
  advancing (pool_query stmt).
Proof.
  intros w. unfold pool_query.
  destruct (stmt (clock (elapse w)) (visits (elapse w))) as [r tbl]. cbn [snd].
  pose proof (elapse_clock w).
  pose proof (elapse_clock (mk_world tbl (clock (elapse w)) (latency (elapse w))
                                     (console (elapse w)))) as H1.
  simpl in H1. lia.
Qed.

Lemma harmless_advancing {A : Type} (m : M A) : harmless m -> advancing m.
Proof. intros H w. destruct (H w) as [r [w' [E [_ C]]]]. now rewrite E. Qed.

Ltac advance :=
  repeat first
    [ apply harmless_advancing, harmless_checkin_mail
    | apply harmless_advancing, harmless_checkout_mail
    | apply advancing_ret
    | apply advancing_write_console
    | apply advancing_pool_query
    | apply advancing_try_catch
    | apply advancing_bind
    | progress intros
    | match goal with
      | |- advancing (match ?x with _ => _ end) => destruct x
      end ].

Lemma advancing_checkin (e : env) (b : jsval) : advancing (checkin e b).
Proof.
  intros w. destruct (checkin_cases e b w) as [r [w' [E Hcases]]]. rewrite E. cbn [snd].
  pose proof (elapse_clock w).
  destruct Hcases as [[_ [_ [_ ->]]] | [[_ [_ [C _]]] | [u [t [_ [_ [_ C]]]]]]]; lia.
Qed.

Lemma advancing_checkout (e : env) (b : jsval) : advancing (checkout e b).
Proof. unfold checkout, json. cbv zeta. advance. Qed.

Lemma advancing_active_site (q : jsval) : advancing (active_site q).
Proof. unfold active_site, json. advance. Qed.

Lemma advancing_visit_by_id (id : string) : advancing (Reads.visit_by_id id).
Proof. unfold Reads.visit_by_id, Reads.json. advance. Qed.

Lemma advancing_active_visit (q : jsval) : advancing (Reads.active_visit q).
Proof. unfold Reads.active_visit, Reads.json. advance. Qed.

(** The clock never goes back. *)
Lemma after_clock (r : request) (w : world) : clock w <= clock (after r w).
Proof.
  destruct r; simpl;
    [apply advancing_checkin|apply advancing_checkout|apply advancing_active_site
    |apply advancing_visit_by_id|apply advancing_active_visit].
Qed.

(** A check-in leaves the table as it was or appends the row it built,
    under an id that was free. *)
Lemma checkin_effect (e : env) (b : jsval) (w : world) :
  visits (snd (checkin e b w)) = visits w
  \/ exists u,
       Uuid.parse (randomUUID e) = Some u
       /\ Sql.has_id u (visits w) = false
       /\ techs_of (Js.get b "technicians") <> []
       /\ visits (snd (checkin e b w))
          = visits w ++ [inserted_row u (clock (elapse w)) b]
       /\ clock (elapse w) <= clock (snd (checkin e b w)).
Proof.
  destruct (checkin_cases e b w) as [r [w' [E Hcases]]]. rewrite E. cbn [snd].
  destruct Hcases as [[_ [_ [_ ->]]] | [[_ [V _]] | [u [t [Hacc [_ [V C]]]]]]];
    [now left|now left|].
  right. exists u. destruct Hacc as [_ [Htechs [Hu [Hid _]]]].
  repeat split; try assumption. lia.
Qed.

(** A check-out leaves the table as it was or closes, at the time of its
    statement, the open rows of one id. *)
Lemma checkout_effect (e : env) (b : jsval) (w : world) :
  visits (snd (checkout e b w)) = visits w
  \/ exists u, visits (snd (checkout e b w))
               = map (close_at u (clock (elapse w))) (visits w)
               /\ clock (elapse w) <= clock (snd (checkout e b w)).
Proof.
  destruct (Js.get b "visitId") as [| | | |s| |] eqn:Hb;
    try (left; unfold checkout; cbv zeta; rewrite get_or_else, Hb; reflexivity).
  destruct s as [|c s];
    [left; unfold checkout; cbv zeta; rewrite get_or_else, Hb; reflexivity|].
  destruct (Uuid.parse (String c s)) as [u|] eqn:Hu.
  - right. exists u.
    rewrite (checkout_run e b (String c s) u w Hb ltac:(discriminate) Hu).
    pose proof (after_update_clock w u) as Cu.
    destruct (List.filter (Sql.closes u) (visits w)) as [|v rest].
    + split; [apply after_update_visits|exact Cu].
    + destruct (quiet_checkout_mail_block e (String c s) (after_update w u))
        as [[] [w3 [E3 [V3 C3]]]].
      rewrite E3. simpl. rewrite V3, after_update_visits. split; [reflexivity|lia].
  - left. unfold checkout. cbv zeta. rewrite get_or_else, Hb.
    destruct (uuid_param_none _ Hu) as [err Herr].
    unfold try_catch at 1. unfold bind at 1. unfold pool_query at 1, Sql.update_check_out.
    rewrite Herr. simpl. now rewrite !elapse_visits.
Qed.

Lemma visit_by_id_table (id : string) (w : world) :
  visits (snd (Reads.visit_by_id id w)) = visits w.
Proof.
  unfold Reads.visit_by_id, try_catch, bind, pool_query, read_only, Reads.json, ret.
  rewrite world_eta.
  destruct (Sql.select_by_id id (visits (elapse w))) as [[|row rows]|err]; simpl;
    now rewrite !elapse_visits.
Qed.

Lemma active_visit_table (q : jsval) (w : world) :
  visits (snd (Reads.active_visit q w)) = visits w.
Proof.
  unfold Reads.active_visit.
  destruct (Js.get q "turbineId") as [| | | |s| |]; try reflexivity.
  destruct (nonempty (trim s)); [|reflexivity].
  unfold try_catch, bind, pool_query, read_only, Reads.json, ret. rewrite world_eta.
  destruct (Reads.select_active (trim s) (visits (elapse w))) as [[|row rows]|err]; simpl;
    now rewrite !elapse_visits.
Qed.

(** The three things that can happen to the table in one request. *)
Lemma after_effect (r : request) (w : world) :
  visits (after r w) = visits w
  \/ (exists e b u,
        r = do_checkin e b
        /\ Uuid.parse (randomUUID e) = Some u
        /\ Sql.has_id u (visits w) = false
        /\ techs_of (Js.get b "technicians") <> []
        /\ visits (after r w) = visits w ++ [inserted_row u (clock (elapse w)) b]
        /\ clock (elapse w) <= clock (after r w))
  \/ (exists u, visits (after r w) = map (close_at u (clock (elapse w))) (visits w)
                /\ clock (elapse w) <= clock (after r w)).
Proof.
  destruct r as [e b|e b|q|id|q]; simpl.
  - destruct (checkin_effect e b w) as [H | [u H]]; [now left|].
    right. left. exists e, b, u. tauto.
  - destruct (checkout_effect e b w) as [H | H]; [now left|now right; right].
  - left. apply active_site_table.
  - left. apply visit_by_id_table.
  - left. apply active_visit_table.
Qed.

End Effects.

(** ** What the table keeps through any sequence of requests *)

Section Invariants.

Import Server.

(** A property of worlds that every request and every wait keeps holds
    in every world reached. *)
Lemma evolves_invariant (P : world -> Prop) :
  (forall r w, P w -> P (after r w)) ->
  (forall d tape w, P w -> P (idle d tape w)) ->
  forall w w', evolves w w' -> P w -> P w'.
Proof.
  intros Hr Hi w w' H. induction H as [w|r w w' _ IH|d tape w w' _ IH]; intros Hw.
  - exact Hw.
  - now apply IH, Hr.
  - now apply IH, Hi.
Qed.

Lemma close_at_id (u : uuid) (t : Z) (v : Visit.t) : Visit.id (close_at u t v) = Visit.id v.
Proof. unfold close_at. now destruct (Sql.closes u v). Qed.

Lemma close_at_ids (u : uuid) (t : Z) (tbl : Sql.table) :
  map Visit.id (map (close_at u t) tbl) = map Visit.id tbl.
Proof. rewrite map_map. apply map_ext. intros v. apply close_at_id. Qed.

Lemma after_distinct_ids (r : request) (w : world) :
  distinct_ids (visits w) -> distinct_ids (visits (after r w)).
Proof.
  unfold distinct_ids. intros H.
  destruct (after_effect r w) as [-> | [[e [b [u [_ [_ [Hfresh [_ [-> _]]]]]]]] | [u [-> _]]]].
  - exact H.
  - rewrite map_app. simpl. apply NoDup_app; [exact H|repeat constructor; intros []|].
    intros x Hx [<- | []]. apply in_map_iff in Hx as [v [Hid Hv]].
    now apply (proj1 (has_id_false u (visits w)) Hfresh v Hv).
  - now rewrite close_at_ids.
Qed.






Lemma after_timely (r : request) (w : world) : timely w -> timely (after r w).
Proof.
  intros H v Hv. pose proof (after_clock r w) as Hc. pose proof (elapse_clock w) as He.
  destruct (after_effect r w) as [E | [[e [b [u [_ [_ [_ [_ [E Hl]]]]]]]] | [u [E Hl]]]];
    rewrite E in Hv.
  - destruct (H v Hv) as [H1 H2]. split; [lia|]. intros t Ht. specialize (H2 t Ht). lia.
  - apply in_app_or in Hv as [Hv | [<- | []]].
    + destruct (H v Hv) as [H1 H2]. split; [lia|]. intros t Ht. specialize (H2 t Ht). lia.
    + simpl. split; [lia|discriminate].
  - apply in_map_iff in Hv as [v0 [<- Hv0]]. destruct (H v0 Hv0) as [H1 H2].
    unfold close_at. destruct (Sql.closes u v0); simpl.
    + split; [lia|]. intros t [= <-]. lia.
    + split; [lia|]. intros t Ht. specialize (H2 t Ht). lia.
Qed.

Lemma idle_timely (d : N) (tape : list N) (w : world) : timely w -> timely (idle d tape w).
Proof.
  intros H v Hv. destruct (H v Hv) as [H1 H2]. simpl. split; [lia|].
  intros t Ht. specialize (H2 t Ht). lia.
Qed.

Lemma continues_refl (v : Visit.t) : continues v v.
Proof. split; [now destruct v|reflexivity]. Qed.

Lemma continues_trans (v1 v2 v3 : Visit.t) :
  continues v1 v2 -> continues v2 v3 -> continues v1 v3.
Proof.
  intros [E12 C12] [E23 C23]. split.
  - rewrite E23 at 1. rewrite E12. reflexivity.
  - intros Hc. specialize (C12 Hc). subst v2. now apply C23.
Qed.

Lemma continues_close_at (u : uuid) (t : Z) (v : Visit.t) : continues v (close_at u t v).
Proof.
  unfold close_at. destruct (Sql.closes u v) eqn:E; [|apply continues_refl].
  apply closes_spec in E as [_ Hopen]. split; [reflexivity|]. congruence.
Qed.

(** Every row is still there after a request, closed at most. *)
Lemma after_keeps_rows (r : request) (w : world) (v : Visit.t) :
  In v (visits w) -> exists v', In v' (visits (after r w)) /\ continues v v'.
Proof.
  intros Hv.
  destruct (after_effect r w) as [-> | [[e [b [u [_ [_ [_ [_ [-> _]]]]]]]] | [u [-> _]]]].
  - exists v. split; [assumption|apply continues_refl].
  - exists v. split; [apply in_or_app; now left|apply continues_refl].
  - exists (close_at u (clock (elapse w)) v). split; [now apply in_map|].
    apply continues_close_at.
Qed.

Lemma evolves_keeps_rows (w w' : world) :
  evolves w w' ->
  forall v, In v (visits w) -> exists v', In v' (visits w') /\ continues v v'.
Proof.
  induction 1 as [w|r w w' _ IH|d tape w w' _ IH]; intros v Hv.
  - exists v. split; [assumption|apply continues_refl].
  - destruct (after_keeps_rows r w v Hv) as [v1 [Hv1 C1]].
    destruct (IH v1 Hv1) as [v2 [Hv2 C2]]. exists v2. split; [assumption|].
    eapply continues_trans; eassumption.
  - apply IH. exact Hv.
Qed.

Lemma evolves_distinct_ids (w w' : world) :
  evolves w w' -> distinct_ids (visits w) -> distinct_ids (visits w').
Proof.
  apply (evolves_invariant (fun w => distinct_ids (visits w)));
    [apply after_distinct_ids|now intros].
Qed.

(** The world after a list of requests is reached. *)
Lemma evolves_replay (requests : list request) (w : world) :
  evolves w (replay requests w).
Proof.
  revert w. induction requests as [|r rest IH]; intros w; [apply evolves_refl|].
  apply (evolves_request r). apply IH.
Qed.

(** X5.  Primary key: if the ids of the table are pairwise distinct, they
    still are after any sequence of requests. *)
Theorem ids_stay_distinct (w w' : world) :
  evolves w w' -> distinct_ids (visits w) -> distinct_ids (visits w').
Proof. apply evolves_distinct_ids. Qed.

Lemma ids_stay_distinct_witness :
  evolves Sample.world2 (replay later_requests Sample.world2)
  /\ distinct_ids (visits Sample.world2)
  /\ map Visit.id (visits (replay later_requests Sample.world2)) = [Sample.uuid1; Sample.uuid2]
  /\ distinct_ids (visits (replay later_requests Sample.world2)).
Proof.
  assert (H1 : evolves Sample.world2 (replay later_requests Sample.world2))
    by apply evolves_replay.
  assert (H2 : distinct_ids (visits Sample.world2)).
  { unfold distinct_ids.
    replace (map Visit.id (visits Sample.world2)) with [Sample.uuid1; Sample.uuid2]
      by (vm_compute; reflexivity).
    repeat constructor; [|intros []]. intros [H | []]. vm_compute in H. discriminate H. }
  split; [exact H1|]. split; [exact H2|]. split; [vm_compute; reflexivity|].
  exact (ids_stay_distinct Sample.world2 (replay later_requests Sample.world2) H1 H2).
Defined.



(** X7.  Through any sequence of requests no timestamp of the table is
    later than the clock, and a closed visit has its check_out at or after
    its check_in. *)
Theorem timestamps_stay_ordered (w w' : world) :
  evolves w w' -> timely w -> timely w'.
Proof. apply (evolves_invariant timely); [apply after_timely|apply idle_timely]. Qed.

Lemma timestamps_stay_ordered_witness :
  evolves Sample.world0 (replay later_requests Sample.world2)
  /\ timely Sample.world0
  /\ List.length (visits (replay later_requests Sample.world2)) = 2%nat
  /\ timely (replay later_requests Sample.world2).
Proof.
  assert (H1 : evolves Sample.world0 (replay later_requests Sample.world2)).
  { apply (evolves_request (do_checkin Sample.env1 Sample.alice_bob)).
    apply (evolves_request (do_checkin Sample.env2 Sample.alice_bob)).
    apply evolves_replay. }
  assert (H2 : timely Sample.world0) by (intros v []).
  split; [exact H1|]. split; [exact H2|]. split; [vm_compute; reflexivity|].
  exact (timestamps_stay_ordered Sample.world0 (replay later_requests Sample.world2) H1 H2).
Defined.

(** X8.  No request deletes a row or rewrites one: after any sequence of
    requests every row is still in the table, the same in every column
    but [check_out], which can only have gone from [NULL] to a time; a
    row that was closed is unchanged.  The table never gets shorter. *)
Theorem rows_are_kept (w w' : world) :
  evolves w w' ->
  (forall v, In v (visits w) -> exists v', In v' (visits w') /\ continues v v')
  /\ (List.length (visits w) <= List.length (visits w'))%nat.
Proof.
  intros H. split; [now apply evolves_keeps_rows|].
  induction H as [w|r w w' _ IH|d tape w w' _ IH]; [lia| |exact IH].
  eapply Nat.le_trans; [|exact IH].
  destruct (after_effect r w) as [-> | [[e [b [u [_ [_ [_ [_ [-> _]]]]]]]] | [u [-> _]]]].
  - lia.
  - rewrite length_app. simpl. lia.
  - rewrite length_map. lia.
Qed.

Lemma rows_are_kept_witness :
  evolves Sample.world2 (replay later_requests Sample.world2)
  /\ map Visit.check_out (visits Sample.world2) = [None; None]
  /\ (exists t, map Visit.check_out (visits (replay later_requests Sample.world2))
                = [Some t; None])
  /\ (forall v, In v (visits Sample.world2) ->
                exists v', In v' (visits (replay later_requests Sample.world2))
                           /\ continues v v')
  /\ (List.length (visits Sample.world2)
      <= List.length (visits (replay later_requests Sample.world2)))%nat.
Proof.
  assert (H1 : evolves Sample.world2 (replay later_requests Sample.world2))
    by apply evolves_replay.
  split; [exact H1|]. split; [vm_compute; reflexivity|].
  split; [eexists; vm_compute; reflexivity|].
  exact (rows_are_kept Sample.world2 (replay later_requests Sample.world2) H1).
Defined.

End Invariants.

(** ** The lookup routes *)

Section Lookups.

Import Server.

Lemma filter_by_id_none (u : uuid) (tbl : Sql.table) :
  (forall v, In v tbl -> Visit.id v <> u) ->
  List.filter (fun v => String.eqb (Visit.id v) u) tbl = [].
Proof.
  induction tbl as [|x tbl IH]; intros H; simpl; [reflexivity|].
  destruct (String.eqb_spec (Visit.id x) u) as [E|_].
  - exfalso. apply (H x); [now left|exact E].
  - apply IH. intros v Hv. apply H. now right.
Qed.

Lemma filter_by_id_unique (v : Visit.t) (tbl : Sql.table) :
  distinct_ids tbl -> In v tbl ->
  List.filter (fun x => String.eqb (Visit.id x) (Visit.id v)) tbl = [v].
Proof.
  unfold distinct_ids. induction tbl as [|x tbl IH]; intros Hnd Hv; [contradiction|].
  simpl in Hnd. inversion Hnd as [|? ? Hx Hnd']; subst. simpl.
  destruct Hv as [-> | Hv].
  - rewrite String.eqb_refl. f_equal. apply filter_by_id_none.
    intros y Hy E. apply Hx. rewrite <- E. now apply in_map.
  - destruct (String.eqb_spec (Visit.id x) (Visit.id v)) as [E|_]; [|now apply IH].
    exfalso. apply Hx. rewrite E. now apply in_map.
Qed.

(** The answer of [GET /api/visits/:id], by what the table holds under
    that id. *)
Lemma visit_by_id_run (id : string) (w : world) :
  exists w',
    visits w' = visits w
    /\ Reads.visit_by_id id w
       = (Returned
            match Uuid.parse id with
            | None => Reads.mk_response 500 (Reads.error_reply "Internal server error")
            | Some u =>
                match List.filter (fun v => String.eqb (Visit.id v) u) (visits w) with
                | [] => Reads.mk_response 404 (Reads.error_reply "Not found")
                | row :: _ =>
                    Reads.mk_response 200 (Reads.visit_reply (Reads.select_basic row))
                end
            end, w').
Proof.
  unfold Reads.visit_by_id, try_catch, bind, pool_query, read_only, Reads.json, ret,
    Sql.select_by_id.
  rewrite world_eta, elapse_visits.
  destruct (Uuid.parse id) as [u|] eqn:Hu.
  - rewrite (uuid_param_parse _ _ Hu).
    destruct (List.filter _ (visits w)) as [|row rows];
      (eexists; split; [|reflexivity]); now rewrite !elapse_visits.
  - destruct (uuid_param_none _ Hu) as [err ->].
    eexists. split; [|reflexivity]. simpl. now rewrite !elapse_visits.
Qed.

(** X9.  [GET /api/visits/:id] never writes.  It answers 500 when the id
    is not the text of a uuid, 404 when it is and no row has it, and
    otherwise 200 with the seven columns of a row of that id, which is the
    row of that id when ids are distinct. *)
Theorem visit_lookup (id : string) (w : world) :
  exists r w',
    Reads.visit_by_id id w = (Returned r, w')
    /\ visits w' = visits w
    /\ (Uuid.parse id = None ->
        r = Reads.mk_response 500 (Reads.error_reply "Internal server error"))
    /\ (forall u, Uuid.parse id = Some u ->
          (forall v, In v (visits w) -> Visit.id v <> u) ->
          r = Reads.mk_response 404 (Reads.error_reply "Not found"))
    /\ (forall u v, Uuid.parse id = Some u -> In v (visits w) -> Visit.id v = u ->
          exists v0, In v0 (visits w) /\ Visit.id v0 = u
                     /\ r = Reads.mk_response 200 (Reads.visit_reply (Reads.select_basic v0))
                     /\ (distinct_ids (visits w) -> v0 = v)).
Proof.
  destruct (visit_by_id_run id w) as [w' [V E]].
  eexists _, w'. split; [exact E|]. split; [exact V|]. split; [|split].
  - now intros ->.
  - intros u -> Hnone. now rewrite filter_by_id_none.
  - intros u v -> Hv Hid.
    destruct (List.filter (fun x => String.eqb (Visit.id x) u) (visits w)) as [|v0 rest] eqn:F.
    + exfalso.
      assert (Hin : In v (List.filter (fun x => String.eqb (Visit.id x) u) (visits w)))
        by (apply filter_In; split; [assumption|now apply String.eqb_eq]).
      now rewrite F in Hin.
    + assert (Hin : In v0 (List.filter (fun x => String.eqb (Visit.id x) u) (visits w)))
        by (rewrite F; now left).
      apply filter_In in Hin as [Hv0 Hid0]. apply String.eqb_eq in Hid0.
      exists v0. repeat split; try assumption.
      intros Hd. subst u. rewrite (filter_by_id_unique v _ Hd Hv) in F. congruence.
Qed.

(** X10.  A visit that a check-in answered 201 has created can be
    looked up by its id after any sequence of later requests: the answer
    is 200 with the columns of the created row, [check_out] apart. *)
Theorem created_visit_is_kept (e : env) (b : jsval) (w w1 w2 : world) (r : response) :
  checkin e b w = (Returned r, w1) ->
  status r = 201%nat ->
  distinct_ids (visits w) ->
  evolves w1 w2 ->
  exists row co,
    r = mk_response 201 (checkin_reply (Some row) co)
    /\ In row (visits w1)
    /\ forall id, Uuid.parse id = Some (Visit.id row) ->
         exists found w3,
           Reads.visit_by_id id w2
           = (Returned (Reads.mk_response 200 (Reads.visit_reply found)), w3)
           /\ found = Reads.select_basic (Visit.with_check_out (Reads.b_check_out found) row).
Proof.
  intros E S Hd Hev.
  destruct (checkin_201 e b w w1 r E S) as [u [t [Hacc [-> [V C]]]]].
  set (row := inserted_row u (clock (elapse w)) b) in *.
  assert (Hd1 : distinct_ids (visits w1)).
  { pose proof (after_distinct_ids (do_checkin e b) w Hd) as H. simpl in H.
    now rewrite E in H. }
  assert (Hrow : In row (visits w1)) by (rewrite V; apply in_or_app; right; now left).
  destruct (evolves_keeps_rows w1 w2 Hev row Hrow) as [v' [Hv' [Hc _]]].
  pose proof (evolves_distinct_ids w1 w2 Hev Hd1) as Hd2.
  eexists row, _. split; [reflexivity|]. split; [exact Hrow|].
  intros id Hid.
  destruct (visit_by_id_run id w2) as [w3 [_ E3]]. rewrite Hid in E3.
  assert (Hidv : Visit.id v' = Visit.id row) by (rewrite Hc; reflexivity).
  rewrite <- Hidv, (filter_by_id_unique v' _ Hd2 Hv') in E3.
  exists (Reads.select_basic v'), w3. split; [exact E3|].
  change (Reads.b_check_out (Reads.select_basic v')) with (Visit.check_out v').
  now rewrite <- Hc.
Qed.

Lemma created_visit_is_kept_witness :
  checkin Sample.env1 Sample.alice_bob Sample.world0 = (Returned Sample.reply1, Sample.world1)
  /\ status Sample.reply1 = 201%nat
  /\ evolves Sample.world1
       (replay (do_checkin Sample.env2 Sample.alice_bob :: later_requests) Sample.world1)
  /\ exists row co,
       Sample.reply1 = mk_response 201 (checkin_reply (Some row) co)
       /\ In row (visits Sample.world1)
       /\ forall id, Uuid.parse id = Some (Visit.id row) ->
            exists found w3,
              Reads.visit_by_id id
                (replay (do_checkin Sample.env2 Sample.alice_bob :: later_requests)
                   Sample.world1)
              = (Returned (Reads.mk_response 200 (Reads.visit_reply found)), w3)
              /\ found
                 = Reads.select_basic (Visit.with_check_out (Reads.b_check_out found) row).
Proof.
  assert (H1 : checkin Sample.env1 Sample.alice_bob Sample.world0
               = (Returned Sample.reply1, Sample.world1)) by (vm_compute; reflexivity).
  assert (H2 : status Sample.reply1 = 201%nat) by (vm_compute; reflexivity).
  assert (H3 : distinct_ids (visits Sample.world0)) by constructor.
  assert (H4 : evolves Sample.world1
                 (replay (do_checkin Sample.env2 Sample.alice_bob :: later_requests)
                    Sample.world1)) by apply evolves_replay.
  split; [exact H1|]. split; [exact H2|]. split; [exact H4|].
  exact (created_visit_is_kept Sample.env1 Sample.alice_bob Sample.world0 Sample.world1
           (replay (do_checkin Sample.env2 Sample.alice_bob :: later_requests) Sample.world1)
           Sample.reply1 H1 H2 H3 H4).
Defined.

(** X11.  The time of a check-out stays: once a check-out has closed the
    visit of id [u] at time [t], every later lookup of that id, after any
    sequence of requests, shows the same row with [check_out] at [t]. *)
Theorem checkout_time_is_kept (e : env) (b : jsval) (s : string) (u : uuid) (v : Visit.t)
    (w w2 : world) :
  Js.get b "visitId" = JStr s ->
  s <> EmptyString ->
  Uuid.parse s = Some u ->
  distinct_ids (visits w) ->
  In v (visits w) -> Visit.id v = u -> Visit.check_out v = None ->
  evolves (snd (checkout e b w)) w2 ->
  exists t w3,
    fst (checkout e b w) = Returned (mk_response 200 (checkout_reply u (Some t)))
    /\ Reads.visit_by_id s w2
       = (Returned (Reads.mk_response 200
            (Reads.visit_reply (Reads.select_basic (Visit.with_check_out (Some t) v)))), w3).
Proof.
  intros Hb Hs Hu Hd Hv Hid Hopen Hev.
  pose proof (checkout_run e b s u w Hb Hs Hu) as E.
  assert (F : List.filter (Sql.closes u) (visits w) <> [])
    by (apply open_rows; eauto).
  destruct (List.filter (Sql.closes u) (visits w)) as [|v0 rest]; [contradiction|].
  destruct (quiet_checkout_mail_block e s (after_update w u)) as [[] [w1 [E1 [V1 _]]]].
  rewrite E1 in E. simpl in E. rewrite E in Hev. simpl in Hev.
  set (t := clock (elapse w)) in *.
  assert (Vw1 : visits w1 = map (close_at u t) (visits w))
    by now rewrite V1, after_update_visits.
  assert (Hd1 : distinct_ids (visits w1))
    by (unfold distinct_ids; now rewrite Vw1, close_at_ids).
  assert (Hc1 : In (Visit.with_check_out (Some t) v) (visits w1)).
  { rewrite Vw1, <- (close_at_open u t v Hid Hopen). now apply in_map. }
  destruct (evolves_keeps_rows w1 w2 Hev _ Hc1) as [v' [Hv' [_ Hsame]]].
  rewrite (Hsame ltac:(discriminate)) in Hv'.
  pose proof (evolves_distinct_ids w1 w2 Hev Hd1) as Hd2.
  destruct (visit_by_id_run s w2) as [w3 [_ E3]]. rewrite Hu in E3.
  assert (Hidv : Visit.id (Visit.with_check_out (Some t) v) = u) by exact Hid.
  rewrite <- Hidv, (filter_by_id_unique _ _ Hd2 Hv') in E3.
  exists t, w3. rewrite E. split; [reflexivity|exact E3].
Qed.

Lemma checkout_time_is_kept_witness :
  Uuid.parse Sample.uuid1 = Some Sample.uuid1
  /\ distinct_ids (visits Sample.world2)
  /\ In (inserted_row Sample.uuid1 (clock (elapse Sample.world0)) Sample.alice_bob)
        (visits Sample.world2)
  /\ evolves (snd (checkout Sample.env1 close1 Sample.world2))
       (replay later_requests (snd (checkout Sample.env1 close1 Sample.world2)))
  /\ exists t w3,
       fst (checkout Sample.env1 close1 Sample.world2)
       = Returned (mk_response 200 (checkout_reply Sample.uuid1 (Some t)))
       /\ Reads.visit_by_id Sample.uuid1
            (replay later_requests (snd (checkout Sample.env1 close1 Sample.world2)))
          = (Returned (Reads.mk_response 200
               (Reads.visit_reply
                  (Reads.select_basic
                     (Visit.with_check_out (Some t)
                        (inserted_row Sample.uuid1 (clock (elapse Sample.world0))
                           Sample.alice_bob))))), w3).
Proof.
  assert (H1 : Uuid.parse Sample.uuid1 = Some Sample.uuid1) by (vm_compute; reflexivity).
  assert (H2 : distinct_ids (visits Sample.world2)).
  { unfold distinct_ids.
    replace (map Visit.id (visits Sample.world2)) with [Sample.uuid1; Sample.uuid2]
      by (vm_compute; reflexivity).
    repeat constructor; [|intros []]. intros [H | []]. vm_compute in H. discriminate H. }
  assert (H3 : In (inserted_row Sample.uuid1 (clock (elapse Sample.world0)) Sample.alice_bob)
                  (visits Sample.world2))
    by (vm_compute; left; reflexivity).
  assert (H4 : evolves (snd (checkout Sample.env1 close1 Sample.world2))
                 (replay later_requests (snd (checkout Sample.env1 close1 Sample.world2))))
    by apply evolves_replay.
  split; [exact H1|]. split; [exact H2|]. split; [exact H3|]. split; [exact H4|].
  exact (checkout_time_is_kept Sample.env1 close1
           Sample.uuid1 Sample.uuid1
           (inserted_row Sample.uuid1 (clock (elapse Sample.world0)) Sample.alice_bob)
           Sample.world2
           (replay later_requests (snd (checkout Sample.env1 close1 Sample.world2)))
           eq_refl ltac:(discriminate) H1 H2 H3 eq_refl eq_refl H4).
Defined.

End Lookups.

(** ** The active visit of a turbine, and the site listing *)

Section ActiveVisits.

Import Server.

Lemma descending_head (x : Visit.t) (l : list Visit.t) :
  descending (x :: l) -> forall y, In y l -> Visit.check_in y <= Visit.check_in x.
Proof.
  revert x. induction l as [|z l IH]; intros x Hd y Hy; [contradiction|].
  inversion Hd as [| |? ? ? Hzx Hd']; subst.
  destruct Hy as [<- | Hy]; [exact Hzx|].
  specialize (IH z Hd' y Hy). lia.
Qed.

Lemma active_on_turbine_spec (turbine : string) (v : Visit.t) :
  Reads.active_on_turbine turbine v = true
  <-> Visit.turbine_id v = turbine /\ Visit.check_out v = None.
Proof.
  unfold Reads.active_on_turbine. now rewrite andb_true_iff, String.eqb_eq, is_null_spec.
Qed.

(** The row that [LIMIT 1] keeps is an active visit of the turbine with
    the latest check_in; there is none only when the turbine has no active
    visit. *)
Lemma select_active_spec (turbine : string) (tbl : Sql.table) :
  match Reads.active_rows turbine tbl with
  | [] => forall v, In v tbl -> ~ (Visit.turbine_id v = turbine /\ Visit.check_out v = None)
  | l :: _ =>
      exists v, In v tbl /\ l = Visit.select_listed v
                /\ Visit.turbine_id v = turbine /\ Visit.check_out v = None
                /\ forall v', In v' tbl -> Visit.turbine_id v' = turbine ->
                              Visit.check_out v' = None ->
                              Visit.check_in v' <= Visit.check_in v
  end.
Proof.
  unfold Reads.active_rows.
  pose proof (order_by_perm (List.filter (Reads.active_on_turbine turbine) tbl)) as Hp.
  pose proof (order_by_descending (List.filter (Reads.active_on_turbine turbine) tbl)) as Hd.
  destruct (Sql.order_by_check_in_desc (List.filter (Reads.active_on_turbine turbine) tbl))
    as [|v rest]; simpl.
  - intros v Hv Hact. apply Permutation_sym, Permutation_nil in Hp.
    assert (Hin : In v (List.filter (Reads.active_on_turbine turbine) tbl))
      by (apply filter_In; split; [assumption|now apply active_on_turbine_spec]).
    now rewrite Hp in Hin.
  - assert (Hv : In v (List.filter (Reads.active_on_turbine turbine) tbl))
      by (apply (Permutation_in _ (Permutation_sym Hp)); now left).
    apply filter_In in Hv as [Hv Hact]. apply active_on_turbine_spec in Hact as [Ht Ho].
    exists v. repeat split; try assumption.
    intros v' Hv' Ht' Ho'.
    assert (Hin : In v' (v :: rest)).
    { apply (Permutation_in _ Hp). apply filter_In. split; [assumption|].
      now apply active_on_turbine_spec. }
    destruct Hin as [<- | Hin]; [lia|]. now apply (descending_head v rest Hd).
Qed.

Lemma active_visit_run (q : jsval) (s : string) (w : world) :
  Js.get q "turbineId" = JStr s ->
  all_ws s = false ->
  Sql.nul_free (trim s) = true ->
  Reads.active_visit q w
  = (Returned (Reads.mk_response 200
       (Reads.active_reply (hd_error (Reads.active_rows (trim s) (visits w))))),
     elapse (elapse w)).
Proof.
  intros Hq Hs Hn. unfold Reads.active_visit. rewrite Hq.
  assert (Hne : nonempty (trim s) = true).
  { apply nonempty_true. intros E. apply trim_empty in E. congruence. }
  rewrite Hne.
  unfold try_catch, bind, pool_query, read_only, Reads.json, ret, Reads.select_active,
    Sql.bound.
  cbn [forallb]. rewrite Hn. cbn [andb].
  rewrite world_eta, elapse_visits.
  now destruct (Reads.active_rows (trim s) (visits w)).
Qed.

(** The same for a text that holds code unit 0: the statement is refused. *)
Lemma active_visit_refused (q : jsval) (s : string) (w : world) :
  Js.get q "turbineId" = JStr s ->
  all_ws s = false ->
  Sql.nul_free (trim s) = false ->
  exists w',
    Reads.active_visit q w
    = (Returned (Reads.mk_response 500 (Reads.error_reply "Internal server error")), w')
    /\ visits w' = visits w.
Proof.
  intros Hq Hs Hn. unfold Reads.active_visit. rewrite Hq.
  assert (Hne : nonempty (trim s) = true).
  { apply nonempty_true. intros E. apply trim_empty in E. congruence. }
  rewrite Hne.
  unfold try_catch, bind, pool_query, read_only, Reads.json, ret, Reads.select_active,
    Sql.bound.
  cbn [forallb]. rewrite Hn. cbn [andb].
  eexists. split; [reflexivity|]. simpl. now rewrite !elapse_visits.
Qed.

(** X12.  The handler of [GET /api/visits/active] never writes.  It
    answers 400 unless [turbineId] is a string with something else than
    white space.  For such a string it answers 500 when the trimmed text
    holds code unit 0, which the store refuses; otherwise 200 with [null]
    when the trimmed turbine has no active visit, and else with an active
    visit of that turbine than which none has a later check_in. *)
Theorem active_visit_answer (q : jsval) (w : world) :
  exists r w',
    Reads.active_visit q w = (Returned r, w')
    /\ visits w' = visits w
    /\ (blank_turbineId (Js.get q "turbineId") ->
        r = Reads.mk_response 400 (Reads.error_reply "turbineId is required"))
    /\ (forall s, Js.get q "turbineId" = JStr s -> all_ws s = false ->
          Sql.nul_free (trim s) = false ->
          r = Reads.mk_response 500 (Reads.error_reply "Internal server error"))
    /\ (forall s, Js.get q "turbineId" = JStr s -> all_ws s = false ->
          Sql.nul_free (trim s) = true ->
          exists found,
            r = Reads.mk_response 200 (Reads.active_reply found)
            /\ match found with
               | None =>
                   forall v, In v (visits w) ->
                     ~ (Visit.turbine_id v = trim s /\ Visit.check_out v = None)
               | Some l =>
                   exists v, In v (visits w) /\ l = Visit.select_listed v
                     /\ Visit.turbine_id v = trim s /\ Visit.check_out v = None
                     /\ forall v', In v' (visits w) -> Visit.turbine_id v' = trim s ->
                                   Visit.check_out v' = None ->
                                   Visit.check_in v' <= Visit.check_in v
               end).
Proof.
  destruct (Js.get q "turbineId") as [| | | |s| |] eqn:Hq;
    try (eexists _, w; split;
         [unfold Reads.active_visit; rewrite Hq; reflexivity|];
         split; [reflexivity|]; split; [reflexivity|]; split; intros s [=]).
  destruct (all_ws s) eqn:Hs.
  - eexists _, w. split.
    + unfold Reads.active_visit. rewrite Hq.
      apply trim_empty in Hs. rewrite Hs. reflexivity.
    + split; [reflexivity|]. split; [reflexivity|].
      split; intros s' [= <-]; congruence.
  - destruct (Sql.nul_free (trim s)) eqn:Hn.
    + eexists _, _. split; [exact (active_visit_run q s w Hq Hs Hn)|].
      split; [now rewrite !elapse_visits|]. split; [simpl; congruence|].
      split; [intros s' [= <-]; congruence|].
      intros s' [= <-] _ _. eexists. split; [reflexivity|].
      pose proof (select_active_spec (trim s) (visits w)) as H.
      now destruct (Reads.active_rows (trim s) (visits w)).
    + destruct (active_visit_refused q s w Hq Hs Hn) as [w' [E V]].
      eexists _, w'. split; [exact E|]. split; [exact V|]. split; [simpl; congruence|].
      split; [reflexivity|]. intros s' [= <-]. congruence.
Qed.

(** X13.  A visit checked in under a turbine id is found under it: after
    a check-in answered 201 whose [turbineId] is a string [s] with
    something else than white space, the active-visit handler asked for
    any text that trims to the same name answers with an open visit of
    turbine [trim s]. *)
Theorem checked_in_turbine_is_found (e : env) (b q : jsval) (w w1 : world) (r : response)
    (s s2 : string) :
  checkin e b w = (Returned r, w1) ->
  status r = 201%nat ->
  Js.get b "turbineId" = JStr s -> all_ws s = false ->
  Js.get q "turbineId" = JStr s2 -> trim s2 = trim s ->
  exists l w3,
    Reads.active_visit q w1
    = (Returned (Reads.mk_response 200 (Reads.active_reply (Some l))), w3)
    /\ Visit.l_turbine_id l = trim s
    /\ Visit.l_check_out l = None.
Proof.
  intros E S Hb Hs Hq Htrim.
  destruct (checkin_201 e b w w1 r E S) as [u [t [Hacc [_ [V _]]]]].
  assert (Hs2 : all_ws s2 = false).
  { destruct (all_ws s2) eqn:A; [|reflexivity].
    apply trim_empty in A. rewrite Htrim in A. apply trim_empty in A. congruence. }
  assert (Hturbine : Visit.turbine_id (inserted_row u (clock (elapse w)) b) = trim s).
  { cbn [inserted_row Visit.turbine_id]. unfold turbine_of. rewrite Hb.
    destruct (trim s) eqn:Et; [|reflexivity]. apply trim_empty in Et. congruence. }
  assert (Hn : Sql.nul_free (trim s2) = true).
  { destruct Hacc as [_ [_ [_ [_ Hst]]]].
    rewrite (storable_any e u u 0 (clock (elapse w)) b) in Hst.
    pose proof (storable_texts e _ Hst (Some (trim s))) as H. simpl in H.
    rewrite Htrim. apply H. left. now rewrite <- Hturbine. }
  rewrite (active_visit_run q s2 w1 Hq Hs2 Hn), Htrim.
  pose proof (select_active_spec (trim s) (visits w1)) as H.
  destruct (Reads.active_rows (trim s) (visits w1)) as [|l rest].
  - exfalso. apply (H (inserted_row u (clock (elapse w)) b)).
    + rewrite V. apply in_or_app. right. now left.
    + split; [exact Hturbine|reflexivity].
  - destruct H as [v [_ [-> [Ht [Ho _]]]]]. eexists _, _. split; [reflexivity|].
    simpl. now split.
Qed.

Lemma checked_in_turbine_is_found_witness :
  let sent := JObj [("technicians", JStr "Alice"); ("turbineId", JStr " WT-7 ")] in
  checkin Sample.env1 sent Sample.world0
  = (Returned (Sample.answer_of (checkin Sample.env1 sent Sample.world0)),
     snd (checkin Sample.env1 sent Sample.world0))
  /\ status (Sample.answer_of (checkin Sample.env1 sent Sample.world0)) = 201%nat
  /\ trim "WT-7" = trim " WT-7 "
  /\ exists l w3,
       Reads.active_visit (JObj [("turbineId", JStr "WT-7")])
         (snd (checkin Sample.env1 sent Sample.world0))
       = (Returned (Reads.mk_response 200 (Reads.active_reply (Some l))), w3)
       /\ Visit.l_turbine_id l = "WT-7"
       /\ Visit.l_check_out l = None.
Proof.
  intros sent.
  assert (H1 : checkin Sample.env1 sent Sample.world0
               = (Returned (Sample.answer_of (checkin Sample.env1 sent Sample.world0)),
                  snd (checkin Sample.env1 sent Sample.world0)))
    by (vm_compute; reflexivity).
  assert (H2 : status (Sample.answer_of (checkin Sample.env1 sent Sample.world0)) = 201%nat)
    by (vm_compute; reflexivity).
  assert (H4 : trim "WT-7" = trim " WT-7 ") by reflexivity.
  split; [exact H1|]. split; [exact H2|]. split; [exact H4|].
  exact (checked_in_turbine_is_found Sample.env1 sent
           (JObj [("turbineId", JStr "WT-7")]) Sample.world0 _ _ " WT-7 " "WT-7"
           H1 H2 eq_refl eq_refl eq_refl H4).
Defined.

(** The rows of a site listing have the power plant that was asked,
    trimmed, and it is not empty. *)
Lemma listing_power_plants (q : jsval) (w w' : world) (r : response) (n : nat)
    (rows : list Visit.listed) :
  active_site q w = (Returned r, w') ->
  body r = active_site_reply n rows ->
  forall l, In l rows ->
    exists p, Visit.l_power_plant l = Some p /\ p <> EmptyString /\ trim p = p.
Proof.
  intros E Hbody l Hl.
  destruct (Js.get q "powerPlant") as [| | | |s| |] eqn:Hq;
    try (unfold active_site in E; rewrite Hq in E; injection E as <- _; discriminate Hbody).
  destruct (trim s) as [|c t] eqn:Et.
  - unfold active_site in E. rewrite Hq, Et in E. injection E as <- _. discriminate Hbody.
  - assert (Hne : trim s <> EmptyString) by (rewrite Et; discriminate).
    destruct (Sql.nul_free (trim s)) eqn:Hn.
    + rewrite (active_site_listed q s w Hq Hne Hn) in E.
      injection E as <- _. simpl in Hbody. injection Hbody as _ <-.
      unfold Sql.active_site_rows in Hl. apply in_map_iff in Hl as [v [<- Hv]].
      apply (Permutation_in _ (Permutation_sym (order_by_perm _))) in Hv.
      apply filter_In in Hv as [_ Hv]. apply listed_on_site_spec in Hv as [Hp _].
      exists (trim s). simpl. split; [exact Hp|]. split; [exact Hne|].
      apply trim_idempotent.
    + destruct (active_site_refused q s w Hq Hne Hn) as [w2 [E2 _]].
      rewrite E2 in E. injection E as <- _. discriminate Hbody.
Qed.

(** X14.  The check-in stores [powerPlant] as it is sent, and the site
    listing compares with the trimmed query: a visit that a check-in
    answered 201 has created with a power plant that has white space
    around it appears in no listing, whatever is asked and whatever the
    table. *)
Theorem untrimmed_power_plant_is_never_listed (e : env) (b : jsval) (w w1 : world)
    (r : response) (p : string) :
  checkin e b w = (Returned r, w1) ->
  status r = 201%nat ->
  Js.get b "powerPlant" = JStr p ->
  trim p <> p ->
  exists row co,
    r = mk_response 201 (checkin_reply (Some row) co)
    /\ visits w1 = visits w ++ [row]
    /\ Visit.power_plant row = Some p
    /\ forall q w2 r2 w3 n rows,
         active_site q w2 = (Returned r2, w3) ->
         body r2 = active_site_reply n rows ->
         ~ In (Visit.select_listed row) rows.
Proof.
  intros E S Hp Htrim.
  destruct (checkin_201 e b w w1 r E S) as [u [t [_ [-> [V _]]]]].
  eexists _, _. split; [reflexivity|]. split; [exact V|].
  assert (Hstored : Visit.power_plant (inserted_row u (clock (elapse w)) b) = Some p).
  { cbn [inserted_row Visit.power_plant]. rewrite Hp, or_null_string.
    destruct p; [now contradiction Htrim|reflexivity]. }
  split; [exact Hstored|].
  intros q w2 r2 w3 n rows Eq Hbody Hin.
  destruct (listing_power_plants q w2 w3 r2 n rows Eq Hbody _ Hin) as [p' [Hp' [_ Ht']]].
  cbn [Visit.select_listed Visit.l_power_plant] in Hp'. rewrite Hstored in Hp'. congruence.
Qed.

Lemma untrimmed_power_plant_is_never_listed_witness :
  let sent := JObj [("technicians", JStr "Alice"); ("powerPlant", JStr "SiteA ")] in
  checkin Sample.env1 sent Sample.world0
  = (Returned (Sample.answer_of (checkin Sample.env1 sent Sample.world0)),
     snd (checkin Sample.env1 sent Sample.world0))
  /\ status (Sample.answer_of (checkin Sample.env1 sent Sample.world0)) = 201%nat
  /\ trim "SiteA " <> "SiteA "
  /\ exists row co,
       Sample.answer_of (checkin Sample.env1 sent Sample.world0)
       = mk_response 201 (checkin_reply (Some row) co)
       /\ visits (snd (checkin Sample.env1 sent Sample.world0))
          = visits Sample.world0 ++ [row]
       /\ Visit.power_plant row = Some "SiteA "
       /\ forall q w2 r2 w3 n rows,
            active_site q w2 = (Returned r2, w3) ->
            body r2 = active_site_reply n rows ->
            ~ In (Visit.select_listed row) rows.
Proof.
  intros sent.
  assert (H1 : checkin Sample.env1 sent Sample.world0
               = (Returned (Sample.answer_of (checkin Sample.env1 sent Sample.world0)),
                  snd (checkin Sample.env1 sent Sample.world0)))
    by (vm_compute; reflexivity).
  assert (H2 : status (Sample.answer_of (checkin Sample.env1 sent Sample.world0)) = 201%nat)
    by (vm_compute; reflexivity).
  assert (H4 : trim "SiteA " <> "SiteA ") by (vm_compute; discriminate).
  split; [exact H1|]. split; [exact H2|]. split; [exact H4|].
  exact (untrimmed_power_plant_is_never_listed Sample.env1 sent Sample.world0 _ _ "SiteA "
           H1 H2 eq_refl H4).
Defined.

End ActiveVisits.

(** ** Routing *)

Section Routing.

Import Server Router.

Lemma read_bytes_length (todo i : nat) (s : string) (ds : list ascii) (rest : string) :
  Uuid.read_bytes todo i s = Some (ds, rest) -> (2 * todo <= String.length s)%nat.
Proof.
  revert i s ds rest. induction todo as [|todo IH]; intros i s ds rest H; [simpl; lia|].
  simpl in H. destruct s as [|a [|b r]]; try discriminate.
  destruct (Uuid.is_hex a && Uuid.is_hex b); [|discriminate].
  match type of H with
  | match Uuid.read_bytes todo (S i) ?r' with _ => _ end = _ =>
      destruct (Uuid.read_bytes todo (S i) r') as [[ds' rest']|] eqn:E; [|discriminate];
      assert (Hr : (String.length r' <= String.length r)%nat)
  end.
  { destruct r as [|c r'']; [simpl; lia|].
    destruct (Ascii.eqb c "-" && Nat.odd i && (i <? 15)%nat); simpl; lia. }
  apply IH in E. simpl. lia.
Qed.

(** The text of a uuid has at least 32 units. *)
Lemma uuid_text_length (s : string) (u : uuid) :
  Uuid.parse s = Some u -> (32 <= String.length s)%nat.
Proof.
  unfold Uuid.parse. intros H.
  assert (Hb : forall body, (exists ds rest, Uuid.read_bytes 16 0 body = Some (ds, rest)) ->
                            (32 <= String.length body)%nat).
  { intros body [ds [rest E]]. apply read_bytes_length in E. lia. }
  destruct s as [|c r]; [discriminate|].
  destruct (Ascii.eqb_spec c "{") as [->|Hc].
  - destruct (Uuid.read_bytes 16 0 r) as [[ds rest]|] eqn:E; [|discriminate].
    specialize (Hb r (ex_intro _ ds (ex_intro _ rest E))). simpl. lia.
  - assert (E : exists ds rest, Uuid.read_bytes 16 0 (String c r) = Some (ds, rest)).
    { destruct c as [[] [] [] [] [] [] [] []];
        try (exfalso; apply Hc; reflexivity);
        (destruct (Uuid.read_bytes 16 0 _) as [[ds rest]|]; [eauto|discriminate]). }
    now apply Hb.
Qed.

Lemma upper_length (s : string) : String.length (upper s) = String.length s.
Proof. induction s as [|c s IH]; simpl; [reflexivity|now rewrite IH]. Qed.

Lemma same_upper_length (a b : string) :
  String.eqb (upper a) (upper b) = true -> String.length b = String.length a.
Proof.
  intros H. apply String.eqb_eq in H.
  now rewrite <- (upper_length a), <- (upper_length b), H.
Qed.

(** Matching a path against [/api/visits/<last>]. *)
Lemma match_api (last : segment) (segs : list string) :
  match_path (api last) segs
  = match segs with
    | [a; b; c] =>
        if String.eqb (upper "api") (upper a) then
          if String.eqb (upper "visits") (upper b) then match_path [last] [c] else None
        else None
    | _ => None
    end.
Proof.
  destruct segs as [|a [|b [|c [|d rest]]]]; cbn [api match_path]; try reflexivity;
    repeat match goal with
           | |- context [String.eqb ?x ?y] =>
               lazymatch y with
               | upper _ => destruct (String.eqb x y)
               end
           end; try reflexivity.
  all: destruct last as [s|name]; try reflexivity.
  all: match goal with |- context [if ?t then _ else _] => now destruct t end.
Qed.

Lemma match_lit (s c : string) :
  match_path [Lit s] [c] = if String.eqb (upper s) (upper c) then Some [] else None.
Proof. reflexivity. Qed.

Lemma match_param (name c : string) :
  match_path [Param name] [c] = if nonempty c then Some [(name, c)] else None.
Proof. cbn [match_path]. now destruct (nonempty c). Qed.

(** Where a [GET] goes, by its segments. *)
Lemma first_match_get (segs : list string) :
  first_match routes GET segs
  = match match_path [Lit "health"] segs with
    | Some params => Some (Health, params)
    | None =>
        match match_path (api (Lit "active-site")) segs with
        | Some params => Some (ActiveSite, params)
        | None =>
            match match_path (api (Param "id")) segs with
            | Some params => Some (VisitById, params)
            | None =>
                match match_path (api (Lit "active")) segs with
                | Some params => Some (ActiveVisit, params)
                | None => None
                end
            end
        end
    end.
Proof. reflexivity. Qed.

Lemma first_match_post (segs : list string) :
  first_match routes POST segs
  = match match_path (api (Lit "checkin")) segs with
    | Some params => Some (CheckIn, params)
    | None =>
        match match_path (api (Lit "checkout")) segs with
        | Some params => Some (CheckOut, params)
        | None => None
        end
    end.
Proof. reflexivity. Qed.

(** A path that the route of the active visit matches is matched by the
    route with [:id], registered before it. *)
Lemma active_is_shadowed (segs : list string) (params : list (string * string)) :
  match_path (api (Lit "active")) segs = Some params ->
  exists id,
    match_path (api (Param "id")) segs = Some [("id", id)]
    /\ match_path (api (Lit "active-site")) segs = None
    /\ match_path [Lit "health"] segs = None
    /\ String.length id = 6%nat.
Proof.
  rewrite !match_api. destruct segs as [|a [|b [|c [|d rest]]]]; try discriminate.
  destruct (String.eqb (upper "api") (upper a)); [|discriminate].
  destruct (String.eqb (upper "visits") (upper b)); [|discriminate].
  rewrite !match_lit, match_param.
  destruct (String.eqb (upper "active") (upper c)) eqn:E; [|discriminate].
  intros _. exists c.
  pose proof (same_upper_length _ _ E) as Hlen. simpl in Hlen.
  assert (Hne : nonempty c = true) by (destruct c; [discriminate Hlen|reflexivity]).
  rewrite Hne. split; [reflexivity|].
  split; [|split; [|exact Hlen]].
  2: { cbn [match_path]. now destruct (String.eqb (upper "health") (upper a)). }
  destruct (String.eqb (upper "active-site") (upper c)) eqn:E2; [|reflexivity].
  apply same_upper_length in E2. simpl in E2. lia.
Qed.

(** X15.  No request reaches the handler registered for
    [/api/visits/active]: whatever the method and the path, the route that
    answers is another one. *)
Theorem active_route_is_never_reached (m : method) (path : string) :
  forall r params, dispatch m path = Some (r, params) -> r <> ActiveVisit.
Proof.
  intros r params. unfold dispatch. destruct (segments path) as [segs|]; [|discriminate].
  destruct m.
  - rewrite first_match_get.
    destruct (match_path [Lit "health"] segs); [intros [= <- _]; discriminate|].
    destruct (match_path (api (Lit "active-site")) segs); [intros [= <- _]; discriminate|].
    destruct (match_path (api (Param "id")) segs) eqn:Eid; [intros [= <- _]; discriminate|].
    destruct (match_path (api (Lit "active")) segs) as [ps|] eqn:Ea; [|discriminate].
    destruct (active_is_shadowed segs ps Ea) as [id [Hid _]]. congruence.
  - rewrite first_match_post.
    destruct (match_path (api (Lit "checkin")) segs); [intros [= <- _]; discriminate|].
    destruct (match_path (api (Lit "checkout")) segs); [intros [= <- _]; discriminate|].
    discriminate.
Qed.

Lemma active_route_is_never_reached_witness :
  dispatch GET "/api/visits/active" = Some (VisitById, [("id", "active")])
  /\ VisitById <> ActiveVisit.
Proof.
  assert (H : dispatch GET "/api/visits/active" = Some (VisitById, [("id", "active")]))
    by reflexivity.
  split; [exact H|].
  exact (active_route_is_never_reached GET "/api/visits/active" VisitById
           [("id", "active")] H).
Defined.

(** X16.  A [GET] on a path that the route [/api/visits/active] matches
    is answered by the handler of [/api/visits/:id] with the last segment
    as id; that segment is not the text of a uuid, so the answer is 500
    and the table is not read into the response. *)
Theorem get_active_is_answered_by_id (path : string) (segs : list string)
    (params : list (string * string)) :
  segments path = Some segs ->
  match_path (api (Lit "active")) segs = Some params ->
  exists id,
    dispatch GET path = Some (VisitById, [("id", id)])
    /\ forall w, exists w',
         Reads.visit_by_id id w
         = (Returned (Reads.mk_response 500 (Reads.error_reply "Internal server error")), w')
         /\ visits w' = visits w.
Proof.
  intros Hsegs Ha.
  destruct (active_is_shadowed segs params Ha) as [id [Hid [Hsite [Hhealth Hlen]]]].
  exists id. split.
  - unfold dispatch. now rewrite Hsegs, first_match_get, Hhealth, Hsite, Hid.
  - intros w. destruct (visit_by_id_run id w) as [w' [V E]].
    assert (Hnone : Uuid.parse id = None).
    { destruct (Uuid.parse id) as [u|] eqn:P; [|reflexivity].
      apply uuid_text_length in P. lia. }
    rewrite Hnone in E. now exists w'.
Qed.

Lemma get_active_is_answered_by_id_witness :
  segments "/api/visits/active" = Some ["api"; "visits"; "active"]
  /\ match_path (api (Lit "active")) ["api"; "visits"; "active"] = Some []
  /\ exists id,
       dispatch GET "/api/visits/active" = Some (VisitById, [("id", id)])
       /\ forall w, exists w',
            Reads.visit_by_id id w
            = (Returned (Reads.mk_response 500 (Reads.error_reply "Internal server error")), w')
            /\ visits w' = visits w.
Proof.
  assert (H1 : segments "/api/visits/active" = Some ["api"; "visits"; "active"])
    by reflexivity.
  assert (H2 : match_path (api (Lit "active")) ["api"; "visits"; "active"] = Some [])
    by reflexivity.
  split; [exact H1|]. split; [exact H2|].
  exact (get_active_is_answered_by_id "/api/visits/active" ["api"; "visits"; "active"] []
           H1 H2).
Defined.

(** X17.  The key of the rate counters separates clients and paths: for
    addresses without a vertical bar, two requests have the same key only
    when they have the same address and the same path. *)
Theorem rate_keys_are_separate (ip1 ip2 path1 path2 : string) :
  no_bar ip1 = true -> no_bar ip2 = true ->
  RateGuard.keyGenerator ip1 path1 = RateGuard.keyGenerator ip2 path2 ->
  ip1 = ip2 /\ path1 = path2.
Proof. apply key_injective. Qed.

Lemma rate_keys_are_separate_witness :
  no_bar "203.0.113.7" = true
  /\ RateGuard.keyGenerator "203.0.113.7" "/api/visits/checkin"
     = RateGuard.keyGenerator "203.0.113.7" "/api/visits/checkin"
  /\ "203.0.113.7" = "203.0.113.7" /\ "/api/visits/checkin" = "/api/visits/checkin".
Proof.
  assert (H1 : no_bar "203.0.113.7" = true) by reflexivity.
  split; [exact H1|]. split; [reflexivity|].
  exact (rate_keys_are_separate "203.0.113.7" "203.0.113.7" "/api/visits/checkin"
           "/api/visits/checkin" H1 H1 eq_refl).
Defined.

End Routing.

(** ** The answers of the two writing handlers *)

Section Outcomes.

Import Server.

(** A check-out whose [visitId] is not a non-empty string. *)
Lemma checkout_invalid (e : env) (b : jsval) (w : world) :
  (forall s, Js.get b "visitId" = JStr s -> s = EmptyString) ->
  checkout e b w = (Returned (mk_response 400 (error_reply "visitId is required")), w).
Proof.
  intros H. unfold checkout. cbv zeta. rewrite get_or_else.
  destruct (Js.get b "visitId") as [| | | |s| |]; try reflexivity.
  destruct s as [|c s]; [reflexivity|]. now specialize (H _ eq_refl).
Qed.

(** A check-out whose [visitId] is not the text of a uuid: the statement
    fails, whatever the mailer is. *)
Lemma checkout_bad_id (b : jsval) (s : string) (w : world) :
  Js.get b "visitId" = JStr s -> s <> EmptyString -> Uuid.parse s = None ->
  exists w',
    (forall e, checkout e b w
               = (Returned (mk_response 500 (error_reply "Internal server error")), w'))
    /\ visits w' = visits w
    /\ exists line, console w' = console w ++ [(ERROR, line)].
Proof.
  intros Hb Hs Hu. destruct s as [|c s]; [contradiction|].
  destruct (uuid_param_none _ Hu) as [err Herr].
  eexists. split; [|split].
  - intros e. unfold checkout. cbv zeta. rewrite get_or_else, Hb.
    unfold try_catch at 1. unfold bind at 1. unfold pool_query at 1, Sql.update_check_out.
    rewrite Herr. reflexivity.
  - simpl. now rewrite !elapse_visits.
  - simpl. rewrite !elapse_console. eauto.
Qed.

Lemma not_a_text_cases (v : jsval) :
  (forall s, v = JStr s -> s = EmptyString)
  \/ exists s, v = JStr s /\ s <> EmptyString.
Proof.
  destruct v as [| | | |s| |]; try solve [left; intros s' [=]].
  destruct s as [|c s]; [left; now intros s' [= <-]|right; eexists; split; [reflexivity|discriminate]].
Qed.


(** X19.  A check-out always answers, with 200, 400, 404 or 500.  It
    answers 400 exactly when [visitId] is not a non-empty string, and
    nothing at all has changed then; it answers 500 exactly when
    [visitId] is a non-empty string that is not the text of a uuid.
    Unless the answer is 200 the table is as before. *)
Theorem checkout_outcome (e : env) (b : jsval) (w : world) :
  exists r w',
    checkout e b w = (Returned r, w')
    /\ (status r = 200 \/ status r = 400 \/ status r = 404 \/ status r = 500)%nat
    /\ (status r = 400%nat <-> forall s, Js.get b "visitId" = JStr s -> s = EmptyString)
    /\ (status r = 500%nat <->
        exists s, Js.get b "visitId" = JStr s /\ s <> EmptyString /\ Uuid.parse s = None)
    /\ (status r = 400%nat -> w' = w /\ body r = error_reply "visitId is required")
    /\ (status r <> 200%nat -> visits w' = visits w).
Proof.
  destruct (not_a_text_cases (Js.get b "visitId")) as [Hno | [s [Hb Hs]]].
  - eexists _, w. split; [now apply checkout_invalid|]. cbn [status body].
    split; [tauto|]. split; [tauto|].
    split; [split; [discriminate|]|split; [tauto|reflexivity]].
    intros [s [Hb [Hs _]]]. exfalso. now apply Hs, Hno.
  - assert (Hyes : ~ forall s', Js.get b "visitId" = JStr s' -> s' = EmptyString)
      by (intros H; now apply Hs, H).
    destruct (Uuid.parse s) as [u|] eqn:Hu.
    + assert (Hok : ~ exists s', Js.get b "visitId" = JStr s' /\ s' <> EmptyString
                                 /\ Uuid.parse s' = None).
      { intros [s' [Hb' [_ Hn]]]. congruence. }
      pose proof (checkout_run e b s u w Hb Hs Hu) as E.
      destruct (List.filter (Sql.closes u) (visits w)) as [|v rest] eqn:F.
      * eexists _, _. split; [exact E|]. cbn [status].
        split; [tauto|]. split; [split; [discriminate|contradiction]|].
        split; [split; [discriminate|contradiction]|]. split; [discriminate|].
        intros _. rewrite after_update_visits. now apply close_at_none.
      * destruct (quiet_checkout_mail_block e s (after_update w u)) as [[] [w3 [E3 _]]].
        eexists _, _. split; [exact E|]. cbn [status].
        split; [tauto|]. split; [split; [discriminate|contradiction]|].
        split; [split; [discriminate|contradiction]|]. split; [discriminate|].
        intros H. now contradiction H.
    + destruct (checkout_bad_id b s w Hb Hs Hu) as [w' [E [V _]]].
      eexists _, w'. split; [apply E|]. cbn [status].
      split; [tauto|]. split; [split; [discriminate|contradiction]|].
      split; [split; [eauto|reflexivity]|]. split; [discriminate|]. now intros _.
Qed.

(** X20.  Neither the answer of a check-in or of a check-out nor the
    table it leaves depends on the mailer: with the same generated id and
    the same store, two configurations of the mailer give the same
    response and the same rows. *)
Theorem mail_does_not_change_answers (g : string) (cfg cfg' : Mailer.config)
    (ix : Sql.index_check) (b : jsval) (w : world) :
  fst (checkin (mk_env g cfg ix) b w) = fst (checkin (mk_env g cfg' ix) b w)
  /\ visits (snd (checkin (mk_env g cfg ix) b w))
     = visits (snd (checkin (mk_env g cfg' ix) b w))
  /\ fst (checkout (mk_env g cfg ix) b w) = fst (checkout (mk_env g cfg' ix) b w)
  /\ visits (snd (checkout (mk_env g cfg ix) b w))
     = visits (snd (checkout (mk_env g cfg' ix) b w)).
Proof.
  assert (Hin : fst (checkin (mk_env g cfg ix) b w) = fst (checkin (mk_env g cfg' ix) b w)
                /\ visits (snd (checkin (mk_env g cfg ix) b w))
                   = visits (snd (checkin (mk_env g cfg' ix) b w))).
  { destruct (checkin_cases (mk_env g cfg ix) b w) as [r1 [w1 [E1 H1]]].
    destruct H1 as [[_ [Hev [T _]]] | [[-> [V1 [_ [D1 N1]]]] | [u [t [A _]]]]].
    - now rewrite !checkin_invalid by assumption.
    - destruct (checkin_cases (mk_env g cfg' ix) b w) as [r2 [w2 [E2 H2]]].
      rewrite E1, E2. cbn [fst snd].
      destruct H2 as [[_ [Hev [T _]]] | [[-> [V2 _]] | [u [t [A _]]]]].
      + exfalso. destruct D1; congruence.
      + split; [reflexivity|congruence].
      + exfalso. exact (N1 u A).
    - assert (A' : accepted (mk_env g cfg' ix) b w u) by exact A.
      rewrite (checkin_run (mk_env g cfg ix) b w u A).
      rewrite (checkin_run (mk_env g cfg' ix) b w u A').
      cbv zeta. cbn [fst snd]. split; [reflexivity|].
      set (w0 := after_queries w (inserted_row u (clock (elapse w)) b) b).
      destruct (quiet_checkin_mail_block (mk_env g cfg ix) b w0) as [[] [w3 [E3 [V3 _]]]].
      destruct (quiet_checkin_mail_block (mk_env g cfg' ix) b w0) as [[] [w4 [E4 [V4 _]]]].
      rewrite E3, E4. simpl. congruence. }
  destruct Hin as [Hin1 Hin2]. split; [exact Hin1|]. split; [exact Hin2|].
  destruct (not_a_text_cases (Js.get b "visitId")) as [Hno | [s [Hb Hs]]].
  - now rewrite !checkout_invalid by assumption.
  - destruct (Uuid.parse s) as [u|] eqn:Hu.
    + rewrite (checkout_run (mk_env g cfg ix) b s u w Hb Hs Hu).
      rewrite (checkout_run (mk_env g cfg' ix) b s u w Hb Hs Hu).
      destruct (List.filter (Sql.closes u) (visits w)) as [|v rest]; [now split|].
      cbn [fst snd]. split; [reflexivity|].
      destruct (quiet_checkout_mail_block (mk_env g cfg ix) s (after_update w u))
        as [[] [w1 [E1 [V1 _]]]].
      destruct (quiet_checkout_mail_block (mk_env g cfg' ix) s (after_update w u))
        as [[] [w2 [E2 [V2 _]]]].
      rewrite E1, E2. simpl. congruence.
    + destruct (checkout_bad_id b s w Hb Hs Hu) as [w' [E _]]. now rewrite !E.
Qed.

End Outcomes.

(** ** The mailer *)

Section MailerProperties.

(** X21.  [recipientsForSite] never throws and touches neither the table
    nor the clock; it can only add the warning to the console, which it
    does without a parsable matrix and when the site does not print.  The
    recipients are trimmed, non-empty and free of commas.  They are made
    of the member of the matrix that the site names, inherited members
    included, when that member is true; a site whose member is not gets
    the recipients of [OTHER]. *)
Theorem recipients_for_site (cfg : Mailer.config) (powerPlant : jsval) (w : world) :
  (exists lines,
     Mailer.recipientsForSite cfg powerPlant w
     = (Returned (recipients cfg powerPlant),
        mk_world (visits w) (clock w) (latency w) (console w ++ lines))
     /\ (lines = [] \/ lines = [(WARN, "[mail] invalid NOTIFY_MATRIX")])
     /\ (Mailer.NOTIFY_MATRIX cfg = None \/ Js.prints powerPlant = false ->
         lines = [(WARN, "[mail] invalid NOTIFY_MATRIX")]
         /\ recipients cfg powerPlant = []))
  /\ Forall normal_entry (recipients cfg powerPlant)
  /\ (forall matrix key text,
        Mailer.NOTIFY_MATRIX cfg = Some matrix ->
        matrix <> JNull -> matrix <> JUndefined ->
        Js.ToString powerPlant = Returned key ->
        Js.truthy (Mailer.member cfg matrix key) = true ->
        Js.ToString (Mailer.member cfg matrix key) = Returned text ->
        recipients cfg powerPlant = Mailer.addresses text)
  /\ (forall matrix key,
        Mailer.NOTIFY_MATRIX cfg = Some matrix ->
        Js.ToString powerPlant = Returned key ->
        Js.truthy (Mailer.member cfg matrix key) = false ->
        recipients cfg powerPlant = recipients cfg (JStr "OTHER")).
Proof.
  split; [|split; [|split]].
  - assert (Hnil : mk_world (visits w) (clock w) (latency w) (console w ++ []) = w)
      by (rewrite app_nil_r; apply world_eta).
    unfold Mailer.recipientsForSite, recipients, try_catch, bind, lift, throw, ret,
      write_console, Js.ToString.
    destruct (Mailer.NOTIFY_MATRIX cfg) as [m|];
      [|exists [(WARN, "[mail] invalid NOTIFY_MATRIX")];
        split; [reflexivity|]; split; [now right|now intros _]].
    destruct m;
      try (exists [(WARN, "[mail] invalid NOTIFY_MATRIX")];
           split; [reflexivity|]; split; [now right|now intros _]);
      (destruct (Js.prints powerPlant);
       [|exists [(WARN, "[mail] invalid NOTIFY_MATRIX")];
         split; [reflexivity|]; split; [now right|now intros _]];
       match goal with
       | |- context [Js.truthy ?raw] =>
           destruct (Js.truthy raw);
           [destruct (Js.prints raw);
            [exists []; rewrite Hnil; split; [reflexivity|];
             split; [now left|intros [[=] | [=]]]
            |exists [(WARN, "[mail] invalid NOTIFY_MATRIX")];
             split; [reflexivity|]; split; [now right|now intros _]]
           |exists []; rewrite Hnil; split; [reflexivity|];
            split; [now left|intros [[=] | [=]]]]
       end).
  - unfold recipients.
    destruct (Mailer.NOTIFY_MATRIX cfg) as [m|]; [|constructor].
    destruct m; try constructor;
      (destruct (Js.prints powerPlant); [|constructor];
       match goal with
       | |- Forall _ (if ?c then _ else _) => destruct c; [|constructor]
       end; apply comma_list_normal).
  - intros matrix key text Hm Hn Hu Hk Ht Hp. unfold recipients. rewrite Hm.
    unfold Js.ToString in Hk, Hp.
    destruct (Js.prints powerPlant); [|discriminate]. injection Hk as <-.
    unfold Js.or_else. rewrite Ht. cbv iota. rewrite Ht.
    destruct (Js.prints (Mailer.member cfg matrix (Js.String_ powerPlant)));
      [|discriminate].
    injection Hp as <-. cbn [andb]. destruct matrix; try reflexivity; contradiction.
  - intros matrix key Hm Hk Ht. unfold recipients. rewrite Hm.
    unfold Js.ToString in Hk.
    destruct (Js.prints powerPlant); [|discriminate]. injection Hk as <-.
    cbn [Js.prints Js.String_]. unfold Js.or_else. rewrite Ht.
    assert (Hsame : (if Js.truthy (Mailer.member cfg matrix "OTHER")
                     then Mailer.member cfg matrix "OTHER"
                     else Mailer.member cfg matrix "OTHER")
                    = Mailer.member cfg matrix "OTHER")
      by now destruct (Js.truthy (Mailer.member cfg matrix "OTHER")).
    now rewrite Hsame.
Qed.

(** X22.  [sendNotification] changes no row.  Without [SMTP_HOST] it
    sends nothing and returns, logging one line; it throws only when a
    host is configured and the transport rejects the message, whose
    recipients are the list joined by a comma and a space and whose sender
    is [SMTP_FROM] or the default one; the error is the transport's. *)
Theorem send_notification (cfg : Mailer.config) (subject text : string)
    (toList : list string) (w : world) :
  visits (snd (Mailer.sendNotification cfg subject text toList w)) = visits w
  /\ (Mailer.SMTP_HOST cfg = None \/ Mailer.SMTP_HOST cfg = Some EmptyString ->
      Mailer.sendNotification cfg subject text toList w
      = (Returned tt,
         mk_world (visits w) (clock w) (latency w)
           (console w ++ [(LOG, "[mail] SMTP not configured, skipping email")])))
  /\ (forall err,
        fst (Mailer.sendNotification cfg subject text toList w) = Thrown err <->
        (exists c h, Mailer.SMTP_HOST cfg = Some (String c h))
        /\ Mailer.sendMail cfg
             (Mailer.mk_mail (sender cfg) (join ", " toList) subject text) = Some err).
Proof.
  unfold Mailer.sendNotification, sender.
  destruct (Mailer.SMTP_HOST cfg) as [[|c h]|] eqn:H.
  - split; [reflexivity|]. split; [now intros _|].
    intros err. split; [discriminate|]. now intros [[c [h [=]]] _].
  - split; [|split].
    + destruct (Mailer.sendMail cfg _); simpl; apply elapse_visits.
    + intros [[=] | [=]].
    + intros err. destruct (Mailer.sendMail cfg _) as [e0|]; simpl.
      * split; [intros [= ->]; eauto|]. now intros [_ [= ->]].
      * split; [discriminate|]. now intros [_ [=]].
  - split; [reflexivity|]. split; [now intros _|].
    intros err. split; [discriminate|]. now intros [[c [h [=]]] _].
Qed.

End MailerProperties.

(** ** The migrations *)

Section Migrations.

Import Db.

Lemma extends_on_refl (t : string) (c : gmap string relation) : extends_on t c c.
Proof. intros name r H. now left. Qed.

Lemma extends_on_trans (t : string) (c1 c2 c3 : gmap string relation) :
  extends_on t c1 c2 -> extends_on t c2 c3 -> extends_on t c1 c3.
Proof.
  intros H12 H23 name r H.
  destruct (H12 name r H) as [H2 | [-> [cols [more [-> H2]]]]].
  - exact (H23 name r H2).
  - destruct (H23 _ _ H2) as [H3 | [_ [cols' [more' [[= <-] H3]]]]].
    + right. split; [reflexivity|]. eauto.
    + right. split; [reflexivity|]. exists cols, (more ++ more'). split; [reflexivity|].
      now rewrite app_assoc.
Qed.

Lemma extends_on_present (t : string) (c c' : gmap string relation) (name : string) :
  extends_on t c c' -> c !! name <> None -> c' !! name <> None.
Proof.
  intros H Hn. destruct (c !! name) as [r|] eqn:E; [|contradiction].
  destruct (H name r E) as [-> | [_ [cols [more [_ ->]]]]]; discriminate.
Qed.

Lemma extends_on_table (t : string) (c c' : gmap string relation) (name : string)
    (cols : list column) :
  extends_on t c c' -> c !! name = Some (table cols) ->
  exists more, c' !! name = Some (table (cols ++ more)).
Proof.
  intros H E. destruct (H name _ E) as [H' | [_ [cols' [more [[= <-] H']]]]].
  - exists []. now rewrite app_nil_r.
  - eauto.
Qed.

Lemma has_column_app (n : string) (a b : list column) :
  has_column n (a ++ b) = has_column n a || has_column n b.
Proof. apply existsb_app. Qed.

Lemma has_column_more (n : string) (a b : list column) :
  has_column n a = true -> has_column n (a ++ b) = true.
Proof. intros H. now rewrite has_column_app, H. Qed.

Lemma keys_more (keys : list string) (a b : list column) :
  forallb (fun k => has_column k a) keys = true ->
  forallb (fun k => has_column k (a ++ b)) keys = true.
Proof.
  rewrite !forallb_forall. intros H k Hk. apply has_column_more, H, Hk.
Qed.

Lemma migration_create_table (t name : string) (cols : list column) :
  migration t (create_table_if_not_exists name cols).
Proof.
  unfold create_table_if_not_exists. split.
  - intros c c' H. destruct (c !! name) eqn:E; injection H as <-.
    + apply extends_on_refl.
    + intros n r Hn. left. rewrite lookup_insert_ne; [exact Hn|]. congruence.
  - intros c c' H c'' Hx.
    assert (Hp : c' !! name <> None).
    { destruct (c !! name) eqn:E; injection H as <-; [congruence|].
      rewrite lookup_insert_eq. discriminate. }
    pose proof (extends_on_present _ _ _ _ Hx Hp).
    destruct (c'' !! name); [reflexivity|contradiction].
Qed.

Lemma migration_add_column (t : string) (col : column) :
  migration t (add_column_if_not_exists t col).
Proof.
  unfold add_column_if_not_exists. split.
  - intros c c' H. destruct (c !! t) as [[cols|]|] eqn:E; try discriminate.
    destruct (has_column (column_name col) cols); injection H as <-.
    + apply extends_on_refl.
    + intros n r Hn. destruct (String.eqb_spec n t) as [-> | Hne].
      * right. split; [reflexivity|]. exists cols, [col].
        rewrite lookup_insert_eq. split; congruence.
      * left. rewrite lookup_insert_ne; [exact Hn|]. congruence.
  - intros c c' H c'' Hx.
    assert (Hp : exists cols', c' !! t = Some (table cols')
                               /\ has_column (column_name col) cols' = true).
    { destruct (c !! t) as [[cols|]|] eqn:E; try discriminate.
      destruct (has_column (column_name col) cols) eqn:Hc; injection H as <-.
      - eauto.
      - rewrite lookup_insert_eq. eexists. split; [reflexivity|].
        rewrite has_column_app. simpl. rewrite String.eqb_refl. now rewrite orb_true_r. }
    destruct Hp as [cols' [E' Hc]].
    destruct (extends_on_table _ _ _ _ _ Hx E') as [more ->].
    now rewrite has_column_more.
Qed.

Lemma migration_create_index (t name tbl : string) (keys : list string) :
  migration t (create_index_if_not_exists name tbl keys).
Proof.
  unfold create_index_if_not_exists. split.
  - intros c c' H. destruct (c !! tbl) as [[cols|]|] eqn:E; try discriminate.
    destruct (forallb _ keys); [|discriminate].
    destruct (c !! name) eqn:En; injection H as <-.
    + apply extends_on_refl.
    + intros n r Hn. left. rewrite lookup_insert_ne; [exact Hn|]. congruence.
  - intros c c' H c'' Hx.
    assert (Hp : exists cols', c' !! tbl = Some (table cols')
                               /\ forallb (fun k => has_column k cols') keys = true
                               /\ c' !! name <> None).
    { destruct (c !! tbl) as [[cols|]|] eqn:E; try discriminate.
      destruct (forallb _ keys) eqn:Hk; [|discriminate].
      destruct (c !! name) eqn:En; injection H as <-.
      - exists cols. repeat split; congruence.
      - exists cols. rewrite lookup_insert_eq.
        rewrite lookup_insert_ne by congruence. repeat split; [assumption..|discriminate]. }
    destruct Hp as [cols' [E' [Hk Hn]]].
    destruct (extends_on_table _ _ _ _ _ Hx E') as [more ->].
    rewrite keys_more by assumption.
    pose proof (extends_on_present _ _ _ _ Hx Hn).
    destruct (c'' !! name); [reflexivity|contradiction].
Qed.

Lemma run_extends (t : string)
    (statements : list (gmap string relation -> option (gmap string relation))) :
  Forall (migration t) statements ->
  forall c c', run statements c = Some c' -> extends_on t c c'.
Proof.
  induction 1 as [|s rest [Hs _] _ IH]; intros c c' H; simpl in H.
  - injection H as <-. apply extends_on_refl.
  - destruct (s c) as [c1|] eqn:E; [|discriminate].
    eapply extends_on_trans; [exact (Hs _ _ E)|exact (IH _ _ H)].
Qed.

(** Statements that have run change nothing on what they left, nor on
    what extends it. *)
Lemma run_settled (t : string)
    (statements : list (gmap string relation -> option (gmap string relation))) :
  Forall (migration t) statements ->
  forall c c', run statements c = Some c' ->
  forall c'', extends_on t c' c'' -> run statements c'' = Some c''.
Proof.
  induction 1 as [|s rest Hs Hrest IH]; intros c c' H c'' Hx; simpl in *; [reflexivity|].
  destruct (s c) as [c1|] eqn:E; [|discriminate].
  pose proof (run_extends t rest Hrest _ _ H) as H1.
  destruct Hs as [_ Hs].
  rewrite (Hs _ _ E c'' (extends_on_trans _ _ _ _ H1 Hx)).
  exact (IH _ _ H _ Hx).
Qed.

Lemma migrations_are_migrations : Forall (migration "visits") migrations.
Proof.
  unfold migrations.
  repeat (constructor;
          [first [apply migration_create_table | apply migration_add_column
                 | apply migration_create_index]|]).
  constructor.
Qed.

Lemma initDb_run (c c' : gmap string relation)
    (out : list (log_level * string)) :
  initDb c = Some (c', out) <-> run migrations c = Some c' /\ out = ensured.
Proof.
  unfold initDb. destruct (run migrations c) as [c1|].
  - split; [intros [= <- <-]; now split|]. now intros [[= <-] ->].
  - split; [discriminate|]. now intros [[=] _].
Qed.

(** X23.  [initDb] can run at every start: on the catalog that a
    successful run left, it succeeds again and changes nothing. *)
Theorem migrations_are_idempotent (c c' : gmap string relation)
    (out : list (log_level * string)) :
  initDb c = Some (c', out) -> initDb c' = Some (c', out).
Proof.
  rewrite !initDb_run. intros [H ->]. split; [|reflexivity].
  exact (run_settled "visits" migrations migrations_are_migrations c c' H c'
           (extends_on_refl _ _)).
Qed.

Lemma migrations_are_idempotent_witness :
  initDb legacy_catalog = Some (migrated legacy_catalog, ensured)
  /\ initDb (migrated legacy_catalog) = Some (migrated legacy_catalog, ensured).
Proof.
  assert (H : initDb legacy_catalog = Some (migrated legacy_catalog, ensured))
    by (vm_compute; reflexivity).
  split; [exact H|].
  exact (migrations_are_idempotent legacy_catalog (migrated legacy_catalog) ensured H).
Defined.

(** X24.  [initDb] drops nothing: every relation of the catalog is there
    afterwards as it was, but that the table [visits] may have gained
    columns, after the columns it had. *)
Theorem migrations_keep_what_is_there (c c' : gmap string relation)
    (out : list (log_level * string)) :
  initDb c = Some (c', out) ->
  forall name r, c !! name = Some r ->
    c' !! name = Some r
    \/ (name = "visits"
        /\ exists columns more,
             r = table columns /\ c' !! name = Some (table (columns ++ more))).
Proof.
  rewrite initDb_run. intros [H _].
  exact (run_extends "visits" migrations migrations_are_migrations c c' H).
Qed.

Lemma migrations_keep_what_is_there_witness :
  initDb legacy_catalog = Some (migrated legacy_catalog, ensured)
  /\ forall name r, legacy_catalog !! name = Some r ->
       migrated legacy_catalog !! name = Some r
       \/ (name = "visits"
           /\ exists columns more,
                r = table columns
                /\ migrated legacy_catalog !! name = Some (table (columns ++ more))).
Proof.
  assert (H : initDb legacy_catalog = Some (migrated legacy_catalog, ensured))
    by (vm_compute; reflexivity).
  split; [exact H|].
  exact (migrations_keep_what_is_there legacy_catalog (migrated legacy_catalog) ensured H).
Defined.

Lemma has_column_add_missing (n : string) (cols : list column) (col : column) :
  has_column n (add_missing cols col)
  = has_column n cols || String.eqb (column_name col) n.
Proof.
  unfold add_missing. destruct (has_column (column_name col) cols) eqn:H.
  - destruct (String.eqb_spec (column_name col) n) as [<- | _].
    + now rewrite H.
    + now rewrite orb_false_r.
  - rewrite has_column_app. simpl. now rewrite orb_false_r.
Qed.

Lemma add_missing_more (cols : list column) (col : column) :
  exists more, add_missing cols col = cols ++ more.
Proof.
  unfold add_missing. destruct (has_column _ cols); [exists []; now rewrite app_nil_r|eauto].
Qed.

Lemma upgraded_more (cols : list column) : exists more, upgraded cols = cols ++ more.
Proof.
  unfold upgraded. generalize added_columns. intros l. revert cols.
  induction l as [|col l IH]; intros cols; simpl.
  - exists []. now rewrite app_nil_r.
  - destruct (add_missing_more cols col) as [m1 ->].
    destruct (IH (cols ++ m1)) as [m2 ->]. exists (m1 ++ m2). now rewrite app_assoc.
Qed.

Lemma has_column_upgraded (n : string) (cols : list column) :
  has_column n (upgraded cols)
  = has_column n cols
    || existsb (String.eqb n)
         ["power_plant"; "equipment_name"; "maintenance_company"; "status";
          "malfunction_type"].
Proof.
  unfold upgraded, added_columns. cbn [map fold_left].
  rewrite !has_column_add_missing. cbn [text_column column_name existsb].
  rewrite !(String.eqb_sym n). rewrite orb_false_r, <- !orb_assoc. reflexivity.
Qed.

Lemma add_column_run (t : string) (col : column) (c : gmap string relation) (cols : list column) :
  c !! t = Some (table cols) ->
  exists c1,
    add_column_if_not_exists t col c = Some c1
    /\ c1 !! t = Some (table (add_missing cols col)).
Proof.
  intros E. unfold add_column_if_not_exists, add_missing. rewrite E.
  destruct (has_column (column_name col) cols).
  - eauto.
  - eexists. split; [reflexivity|]. apply lookup_insert_eq.
Qed.

Lemma create_index_run (name t : string) (keys : list string) (c : gmap string relation)
    (cols : list column) :
  name <> t ->
  c !! t = Some (table cols) ->
  create_index_if_not_exists name t keys c
  = (if forallb (fun k => has_column k cols) keys then
       Some (match c !! name with Some _ => c | None => <[name := index t keys]> c end)
     else None)
  /\ (match c !! name with Some _ => c | None => <[name := index t keys]> c end) !! t
     = Some (table cols).
Proof.
  intros Hne E. unfold create_index_if_not_exists. rewrite E. split.
  - destruct (forallb _ keys); [|reflexivity]. now destruct (c !! name).
  - destruct (c !! name); [exact E|]. now rewrite lookup_insert_ne.
Qed.

Lemma ne_visits (name : string) : String.eqb name "visits" = false -> name <> "visits".
Proof. intros H ->. discriminate. Qed.

(** The run of the nine statements that follow [CREATE TABLE], on a
    catalog where [visits] is a table. *)
Lemma alter_and_index (c : gmap string relation) (cols : list column) :
  c !! "visits" = Some (table cols) ->
  if has_column "turbine_id" cols && has_column "check_out" cols then
    exists c', run (tl migrations) c = Some c'
               /\ c' !! "visits" = Some (table (upgraded cols))
  else run (tl migrations) c = None.
Proof.
  intros E. unfold migrations. cbn [tl run].
  destruct (add_column_run "visits" (text_column "power_plant") c _ E) as [c1 [-> E1]].
  destruct (add_column_run "visits" (text_column "equipment_name") c1 _ E1) as [c2 [-> E2]].
  destruct (add_column_run "visits" (text_column "maintenance_company") c2 _ E2)
    as [c3 [-> E3]].
  destruct (add_column_run "visits" (text_column "status") c3 _ E3) as [c4 [-> E4]].
  destruct (add_column_run "visits" (text_column "malfunction_type") c4 _ E4)
    as [c5 [-> E5]].
  change (add_missing _ (text_column "malfunction_type")) with (upgraded cols) in E5.
  pose proof (fun n => has_column_upgraded n cols) as Hk.
  destruct (create_index_run "idx_visits_turbine" "visits" ["turbine_id"] c5 _
              (ne_visits "idx_visits_turbine" eq_refl) E5) as [-> E6].
  cbn [forallb]. rewrite !Hk.
  cbn [existsb String.eqb Ascii.eqb Bool.eqb orb andb]. rewrite ?orb_false_r, ?orb_true_r.
  destruct (has_column "turbine_id" cols) eqn:Ht; cbn [andb]; [|reflexivity].
  match type of E6 with ?c6 !! _ = _ => set (c6' := c6) in * end.
  destruct (create_index_run "idx_visits_active" "visits" ["turbine_id"; "check_out"] c6' _
              (ne_visits "idx_visits_active" eq_refl) E6) as [-> E7].
  cbn [forallb]. rewrite !Hk, ?Ht.
  cbn [existsb String.eqb Ascii.eqb Bool.eqb orb andb]. rewrite ?orb_false_r, ?orb_true_r.
  destruct (has_column "check_out" cols) eqn:Hc; cbn [andb]; [|reflexivity].
  match type of E7 with ?c7 !! _ = _ => set (c7' := c7) in * end.
  destruct (create_index_run "idx_visits_powerplant_active" "visits"
              ["power_plant"; "check_out"] c7' _
              (ne_visits "idx_visits_powerplant_active" eq_refl) E7) as [-> E8].
  cbn [forallb]. rewrite !Hk, ?Ht, ?Hc.
  cbn [existsb String.eqb Ascii.eqb Bool.eqb orb andb]. rewrite ?orb_false_r, ?orb_true_r.
  cbn [andb].
  match type of E8 with ?c8 !! _ = _ => set (c8' := c8) in * end.
  destruct (create_index_run "idx_visits_equipment_active" "visits"
              ["power_plant"; "equipment_name"; "check_out"] c8' _
              (ne_visits "idx_visits_equipment_active" eq_refl) E8) as [-> E9].
  cbn [forallb]. rewrite !Hk, ?Ht, ?Hc.
  cbn [existsb String.eqb Ascii.eqb Bool.eqb orb andb]. rewrite ?orb_false_r, ?orb_true_r.
  cbn [andb].
  eexists. split; [reflexivity|exact E9].
Qed.

(** X25.  What [initDb] needs and what it ensures.  Without a relation
    [visits] it succeeds and creates the table with exactly the columns
    that the statements of the handlers name.  On a table [visits] it
    succeeds exactly when the table has the columns [turbine_id] and
    [check_out], which the indexes need; the table then keeps its columns
    and has the five added ones.  When [visits] is not a table it fails. *)
Theorem migrations_ensure_the_schema (c : gmap string relation) :
  (c !! "visits" = None ->
   exists c' cols,
     initDb c = Some (c', ensured)
     /\ c' !! "visits" = Some (table cols)
     /\ map column_name cols = handler_columns)
  /\ (forall cols, c !! "visits" = Some (table cols) ->
        (initDb c <> None <->
         has_column "turbine_id" cols = true /\ has_column "check_out" cols = true)
        /\ forall c' out, initDb c = Some (c', out) ->
             exists more,
               c' !! "visits" = Some (table (cols ++ more))
               /\ Forall (fun col => has_column (column_name col) (cols ++ more) = true)
                         added_columns)
  /\ (forall on keys, c !! "visits" = Some (index on keys) -> initDb c = None).
Proof.
  split; [|split].
  - intros E.
    pose proof (alter_and_index (<["visits" := table visits_columns]> c) visits_columns
                  (lookup_insert_eq _ _ _)) as H.
    cbn [andb] in H. change (has_column "turbine_id" visits_columns) with true in H.
    change (has_column "check_out" visits_columns) with true in H. cbn [andb] in H.
    destruct H as [c' [R V]]. exists c', (upgraded visits_columns).
    split; [|split; [exact V|reflexivity]].
    unfold initDb, migrations in *. cbn [run tl] in *.
    unfold create_table_if_not_exists at 1. rewrite E. now rewrite R.
  - intros cols E.
    pose proof (alter_and_index c cols E) as H.
    assert (R : run migrations c = run (tl migrations) c).
    { unfold migrations. cbn [run tl]. unfold create_table_if_not_exists at 1.
      now rewrite E. }
    unfold initDb. rewrite R.
    destruct (has_column "turbine_id" cols && has_column "check_out" cols) eqn:Hb.
    + destruct H as [c' [-> V]]. apply andb_true_iff in Hb. split.
      * split; [intros _; exact Hb|discriminate].
      * intros c'' out [= <- _]. destruct (upgraded_more cols) as [more Hm].
        exists more. rewrite <- Hm. split; [exact V|].
        unfold added_columns. cbn [map].
        repeat constructor; cbn [text_column column_name];
          rewrite has_column_upgraded; simpl; apply orb_true_r.
    + rewrite H. split; [|discriminate].
      split; [congruence|]. intros [H1 H2]. rewrite H1, H2 in Hb. discriminate.
  - intros on keys E. unfold initDb, migrations. cbn [run].
    unfold create_table_if_not_exists at 1. rewrite E.
    unfold add_column_if_not_exists at 1. now rewrite E.
Qed.

Lemma migrations_ensure_the_schema_witness :
  (∅ : gmap string relation) !! "visits" = None
  /\ legacy_catalog !! "visits" = Some (table visits_columns)
  /\ (exists c' cols,
        initDb ∅ = Some (c', ensured)
        /\ c' !! "visits" = Some (table cols)
        /\ map column_name cols = handler_columns)
  /\ (initDb legacy_catalog <> None <->
      has_column "turbine_id" visits_columns = true
      /\ has_column "check_out" visits_columns = true).
Proof.
  assert (H1 : (∅ : gmap string relation) !! "visits" = None) by reflexivity.
  assert (H2 : legacy_catalog !! "visits" = Some (table visits_columns)) by reflexivity.
  split; [exact H1|]. split; [exact H2|]. split.
  - exact (proj1 (migrations_ensure_the_schema ∅) H1).
  - exact (proj1 (proj1 (proj2 (migrations_ensure_the_schema legacy_catalog))
                    visits_columns H2)).
Defined.

End Migrations.

(** ** The form and the check-in handler *)

Section FormAndServer.

Import Server.

Lemma trimEnd_snoc (s : string) (c : ascii) :
  is_ws c = false -> trimEnd (s +:+ String c EmptyString) = s +:+ String c EmptyString.
Proof.
  intros W. induction s as [|a r IH].
  - rewrite append_nil. simpl. now rewrite W.
  - rewrite append_cons. cbn [trimEnd]. rewrite IH.
    destruct r as [|b r']; [now rewrite append_nil|now rewrite append_cons].
Qed.

Lemma trimStart_keeps (c : ascii) (r : string) :
  is_ws c = false -> trimStart (String c r) = String c r.
Proof. intros W. simpl. now rewrite W. Qed.

Lemma trim_framed (c d : ascii) (r m : string) :
  is_ws c = false -> is_ws d = false ->
  trim (String c (r +:+ m +:+ String d EmptyString))
  = String c (r +:+ m +:+ String d EmptyString).
Proof.
  intros Wc Wd. unfold trim. rewrite trimStart_keeps by exact Wc.
  rewrite <- (append_assoc r m), <- (append_cons c (r +:+ m)).
  now apply trimEnd_snoc.
Qed.

(** An entry of the form is empty or has no white space around it. *)
Lemma entry_trimmed (g : Form.technician) : trim (Form.entry g) = Form.entry g.
Proof.
  unfold Form.entry. cbv zeta.
  destruct (trim (Form.name g)) as [|c r] eqn:N; [reflexivity|]. cbn [nonempty].
  destruct (nonempty (trim (Form.number g))).
  - pose proof (trim_head _ _ _ N) as W.
    replace (String c r +:+ " (" +:+ trim (Form.number g) +:+ ")")
      with (String c (r +:+ (" (" +:+ trim (Form.number g)) +:+ String ")" EmptyString))
      by (now rewrite (append_assoc " (" (trim (Form.number g))), (append_cons c r)).
    now apply trim_framed.
  - rewrite <- N. apply trim_idempotent.
Qed.

Lemma positive_length (s : string) : (0 <? String.length s)%nat = nonempty s.
Proof. now destruct s. Qed.

Lemma techs_of_entries_sent (controls : list Form.technician) :
  techs_of (JArr (map JStr (Form.technicians controls))) = Form.technicians controls.
Proof.
  unfold techs_of, Form.technicians. rewrite map_map. cbn [Js.String_].
  induction controls as [|g rest IH]; [reflexivity|].
  cbn [map List.filter]. rewrite positive_length.
  destruct (nonempty (Form.entry g)) eqn:E; [|exact IH].
  cbn [map List.filter]. rewrite entry_trimmed, E. now rewrite IH.
Qed.

(** Reading the body that arrives is reading the object that was sent. *)
Lemma get_received (f : Form.values) (l : list string) (k : string) :
  Js.get (Form.received (Form.payload f l)) k = Js.get (Form.payload f l) k.
Proof.
  unfold Form.payload, Form.received, Form.or_undefined.
  destruct (nonempty (Form.reason f)), (nonempty (Form.comment f)),
    (nonempty (Form.powerPlant f)), (nonempty (Form.equipmentName f)),
    (nonempty (Form.maintenanceCompany f)), (nonempty (Form.status f)),
    (nonempty (Form.malfunctionType f));
    cbn [List.filter snd Js.get Js.assoc];
    repeat match goal with
           | |- context [String.eqb k ?x] =>
               destruct (String.eqb_spec k x) as [->|?]; [reflexivity|]
           end; reflexivity.
Qed.

Lemma or_null_or_undefined (s : string) : or_null (Form.or_undefined s) = text_or_null s.
Proof. unfold Form.or_undefined, text_or_null. now destruct s. Qed.

Lemma turbine_of_form (s : string) :
  turbine_of JUndefined (Form.or_undefined s) = site_turbine s.
Proof. unfold Form.or_undefined, site_turbine. now destruct s. Qed.

(** The row that the check-in of a form's body hands to [INSERT]. *)
Lemma inserted_row_form (u : uuid) (t : Z) (f : Form.values) (controls : list Form.technician) :
  inserted_row u t (Form.received (Form.payload f (Form.technicians controls)))
  = Visit.mk u (site_turbine (Form.powerPlant f)) (dedupe (Form.technicians controls))
      (text_or_null (Form.reason f)) (text_or_null (Form.comment f)) t None
      (text_or_null (Form.powerPlant f)) (text_or_null (Form.equipmentName f))
      (text_or_null (Form.maintenanceCompany f)) (text_or_null (Form.status f))
      (text_or_null (Form.malfunctionType f)).
Proof.
  unfold inserted_row. rewrite !get_received.
  unfold Form.payload. cbn [Js.get Js.assoc String.eqb Ascii.eqb Bool.eqb].
  now rewrite techs_of_entries_sent, turbine_of_form, !or_null_or_undefined.
Qed.

Lemma onCheckIn_posted (now : Z) (invalid : bool) (f : Form.values)
    (controls : list Form.technician) (l l' : Form.limiter) (body : jsval) :
  Form.onCheckIn now invalid f controls l = (Form.posted body, l') ->
  Form.isSubmitLocked now l = false
  /\ invalid = false
  /\ Form.technicians controls <> []
  /\ body = Form.payload f (Form.technicians controls)
  /\ l' = Form.recordSubmitAttempt now l.
Proof.
  unfold Form.onCheckIn. destruct (Form.isSubmitLocked now l); [discriminate|].
  destruct invalid; [discriminate|].
  destruct (Form.technicians controls) as [|x xs]; [discriminate|].
  intros [= <- <-]. split; [reflexivity|]. split; [reflexivity|].
  split; [discriminate|]. split; reflexivity.
Qed.

(** X26.  A check-in that the form posts passes the validation of the
    server: the answer is never 400.  When the answer is 201 the row
    stored has the entries of the form as its technicians, later
    duplicates dropped; as the form sends no [turbineId], its turbine id
    is the placeholder made of the power plant, or [N/A]; a control left
    empty is stored as [NULL]. *)
Theorem form_checkin_is_accepted (now : Z) (invalid : bool) (f : Form.values)
    (controls : list Form.technician) (l l' : Form.limiter) (body : jsval) (e : env)
    (w : world) :
  Form.onCheckIn now invalid f controls l = (Form.posted body, l') ->
  exists r w',
    checkin e (Form.received body) w = (Returned r, w')
    /\ status r <> 400%nat
    /\ (status r = 201%nat ->
        exists u t,
          visits w'
          = visits w
            ++ [Visit.mk u (site_turbine (Form.powerPlant f))
                  (dedupe (Form.technicians controls))
                  (text_or_null (Form.reason f)) (text_or_null (Form.comment f)) t None
                  (text_or_null (Form.powerPlant f)) (text_or_null (Form.equipmentName f))
                  (text_or_null (Form.maintenanceCompany f)) (text_or_null (Form.status f))
                  (text_or_null (Form.malfunctionType f))]).
Proof.
  intros H. apply onCheckIn_posted in H as [_ [_ [Hne [-> _]]]].
  set (b := Form.received (Form.payload f (Form.technicians controls))).
  assert (T : techs_of (Js.get b "technicians") = Form.technicians controls).
  { unfold b. rewrite get_received. apply techs_of_entries_sent. }
  destruct (checkin_cases e b w) as [r [w' [E Hcases]]].
  exists r, w'. split; [exact E|].
  destruct Hcases as [[_ [_ [T0 _]]] | [[-> _] | [u [t [_ [-> [V _]]]]]]].
  - congruence.
  - split; discriminate.
  - split; [discriminate|]. intros _.
    exists u, (clock (elapse w)). rewrite V. unfold b. now rewrite inserted_row_form.
Qed.

Lemma form_checkin_is_accepted_witness :
  Form.onCheckIn 5000 false sample_form sample_controls sample_limiter
  = (Form.posted (Form.payload sample_form ["Alice (0601)"; "Bob"]),
     Form.recordSubmitAttempt 5000 sample_limiter)
  /\ exists r w',
       checkin Sample.env1
         (Form.received (Form.payload sample_form ["Alice (0601)"; "Bob"])) Sample.world0
       = (Returned r, w')
       /\ status r <> 400%nat
       /\ (status r = 201%nat ->
           exists u t,
             visits w'
             = visits Sample.world0
               ++ [Visit.mk u (site_turbine (Form.powerPlant sample_form))
                     (dedupe (Form.technicians sample_controls))
                     (text_or_null (Form.reason sample_form))
                     (text_or_null (Form.comment sample_form)) t None
                     (text_or_null (Form.powerPlant sample_form))
                     (text_or_null (Form.equipmentName sample_form))
                     (text_or_null (Form.maintenanceCompany sample_form))
                     (text_or_null (Form.status sample_form))
                     (text_or_null (Form.malfunctionType sample_form))]).
Proof.
  assert (H : Form.onCheckIn 5000 false sample_form sample_controls sample_limiter
              = (Form.posted (Form.payload sample_form ["Alice (0601)"; "Bob"]),
                 Form.recordSubmitAttempt 5000 sample_limiter)) by reflexivity.
  split; [exact H|].
  exact (form_checkin_is_accepted 5000 false sample_form sample_controls sample_limiter _ _
           Sample.env1 Sample.world0 H).
Defined.

End FormAndServer.

(** ** The lock of the form *)

Section FormLock.

Lemma ticks_before_end (end_ : Z) (times : list Z) (l : Form.limiter) :
  Forall (fun t => t < end_) times ->
  Form.submitLockedUntil (ticks end_ times l) = Form.submitLockedUntil l
  /\ Form.submitAttemptTimes (ticks end_ times l) = Form.submitAttemptTimes l.
Proof.
  unfold ticks. intros H. revert l. induction H as [|t rest Ht _ IH]; intros l; [now split|].
  cbn [fold_left]. destruct (IH (Form.tick t end_ l)) as [-> ->].
  unfold Form.tick. cbv zeta.
  destruct (Z.leb_spec (Z.max 0 (end_ - t)) 0); [lia|now split].
Qed.

Lemma recent_young (now : Z) (l : Form.limiter) (t : Z) :
  In t (recent now l) -> now - t < Form.windowMs.
Proof. unfold recent. intros H. apply filter_In in H as [_ H]. lia. Qed.

(** X27.  The fifth check-in that the form posts within a minute locks
    it until a minute after the oldest of them: whatever the countdown
    timer does before that time, a click is refused and nothing is
    posted; the first run of the timer at or after that time clears the
    lock and forgets the attempts. *)
Theorem fifth_attempt_locks (now : Z) (invalid : bool) (f : Form.values)
    (controls : list Form.technician) (l l' : Form.limiter) (body : jsval) :
  Form.onCheckIn now invalid f controls l = (Form.posted body, l') ->
  (4 <= List.length (recent now l))%nat ->
  exists first,
    hd_error (recent now l) = Some first
    /\ Form.submitLockedUntil l' = Some (first + Form.windowMs)
    /\ now < first + Form.windowMs
    /\ (forall timer now2 invalid2 f2 controls2,
          Forall (fun t => t < first + Form.windowMs) timer ->
          now2 < first + Form.windowMs ->
          exists message,
            Form.onCheckIn now2 invalid2 f2 controls2
              (ticks (first + Form.windowMs) timer l')
            = (Form.refused (Some message), ticks (first + Form.windowMs) timer l'))
    /\ (forall timer t,
          first + Form.windowMs <= t ->
          Form.tick t (first + Form.windowMs) (ticks (first + Form.windowMs) timer l')
          = Form.mk_limiter [] None 0 None).
Proof.
  intros H Hlen. apply onCheckIn_posted in H as [Hfree [_ [_ [_ ->]]]].
  destruct (recent now l) as [|first rest] eqn:R; [simpl in Hlen; lia|].
  exists first. split; [reflexivity|].
  assert (Hyoung : now - first < Form.windowMs).
  { apply (recent_young now l). rewrite R. now left. }
  assert (Hlock : Form.submitLockedUntil (Form.recordSubmitAttempt now l)
                  = Some (first + Form.windowMs)).
  { unfold Form.recordSubmitAttempt. cbv zeta. fold (recent now l). rewrite R.
    replace (5 <=? List.length ((first :: rest) ++ [now]))%nat with true
      by (symmetry; apply Nat.leb_le; rewrite length_app; simpl in *; lia).
    unfold Form.isSubmitLocked in *. cbn [Form.submitLockedUntil]. rewrite Hfree.
    cbn [andb negb app hd]. unfold Form.startCountdown, Form.tick. cbv zeta.
    destruct (Z.leb_spec (Z.max 0 (now + Z.max 0 (Form.windowMs - (now - first)) - now)) 0);
      [lia|].
    cbn [Form.submitLockedUntil]. f_equal. lia. }
  split; [exact Hlock|]. split; [lia|]. split.
  - intros timer now2 invalid2 f2 controls2 Ht Hnow2.
    destruct (ticks_before_end _ timer (Form.recordSubmitAttempt now l) Ht) as [Hl _].
    unfold Form.onCheckIn, Form.isSubmitLocked. rewrite Hl, Hlock.
    destruct (Z.ltb_spec now2 (first + Form.windowMs)); [eauto|lia].
  - intros timer t Ht. unfold Form.tick. cbv zeta.
    destruct (Z.leb_spec (Z.max 0 (first + Form.windowMs - t)) 0); [reflexivity|lia].
Qed.

Lemma fifth_attempt_locks_witness :
  Form.onCheckIn 5000 false sample_form sample_controls sample_limiter
  = (Form.posted (Form.payload sample_form ["Alice (0601)"; "Bob"]),
     Form.recordSubmitAttempt 5000 sample_limiter)
  /\ (4 <= List.length (recent 5000 sample_limiter))%nat
  /\ exists first,
       hd_error (recent 5000 sample_limiter) = Some first
       /\ Form.submitLockedUntil (Form.recordSubmitAttempt 5000 sample_limiter)
          = Some (first + Form.windowMs)
       /\ 5000 < first + Form.windowMs
       /\ (forall timer now2 invalid2 f2 controls2,
             Forall (fun t => t < first + Form.windowMs) timer ->
             now2 < first + Form.windowMs ->
             exists message,
               Form.onCheckIn now2 invalid2 f2 controls2
                 (ticks (first + Form.windowMs) timer
                    (Form.recordSubmitAttempt 5000 sample_limiter))
               = (Form.refused (Some message),
                  ticks (first + Form.windowMs) timer
                    (Form.recordSubmitAttempt 5000 sample_limiter)))
       /\ (forall timer t,
             first + Form.windowMs <= t ->
             Form.tick t (first + Form.windowMs)
               (ticks (first + Form.windowMs) timer
                  (Form.recordSubmitAttempt 5000 sample_limiter))
             = Form.mk_limiter [] None 0 None).
Proof.
  assert (H1 : Form.onCheckIn 5000 false sample_form sample_controls sample_limiter
               = (Form.posted (Form.payload sample_form ["Alice (0601)"; "Bob"]),
                  Form.recordSubmitAttempt 5000 sample_limiter)) by reflexivity.
  assert (H2 : (4 <= List.length (recent 5000 sample_limiter))%nat) by (simpl; lia).
  split; [exact H1|]. split; [exact H2|].
  exact (fifth_attempt_locks 5000 false sample_form sample_controls sample_limiter _ _ H1 H2).
Defined.

End FormLock.
